(** * Coverage analyser backend (src/backend/server.js): model and properties

    The helpers of server.js are embedded as Rocq functions over a small
    model of the JavaScript values they handle.  Strings are sequences of
    UTF-16 code units, numbers read from JSON are binary64 values, network
    calls are answers of an explicit [World], and a rejected promise or a
    thrown exception is the [Throw] branch of [Result]. *)

From Stdlib Require Import ZArith NArith PArith List String Ascii Bool Lia.
From Stdlib Require Import Floats.SpecFloat.
Import ListNotations.

Set Warnings "-register-all".

(* ================================================================== *)
(** ** Strings *)
(* ================================================================== *)

Module JsString.

(** A JavaScript string: its UTF-16 code units. *)
Definition jsstring := list N.

Definition ch (a : ascii) : N := N_of_ascii a.

(** An ASCII literal of the source. *)
Definition lit (s : string) : jsstring := map N_of_ascii (list_ascii_of_string s).

Definition dquote : N := 34.
Definition apostrophe : N := 39.

(** A literal in which every apostrophe stands for a double quote, to
    write JSON texts. *)
Definition dq (s : string) : jsstring :=
  map (fun c => if (c =? apostrophe)%N then dquote else c) (lit s).

Fixpoint str_eqb (a b : jsstring) : bool :=
  match a, b with
  | [], [] => true
  | x :: a', y :: b' => N.eqb x y && str_eqb a' b'
  | _, _ => false
  end.

Definition str_length (s : jsstring) : N := N.of_nat (List.length s).

(** [s.substring(0, n)] *)
Definition substring0 (n : N) (s : jsstring) : jsstring := firstn (N.to_nat n) s.

(** ECMAScript LineTerminator and WhiteSpace code points. *)
Definition isLineTerminator (c : N) : bool :=
  (c =? 10)%N || (c =? 13)%N || (c =? 0x2028)%N || (c =? 0x2029)%N.

Definition isWhiteSpace (c : N) : bool :=
  (c =? 9)%N || (c =? 11)%N || (c =? 12)%N || (c =? 32)%N || (c =? 0xA0)%N
  || (c =? 0x1680)%N || ((0x2000 <=? c)%N && (c <=? 0x200A)%N)
  || (c =? 0x202F)%N || (c =? 0x205F)%N || (c =? 0x3000)%N || (c =? 0xFEFF)%N.

Definition isSpace (c : N) : bool := isWhiteSpace c || isLineTerminator c.

Fixpoint trimStart (s : jsstring) : jsstring :=
  match s with
  | c :: s' => if isSpace c then trimStart s' else s
  | [] => []
  end.

Definition trimEnd (s : jsstring) : jsstring := rev (trimStart (rev s)).

(** [String.prototype.trim] *)
Definition trim (s : jsstring) : jsstring := trimEnd (trimStart s).

Definition isUpperAscii (c : N) : bool := (65 <=? c)%N && (c <=? 90)%N.
Definition isLowerAscii (c : N) : bool := (97 <=? c)%N && (c <=? 122)%N.
Definition isDigit (c : N) : bool := (48 <=? c)%N && (c <=? 57)%N.
Definition isAscii (c : N) : bool := (c <? 128)%N.

(** Lower-casing of one code unit.  ASCII capitals map to their small
    letters; U+212A (Kelvin sign) maps to [k] and U+0130 to [i] followed by
    U+0307, the only two code points outside ASCII whose lower-case form
    contains an ASCII letter.  Every other code unit outside ASCII
    lower-cases to code units outside ASCII, and stands for them here: the
    server only compares the result with ASCII literals. *)
Definition lowerUnit (c : N) : jsstring :=
  if isUpperAscii c then [(c + 32)%N]
  else if (c =? 0x212A)%N then [ch "k"]
  else if (c =? 0x130)%N then [ch "i"; 0x307%N]
  else [c].

(** [String.prototype.toLowerCase] *)
Definition toLowerCase (s : jsstring) : jsstring := flat_map lowerUnit s.

(** Decimal digits of a natural number, as [String(n)] prints an index or
    a length. *)
Fixpoint digits_fuel (fuel : nat) (n : N) (acc : jsstring) : jsstring :=
  match fuel with
  | O => acc
  | S f =>
      let acc' := (48 + n mod 10)%N :: acc in
      if (n <? 10)%N then acc' else digits_fuel f (n / 10)%N acc'
  end.

Definition decimal (n : N) : jsstring := digits_fuel (S (N.to_nat (N.log2 n))) n [].

End JsString.
Export JsString.

(* ================================================================== *)
(** ** Numbers *)
(* ================================================================== *)

Module JsNumber.

(** A JavaScript Number: an IEEE 754 binary64 value. *)
Definition number := spec_float.

Definition prec : Z := 53.
Definition emax : Z := 1024.

Definition NaN : number := S754_nan.
Definition ofZ (z : Z) : number := binary_normalize prec emax z 0 false.
Definition ofN (n : N) : number := ofZ (Z.of_N n).

(** The Number nearest to [m * 10^e] (ties to even), as the reader of a
    decimal literal produces it. *)
Definition ofDecimal (neg : bool) (m : N) (e : Z) : number :=
  match m with
  | N0 => S754_zero neg
  | Npos p =>
      match e with
      | Zneg k =>
          let '(q, e', l) :=
            SFdiv_core_binary prec emax (Zpos p) 0 (Zpos (10 ^ k)) 0 in
          binary_round_aux prec emax neg q e' l
      | Z0 => binary_round prec emax neg p 0
      | Zpos k => binary_round prec emax neg (p * 10 ^ k) 0
      end
  end.

(** [x === 0], true of both zeros. *)
Definition isZero (x : number) : bool :=
  match x with S754_zero _ => true | _ => false end.

Definition isNaN (x : number) : bool :=
  match x with S754_nan => true | _ => false end.

(** ToBoolean on a Number. *)
Definition truthy (x : number) : bool := negb (isZero x || isNaN x).

(** *** Number::toString (radix 10)

    A finite non-zero value is [a / b] exactly.  [decimalDigits] finds the
    least number [k] of digits and the [k]-digit integer [s] such that
    [s * 10^(n-k)] reads back as the value, preferring the [s] closest to
    it. *)

Definition fraction (m : positive) (e : Z) : Z * Z :=
  match e with
  | Zneg k => (Zpos m, Zpos (2 ^ k))
  | Z0 => (Zpos m, 1%Z)
  | Zpos k => (Zpos (m * 2 ^ k), 1%Z)
  end.

Fixpoint countDigits (fuel : nat) (z : Z) : Z :=
  match fuel with
  | O => 1%Z
  | S f => if (z <? 10)%Z then 1%Z else (1 + countDigits f (z / 10))%Z
  end.

Fixpoint leadingZeros (fuel : nat) (a b : Z) : Z :=
  match fuel with
  | O => 0%Z
  | S f => if (b <=? a * 10)%Z then 0%Z else (1 + leadingZeros f (a * 10) b)%Z
  end.

(** The integer [n] with [10^(n-1) <= a/b < 10^n]. *)
Definition magnitude10 (a b : Z) : Z :=
  if (b <=? a)%Z then countDigits (S (Z.to_nat (Z.log2 a))) (a / b)
  else (- leadingZeros (S (Z.to_nat (Z.log2 b))) a b)%Z.

(** [floor (a/b / 10^p)] *)
Definition scaledFloor (a b p : Z) : Z :=
  match p with
  | Zneg k => (a * Zpos (10 ^ k) / b)%Z
  | Z0 => (a / b)%Z
  | Zpos k => (a / (b * Zpos (10 ^ k)))%Z
  end.

(** Whether [2 * (a/b)] is below, at or above [t * 10^p]. *)
Definition compareTwice (a b t p : Z) : comparison :=
  match p with
  | Zneg k => (2 * a * Zpos (10 ^ k) ?= t * b)%Z
  | Z0 => (2 * a ?= t * b)%Z
  | Zpos k => (2 * a ?= t * b * Zpos (10 ^ k))%Z
  end.

Definition readsBack (x : number) (s p : Z) : bool :=
  SFeqb (ofDecimal false (Z.to_N s) p) x.

Fixpoint decimalDigits (fuel : nat) (x : number) (a b n k : Z) : Z * Z :=
  let p := (n - k)%Z in
  let lo := scaledFloor a b p in
  let hi := (lo + 1)%Z in
  let pick :=
    match readsBack x lo p, readsBack x hi p with
    | true, true =>
        match compareTwice a b (lo + hi) p with
        | Lt => Some lo
        | Gt => Some hi
        | Eq => Some (if Z.even lo then lo else hi)
        end
    | true, false => Some lo
    | false, true => Some hi
    | false, false => None
    end in
  match pick, fuel with
  | Some s, _ => (s, k)
  | None, O => (lo, k)
  | None, S f => decimalDigits f x a b n (k + 1)
  end.

Definition digitsOfZ (z : Z) : jsstring := decimal (Z.to_N z).

Definition zeros (n : Z) : jsstring := repeat (ch "0") (Z.to_nat n).

Definition exponentPart (n : Z) : jsstring :=
  ch "e" :: (if (1 <=? n)%Z then ch "+" else ch "-") :: digitsOfZ (Z.abs (n - 1)).

Definition formatDigits (digits : jsstring) (n : Z) : jsstring :=
  let k := Z.of_nat (List.length digits) in
  if ((k <=? n) && (n <=? 21))%Z then digits ++ zeros (n - k)
  else if ((0 <? n) && (n <=? 21))%Z then
    firstn (Z.to_nat n) digits ++ ch "." :: skipn (Z.to_nat n) digits
  else if ((-6 <? n) && (n <=? 0))%Z then
    ch "0" :: ch "." :: zeros (- n) ++ digits
  else
    match digits with
    | [d] => d :: exponentPart n
    | d :: rest => d :: ch "." :: rest ++ exponentPart n
    | [] => []
    end.

Definition toStringPos (m : positive) (e : Z) : jsstring :=
  let '(a, b) := fraction m e in
  let n := magnitude10 a b in
  let '(s, k) := decimalDigits 17 (S754_finite false m e) a b n 1 in
  if (s =? 10 ^ k)%Z then formatDigits [ch "1"] (n + 1)
  else formatDigits (digitsOfZ s) n.

Definition toString (x : number) : jsstring :=
  match x with
  | S754_nan => lit "NaN"
  | S754_zero _ => lit "0"
  | S754_infinity false => lit "Infinity"
  | S754_infinity true => lit "-Infinity"
  | S754_finite false m e => toStringPos m e
  | S754_finite true m e => ch "-" :: toStringPos m e
  end.

End JsNumber.

(* ================================================================== *)
(** ** Values, exceptions and property access *)
(* ================================================================== *)

Module JsValue.
Import JsNumber.

Inductive JsVal : Type :=
  | JUndefined
  | JNull
  | JBool (b : bool)
  | JNum (x : number)
  | JStr (s : jsstring)
  | JArr (items : list JsVal)
  | JObj (fields : list (jsstring * JsVal)).

Inductive ErrorKind := PlainError | TypeError | SyntaxError | TransportError.

(** A thrown Error object: its class and its [message]. *)
Record JsError := mkError { err_kind : ErrorKind; err_message : jsstring }.

Definition Error (msg : jsstring) : JsError := mkError PlainError msg.

(** The outcome of a call: a returned value (a fulfilled promise for an
    [async] function) or a thrown exception (a rejected one). *)
Inductive Result (A : Type) : Type :=
  | Ok (a : A)
  | Throw (e : JsError).
Arguments Ok {A} a.
Arguments Throw {A} e.

Definition bind {A B} (r : Result A) (k : A -> Result B) : Result B :=
  match r with
  | Ok a => k a
  | Throw e => Throw e
  end.

(** [try { body } catch (err) { handler }] *)
Definition try_catch {A} (body : Result A) (handler : JsError -> Result A) : Result A :=
  match body with
  | Ok a => Ok a
  | Throw e => handler e
  end.

Definition isOk {A} (r : Result A) : bool :=
  match r with Ok _ => true | Throw _ => false end.

(** Texts of the engine's own TypeErrors are implementation-defined; the
    model fixes one wording per cause. *)
Definition readOfNullish (key : jsstring) : JsError :=
  mkError TypeError (lit "Cannot read properties of null or undefined, reading " ++ key).
Definition notAFunction (key : jsstring) : JsError :=
  mkError TypeError (key ++ lit " is not a function").
Definition notPrimitive : JsError :=
  mkError TypeError (lit "Cannot convert object to primitive value").

(** ToBoolean *)
Definition truthy (v : JsVal) : bool :=
  match v with
  | JUndefined | JNull => false
  | JBool b => b
  | JNum x => JsNumber.truthy x
  | JStr s => match s with [] => false | _ => true end
  | JArr _ | JObj _ => true
  end.

(** [a || b] *)
Definition or_else (a b : JsVal) : JsVal := if truthy a then a else b.

(** The last binding of [key]: a repeated member name of a JSON text
    overwrites the earlier one. *)
Fixpoint lookup (key : jsstring) (fields : list (jsstring * JsVal)) : option JsVal :=
  match fields with
  | [] => None
  | (k, v) :: rest =>
      match lookup key rest with
      | Some v' => Some v'
      | None => if str_eqb k key then Some v else None
      end
  end.

Definition hasOwn (key : jsstring) (fields : list (jsstring * JsVal)) : bool :=
  match lookup key fields with Some _ => true | None => false end.

(** [v.key] for a data property name [key] that none of the built-in
    prototypes defines, except [length], which strings and arrays answer. *)
Definition get (v : JsVal) (key : jsstring) : Result JsVal :=
  match v with
  | JUndefined | JNull => Throw (readOfNullish key)
  | JObj fields =>
      Ok (match lookup key fields with Some x => x | None => JUndefined end)
  | JArr items =>
      Ok (if str_eqb key (lit "length") then JNum (ofN (N.of_nat (List.length items)))
          else JUndefined)
  | JStr s =>
      Ok (if str_eqb key (lit "length") then JNum (ofN (str_length s)) else JUndefined)
  | JBool _ | JNum _ => Ok JUndefined
  end.

(** [v[0]] *)
Definition get0 (v : JsVal) : Result JsVal :=
  match v with
  | JUndefined | JNull => Throw (readOfNullish (lit "0"))
  | JObj fields =>
      Ok (match lookup (lit "0") fields with Some x => x | None => JUndefined end)
  | JArr items => Ok (match items with x :: _ => x | [] => JUndefined end)
  | JStr s => Ok (match s with c :: _ => JStr [c] | [] => JUndefined end)
  | JBool _ | JNum _ => Ok JUndefined
  end.

(** [v?.key] *)
Definition get_opt (v : JsVal) (key : jsstring) : JsVal :=
  match get v key with Ok x => x | Throw _ => JUndefined end.

(** [v.trim()] *)
Definition call_trim (v : JsVal) : Result jsstring :=
  match v with
  | JStr s => Ok (trim s)
  | JUndefined | JNull => Throw (readOfNullish (lit "trim"))
  | _ => Throw (notAFunction (lit "trim"))
  end.

(** [v === 0] *)
Definition isZeroNumber (v : JsVal) : bool :=
  match v with JNum x => JsNumber.isZero x | _ => false end.

(** ToString.  An array joins its elements with commas, [null] and
    [undefined] elements giving the empty string.  An object without an own
    [toString] member prints through [Object.prototype.toString]; with one
    (a JSON value, hence not callable) the conversion falls through to
    [valueOf], finds no primitive and throws. *)
Fixpoint ToString (v : JsVal) : Result jsstring :=
  match v with
  | JUndefined => Ok (lit "undefined")
  | JNull => Ok (lit "null")
  | JBool true => Ok (lit "true")
  | JBool false => Ok (lit "false")
  | JNum x => Ok (JsNumber.toString x)
  | JStr s => Ok s
  | JArr items =>
      (fix join (first : bool) (l : list JsVal) : Result jsstring :=
         match l with
         | [] => Ok []
         | x :: rest =>
             bind (match x with
                   | JUndefined | JNull => Ok []
                   | _ => ToString x
                   end) (fun sx =>
             bind (join false rest) (fun sr =>
             Ok ((if first then [] else [ch ","]) ++ sx ++ sr)))
         end) true items
  | JObj fields =>
      if hasOwn (lit "toString") fields then Throw notPrimitive
      else Ok (lit "[object Object]")
  end.

(** *** parseInt *)

Definition digitValue (radix : N) (c : N) : option N :=
  let d :=
    if isDigit c then Some (c - 48)%N
    else if isLowerAscii c then Some (c - 87)%N
    else if isUpperAscii c then Some (c - 55)%N
    else None in
  match d with
  | Some n => if (n <? radix)%N then Some n else None
  | None => None
  end.

(** The value of the longest prefix of radix digits, or [None] when the
    prefix is empty. *)
Fixpoint digitsPrefix (radix : N) (s : jsstring) (acc : option N) : option N :=
  match s with
  | c :: rest =>
      match digitValue radix c with
      | Some d =>
          digitsPrefix radix rest
            (Some (match acc with Some a => a * radix + d | None => d end)%N)
      | None => acc
      end
  | [] => acc
  end.

(** [parseInt(s)] on a string, no radix given: [None] is NaN, [Some z] the
    integer read.  The integer is kept exact; the engine returns the
    Number nearest to it, which the callers below cannot tell apart: they
    only clamp it to [0, 100] or compare it with 50, and rounding to
    Number is monotone and fixes 0, 50 and 100. *)
Definition parseIntString (s : jsstring) : option Z :=
  let s1 := trimStart s in
  let '(neg, s2) :=
    match s1 with
    | c :: r => if (c =? ch "-")%N then (true, r)
                else if (c =? ch "+")%N then (false, r) else (false, s1)
    | [] => (false, s1)
    end in
  let '(radix, s3) :=
    match s2 with
    | z :: x :: r =>
        if ((z =? ch "0") && ((x =? ch "x") || (x =? ch "X")))%N
        then (16%N, r) else (10%N, s2)
    | _ => (10%N, s2)
    end in
  match digitsPrefix radix s3 None with
  | Some n => Some (if neg then - Z.of_N n else Z.of_N n)%Z
  | None => None
  end.

(** [parseInt(v)] *)
Definition parseInt (v : JsVal) : Result (option Z) :=
  bind (ToString v) (fun s => Ok (parseIntString s)).

End JsValue.

(* ================================================================== *)
(** ** JSON.parse and JSON.stringify *)
(* ================================================================== *)

Module Json.
Import JsNumber JsValue.

Definition isJsonWs (c : N) : bool :=
  (c =? 32)%N || (c =? 9)%N || (c =? 10)%N || (c =? 13)%N.

Fixpoint skipWs (s : jsstring) : jsstring :=
  match s with
  | c :: r => if isJsonWs c then skipWs r else s
  | [] => []
  end.

Definition hex4 (a b c d : N) : option N :=
  match digitValue 16 a, digitValue 16 b, digitValue 16 c, digitValue 16 d with
  | Some x, Some y, Some z, Some w => Some (((x * 16 + y) * 16 + z) * 16 + w)%N
  | _, _, _, _ => None
  end.

Definition escapeChar (e : N) : option N :=
  if (e =? dquote)%N then Some (dquote)
  else if (e =? ch "\")%N then Some (ch "\")
  else if (e =? ch "/")%N then Some (ch "/")
  else if (e =? ch "b")%N then Some 8%N
  else if (e =? ch "f")%N then Some 12%N
  else if (e =? ch "n")%N then Some 10%N
  else if (e =? ch "r")%N then Some 13%N
  else if (e =? ch "t")%N then Some 9%N
  else None.

(** The characters of a string literal after its opening quote, up to the
    closing one; [acc] holds the decoded code units, last first. *)
Fixpoint parseChars (s acc : jsstring) : option (jsstring * jsstring) :=
  match s with
  | [] => None
  | c :: r =>
      if (c =? dquote)%N then Some (rev acc, r)
      else if (c =? ch "\")%N then
        match r with
        | [] => None
        | e :: r1 =>
            if (e =? ch "u")%N then
              match r1 with
              | h1 :: h2 :: h3 :: h4 :: r2 =>
                  match hex4 h1 h2 h3 h4 with
                  | Some u => parseChars r2 (u :: acc)
                  | None => None
                  end
              | _ => None
              end
            else
              match escapeChar e with
              | Some u => parseChars r1 (u :: acc)
              | None => None
              end
        end
      else if (c <? 32)%N then None
      else parseChars r (c :: acc)
  end.

Definition parseString (s : jsstring) : option (jsstring * jsstring) :=
  match s with
  | c :: r => if (c =? dquote)%N then parseChars r [] else None
  | [] => None
  end.

(** A maximal run of decimal digits: its value, its length, the rest. *)
Fixpoint parseDigits (s : jsstring) (acc : N) (len : nat) : N * nat * jsstring :=
  match s with
  | c :: r => if isDigit c then parseDigits r (acc * 10 + (c - 48))%N (S len)
              else (acc, len, s)
  | [] => (acc, len, s)
  end.

(** A JSON number: an optional minus sign, an integer part without
    superfluous leading zero, an optional fraction, an optional exponent. *)
Definition parseNumber (s : jsstring) : option (number * jsstring) :=
  let '(neg, s1) :=
    match s with
    | c :: r => if (c =? ch "-")%N then (true, r) else (false, s)
    | [] => (false, s)
    end in
  let int :=
    match s1 with
    | c :: r =>
        if (c =? ch "0")%N then Some (0%N, r)
        else if isDigit c then
          let '(m, _, r') := parseDigits s1 0 0 in Some (m, r')
        else None
    | [] => None
    end in
  match int with
  | None => None
  | Some (m, s2) =>
      let frac :=
        match s2 with
        | c :: r =>
            if (c =? ch ".")%N then
              match parseDigits r m 0 with
              | (_, O, _) => None
              | (m', len, r') => Some (m', Z.of_nat len, r')
              end
            else Some (m, 0%Z, s2)
        | [] => Some (m, 0%Z, s2)
        end in
      match frac with
      | None => None
      | Some (m', scale, s3) =>
          let exp :=
            match s3 with
            | c :: r =>
                if ((c =? ch "e") || (c =? ch "E"))%N then
                  let '(eneg, r1) :=
                    match r with
                    | sg :: r0 =>
                        if (sg =? ch "-")%N then (true, r0)
                        else if (sg =? ch "+")%N then (false, r0)
                        else (false, r)
                    | [] => (false, r)
                    end in
                  match parseDigits r1 0 0 with
                  | (_, O, _) => None
                  | (e, _, r') =>
                      Some ((if eneg then - Z.of_N e else Z.of_N e)%Z, r')
                  end
                else Some (0%Z, s3)
            | [] => Some (0%Z, s3)
            end in
          match exp with
          | None => None
          | Some (e, s4) => Some (ofDecimal neg m' (e - scale), s4)
          end
      end
  end.

Fixpoint dropPrefix (p s : jsstring) : option jsstring :=
  match p, s with
  | [], _ => Some s
  | x :: p', y :: s' => if (x =? y)%N then dropPrefix p' s' else None
  | _ :: _, [] => None
  end.

(** Recursive descent over the JSON grammar.  Every call spends one unit
    of [fuel]; [JSON_parse] gives more than any text can use. *)
Fixpoint parseValue (fuel : nat) (s : jsstring) : option (JsVal * jsstring) :=
  match fuel with
  | O => None
  | S f =>
      match skipWs s with
      | [] => None
      | c :: r =>
          if (c =? ch "[")%N then
            match skipWs r with
            | c' :: r' =>
                if (c' =? ch "]")%N then Some (JArr [], r')
                else
                  match parseElements f r with
                  | Some (items, rest) => Some (JArr items, rest)
                  | None => None
                  end
            | [] => None
            end
          else if (c =? ch "{")%N then
            match skipWs r with
            | c' :: r' =>
                if (c' =? ch "}")%N then Some (JObj [], r')
                else
                  match parseMembers f r with
                  | Some (fields, rest) => Some (JObj fields, rest)
                  | None => None
                  end
            | [] => None
            end
          else if (c =? dquote)%N then
            match parseChars r [] with
            | Some (str, rest) => Some (JStr str, rest)
            | None => None
            end
          else if (c =? ch "t")%N then
            match dropPrefix (lit "rue") r with
            | Some rest => Some (JBool true, rest)
            | None => None
            end
          else if (c =? ch "f")%N then
            match dropPrefix (lit "alse") r with
            | Some rest => Some (JBool false, rest)
            | None => None
            end
          else if (c =? ch "n")%N then
            match dropPrefix (lit "ull") r with
            | Some rest => Some (JNull, rest)
            | None => None
            end
          else
            match parseNumber (c :: r) with
            | Some (x, rest) => Some (JNum x, rest)
            | None => None
            end
      end
  end

(** One or more values separated by commas, then the closing bracket. *)
with parseElements (fuel : nat) (s : jsstring) : option (list JsVal * jsstring) :=
  match fuel with
  | O => None
  | S f =>
      match parseValue f s with
      | None => None
      | Some (v, rest) =>
          match skipWs rest with
          | c :: r =>
              if (c =? ch "]")%N then Some ([v], r)
              else if (c =? ch ",")%N then
                match parseElements f r with
                | Some (vs, rest') => Some (v :: vs, rest')
                | None => None
                end
              else None
          | [] => None
          end
      end
  end

(** One or more [string : value] members separated by commas, then the
    closing brace. *)
with parseMembers (fuel : nat) (s : jsstring)
  : option (list (jsstring * JsVal) * jsstring) :=
  match fuel with
  | O => None
  | S f =>
      match parseString (skipWs s) with
      | None => None
      | Some (key, rest) =>
          match skipWs rest with
          | c :: r =>
              if (c =? ch ":")%N then
                match parseValue f r with
                | None => None
                | Some (v, rest1) =>
                    match skipWs rest1 with
                    | c' :: r' =>
                        if (c' =? ch "}")%N then Some ([(key, v)], r')
                        else if (c' =? ch ",")%N then
                          match parseMembers f r' with
                          | Some (ms, rest') => Some ((key, v) :: ms, rest')
                          | None => None
                          end
                        else None
                    | [] => None
                    end
                end
              else None
          | [] => None
          end
      end
  end.

Definition parseFuel (s : jsstring) : nat := 2 * List.length s + 2.

Definition syntaxError : JsError :=
  mkError SyntaxError (lit "Unexpected token in JSON").

(** [JSON.parse(text)] *)
Definition JSON_parse (text : jsstring) : Result JsVal :=
  match parseValue (parseFuel text) text with
  | Some (v, rest) =>
      match skipWs rest with
      | [] => Ok v
      | _ :: _ => Throw syntaxError
      end
  | None => Throw syntaxError
  end.

(** *** JSON.stringify on an array of strings *)

Definition hexDigit (n : N) : N := if (n <? 10)%N then (48 + n)%N else (87 + n)%N.

Definition unicodeEscape (c : N) : jsstring :=
  [ch "\"; ch "u"; hexDigit (c / 4096 mod 16); hexDigit (c / 256 mod 16);
   hexDigit (c / 16 mod 16); hexDigit (c mod 16)]%N.

Definition isLeadSurrogate (c : N) : bool := (0xD800 <=? c)%N && (c <=? 0xDBFF)%N.
Definition isTrailSurrogate (c : N) : bool := (0xDC00 <=? c)%N && (c <=? 0xDFFF)%N.

Definition quoteUnit (c : N) : jsstring :=
  if (c =? 8)%N then lit "\b"
  else if (c =? 9)%N then lit "\t"
  else if (c =? 10)%N then lit "\n"
  else if (c =? 12)%N then lit "\f"
  else if (c =? 13)%N then lit "\r"
  else if (c =? dquote)%N then [ch "\"; dquote]
  else if (c =? ch "\")%N then [ch "\"; ch "\"]
  else if (c <? 32)%N then unicodeEscape c
  else [c].

Fixpoint quoteUnits (s : jsstring) : jsstring :=
  match s with
  | [] => []
  | c :: r =>
      if isLeadSurrogate c then
        match r with
        | d :: r' =>
            if isTrailSurrogate d then c :: d :: quoteUnits r'
            else unicodeEscape c ++ quoteUnits r
        | [] => unicodeEscape c
        end
      else if isTrailSurrogate c then unicodeEscape c ++ quoteUnits r
      else quoteUnit c ++ quoteUnits r
  end.

Definition quote (s : jsstring) : jsstring := dquote :: quoteUnits s ++ [dquote].

Fixpoint joinWith (sep : jsstring) (l : list jsstring) : jsstring :=
  match l with
  | [] => []
  | [x] => x
  | x :: rest => x ++ sep ++ joinWith sep rest
  end.

(** [JSON.stringify(strings)] *)
Definition JSON_stringify_strings (l : list jsstring) : jsstring :=
  ch "[" :: joinWith [ch ","] (map quote l) ++ [ch "]"].

End Json.

(* ================================================================== *)
(** ** Regular expressions *)
(* ================================================================== *)

Module Regex.

(** The fragment of the pattern language that server.js uses.  [Star] and
    [Opt] are the greedy quantifiers; [Star] iterates a one-unit class. *)
Inductive regex : Type :=
  | Eps
  | Bol
  | Class (p : N -> bool)
  | Seq (r1 r2 : regex)
  | Alt (r1 r2 : regex)
  | Opt (r : regex)
  | Star (p : N -> bool)
  | Group (n : nat) (r : regex).

(** A position of the matcher: the input still ahead, the index reached,
    the captures made so far (latest first). *)
Record mstate := mkState {
  ahead : jsstring;
  index : nat;
  captures : list (nat * jsstring)
}.

Definition cont := mstate -> option mstate.

(** Greedy iteration: one more unit first, the continuation on failure. *)
Fixpoint star (p : N -> bool) (s : jsstring) (i : nat)
    (caps : list (nat * jsstring)) (k : cont) : option mstate :=
  match s with
  | c :: s' =>
      if p c then
        match star p s' (S i) caps k with
        | Some st => Some st
        | None => k (mkState s i caps)
        end
      else k (mkState s i caps)
  | [] => k (mkState [] i caps)
  end.

(** Backtracking matcher in continuation-passing style: the alternatives
    are tried in the order the language prescribes and the first complete
    match wins. *)
Fixpoint run (r : regex) (st : mstate) (k : cont) : option mstate :=
  match r with
  | Eps => k st
  | Bol => match index st with O => k st | S _ => None end
  | Class p =>
      match ahead st with
      | c :: s' => if p c then k (mkState s' (S (index st)) (captures st)) else None
      | [] => None
      end
  | Seq r1 r2 => run r1 st (fun st' => run r2 st' k)
  | Alt r1 r2 =>
      match run r1 st k with
      | Some st' => Some st'
      | None => run r2 st k
      end
  | Opt r1 =>
      match run r1 st k with
      | Some st' => Some st'
      | None => k st
      end
  | Star p => star p (ahead st) (index st) (captures st) k
  | Group n r1 =>
      run r1 st (fun st' =>
        k (mkState (ahead st') (index st')
             ((n, firstn (index st' - index st) (ahead st)) :: captures st')))
  end.

(** A match attempted at one start position. *)
Definition matchAt (r : regex) (s : jsstring) (i : nat) : option mstate :=
  run r (mkState s i []) Some.

Record MatchResult := mkMatch {
  match_index : nat;
  match_text : jsstring;                 (* match[0] *)
  match_groups : list (nat * jsstring)
}.

Fixpoint searchFrom (r : regex) (s : jsstring) (i : nat) : option MatchResult :=
  match matchAt r s i with
  | Some st => Some (mkMatch i (firstn (index st - i) s) (captures st))
  | None =>
      match s with
      | [] => None
      | _ :: s' => searchFrom r s' (S i)
      end
  end.

(** [s.match(r)] for a pattern without the [g] flag: the leftmost match. *)
Definition exec (r : regex) (s : jsstring) : option MatchResult := searchFrom r s 0.

(** [match[n]] of a group that took part in the match. *)
Fixpoint group (n : nat) (caps : list (nat * jsstring)) : option jsstring :=
  match caps with
  | [] => None
  | (m, text) :: rest => if Nat.eqb m n then Some text else group n rest
  end.

(** [s.replace(r, by)] for a pattern with the [g] flag: [skip] counts the
    units of the current match still to drop. *)
Fixpoint replaceFrom (r : regex) (by_ : jsstring) (s : jsstring) (i skip : nat)
  : jsstring :=
  match s with
  | [] =>
      match skip, matchAt r [] i with
      | O, Some _ => by_
      | _, _ => []
      end
  | c :: s' =>
      match skip with
      | S n => replaceFrom r by_ s' (S i) n
      | O =>
          match matchAt r s i with
          | Some st =>
              match index st - i with
              | O => by_ ++ c :: replaceFrom r by_ s' (S i) 0
              | S n => by_ ++ replaceFrom r by_ s' (S i) n
              end
          | None => c :: replaceFrom r by_ s' (S i) 0
          end
      end
  end.

Definition replaceAll (r : regex) (by_ : jsstring) (s : jsstring) : jsstring :=
  replaceFrom r by_ s 0 0.

(** *** Pattern atoms *)

Definition chr (a : ascii) : regex := Class (N.eqb (ch a)).

(** Upper-casing as case-insensitive matching canonicalises: a unit
    outside ASCII never becomes an ASCII one. *)
Definition canonicalize (c : N) : N := if isLowerAscii c then (c - 32)%N else c.

(** A literal unit under the [i] flag. *)
Definition chr_i (a : ascii) : regex :=
  Class (fun c => N.eqb (canonicalize c) (canonicalize (ch a))).

(** [.] *)
Definition dot : N -> bool := fun c => negb (isLineTerminator c).
(** [[\s\S]] *)
Definition any : N -> bool := fun _ => true.
(** [\w] *)
Definition word : N -> bool :=
  fun c => isUpperAscii c || isLowerAscii c || isDigit c || (c =? ch "_")%N.

Fixpoint seq (rs : list regex) : regex :=
  match rs with
  | [] => Eps
  | [r] => r
  | r :: rest => Seq r (seq rest)
  end.

Definition text (s : string) : regex := seq (map chr (list_ascii_of_string s)).
Definition text_i (s : string) : regex := seq (map chr_i (list_ascii_of_string s)).

End Regex.

(* ================================================================== *)
(** ** server.js *)
(* ================================================================== *)

Module Server.
Import JsNumber JsValue Json Regex.

(** The keys read from [process.env] at start-up; an unset one is
    [undefined]. *)
Record Env := mkEnv {
  GROQ_API_KEY : option jsstring;
  GEMINI_API_KEY : option jsstring;
  YOUTUBE_API_KEY : option jsstring
}.

Definition keyValue (key : option jsstring) : JsVal :=
  match key with Some s => JStr s | None => JUndefined end.

(** [`${key}`] *)
Definition keyText (key : option jsstring) : jsstring :=
  match key with Some s => s | None => lit "undefined" end.

(** The services behind axios.  A call answers with [response.data], or
    rejects.  No helper below asks the same service twice. *)
Record World := mkWorld {
  axios_get : jsstring -> Result JsVal;
  axios_post : jsstring -> JsVal -> JsVal -> Result JsVal
}.

Definition GROQ_API_URL : jsstring :=
  lit "https://api.groq.com/openai/v1/chat/completions".
Definition GROQ_MODEL : jsstring := lit "meta-llama/llama-4-scout-17b-16e-instruct".

Definition nl : jsstring := [10%N].

(** *** extractVideoId *)

Definition notSeparator : N -> bool :=
  fun c => negb ((c =? ch "#")%N || (c =? ch "&")%N || (c =? ch "?")%N).

(** Groups 2 to 6: [youtu.be/] (its dot matches any unit of the line),
    [v/], [/u/] followed by a word unit and a slash, [embed/], [watch?]. *)
Definition marker : regex :=
  Alt (Group 2 (seq [text "youtu"; Class dot; text "be/"]))
 (Alt (Group 3 (text "v/"))
 (Alt (Group 4 (seq [text "/u/"; Class word; chr "/"]))
 (Alt (Group 5 (text "embed/"))
      (Group 6 (text "watch?"))))).

(** The pattern [regExp] of the source: the start of the input, a greedy
    run of units that are not line terminators, group 1 with one of the
    markers above, an optional [?], an optional [v], an optional [=],
    group 7 with the longest run free of [#], [&] and [?], and the rest of
    the line. *)
Definition regExp : regex :=
  seq [Bol; Star dot; Group 1 marker;
       Opt (chr "?"); Opt (chr "v"); Opt (chr "=");
       Group 7 (Star notSeparator); Star dot].

(** [None] is [null]. *)
Definition extractVideoId (url : jsstring) : option jsstring :=
  match exec regExp url with
  | Some m =>
      match group 7 (match_groups m) with
      | Some id => if (str_length id =? 11)%N then Some id else None
      | None => None
      end
  | None => None
  end.

(** *** getYouTubeVideoData *)

Record VideoData := mkVideoData {
  title : JsVal;
  description : JsVal;
  channelTitle : JsVal;
  publishedAt : JsVal;
  thumbnail : JsVal
}.

Definition videoNotFound : JsError := Error (lit "Video not found").

Definition getYouTubeVideoData (env : Env) (w : World) (videoId : jsstring)
  : Result VideoData :=
  bind (axios_get w
          (lit "https://www.googleapis.com/youtube/v3/videos?part=snippet&id="
           ++ videoId ++ lit "&key=" ++ keyText (YOUTUBE_API_KEY env)))
    (fun data =>
  bind (get data (lit "items")) (fun items =>
  if negb (truthy items) then Throw videoNotFound else
  bind (get items (lit "length")) (fun len =>
  if isZeroNumber len then Throw videoNotFound else
  bind (get0 items) (fun item =>
  bind (get item (lit "snippet")) (fun snippet =>
  bind (get snippet (lit "title")) (fun title =>
  bind (get snippet (lit "description")) (fun description =>
  bind (get snippet (lit "channelTitle")) (fun channelTitle =>
  bind (get snippet (lit "publishedAt")) (fun publishedAt =>
  bind (get snippet (lit "thumbnails")) (fun thumbnails =>
  bind (get thumbnails (lit "default")) (fun default =>
  bind (get default (lit "url")) (fun url =>
  Ok (mkVideoData title description channelTitle publishedAt url))))))))))))).

(** *** getTranscript *)

Definition transcriptNotAvailable : JsError := Error (lit "Transcript not available").

Definition transcriptUrl (videoId : jsstring) : jsstring :=
  lit "https://youtube-transcriptor.vercel.app/transcript?videoId=" ++ videoId.

(** The [try] block: the transcript endpoint. *)
Definition primaryTranscript (w : World) (videoId : jsstring) : Result JsVal :=
  bind (axios_get w (transcriptUrl videoId)) (fun data =>
  if truthy data then
    bind (get data (lit "transcript")) (fun transcript =>
    if truthy transcript then Ok transcript else Throw transcriptNotAvailable)
  else Throw transcriptNotAvailable).

Definition getTranscript (env : Env) (w : World) (videoId : jsstring) : Result JsVal :=
  try_catch (primaryTranscript w videoId)
    (fun _ =>
       bind (getYouTubeVideoData env w videoId) (fun videoData =>
       Ok (or_else (description videoData) (JStr (lit "No transcript available."))))).

(** *** callGroq, callGemini, callLLM *)

Record Message := mkMessage { role : jsstring; content : jsstring }.

Definition messageValue (m : Message) : JsVal :=
  JObj [(lit "role", JStr (role m)); (lit "content", JStr (content m))].

Definition callGroq (env : Env) (w : World) (messages : list Message) (max_tokens : N)
  : Result jsstring :=
  bind (axios_post w GROQ_API_URL
          (JObj [(lit "model", JStr GROQ_MODEL);
                 (lit "messages", JArr (map messageValue messages));
                 (lit "max_tokens", JNum (ofN max_tokens))])
          (JObj [(lit "headers",
                  JObj [(lit "Authorization",
                         JStr (lit "Bearer " ++ keyText (GROQ_API_KEY env)));
                        (lit "Content-Type", JStr (lit "application/json"))])]))
    (fun data =>
  bind (get data (lit "choices")) (fun choices =>
  bind (get0 choices) (fun choice =>
  bind (get choice (lit "message")) (fun message =>
  bind (get message (lit "content")) (fun text =>
  call_trim text))))).

Definition GEMINI_API_URL : jsstring :=
  lit "https://generativelanguage.googleapis.com/v1beta/models/gemini-1.5-flash:generateContent".

Definition noCandidates : JsError := Error (lit "No candidates returned from Gemini API").
Definition noContentParts : JsError := Error (lit "No content parts in Gemini response").

(** The [try] block of callGemini. *)
Definition geminiRequest (env : Env) (w : World) (messages : list Message)
  : Result jsstring :=
  let prompt := joinWith (nl ++ nl) (map content messages) in
  bind (axios_post w GEMINI_API_URL
          (JObj [(lit "contents",
                  JArr [JObj [(lit "parts", JArr [JObj [(lit "text", JStr prompt)]])]]);
                 (lit "generationConfig",
                  JObj [(lit "temperature", JNum (ofDecimal false 1 (-1)));
                        (lit "maxOutputTokens", JNum (ofN 2000))])])
          (JObj [(lit "headers",
                  JObj [(lit "Content-Type", JStr (lit "application/json"));
                        (lit "X-goog-api-key", keyValue (GEMINI_API_KEY env))])]))
    (fun data =>
  let candidates := get_opt data (lit "candidates") in
  if negb (truthy candidates) then Throw noCandidates else
  bind (get candidates (lit "length")) (fun n =>
  if isZeroNumber n then Throw noCandidates else
  bind (get0 candidates) (fun candidate =>
  let content := get_opt candidate (lit "content") in
  if negb (truthy content) then Throw noContentParts else
  bind (get content (lit "parts")) (fun parts =>
  if negb (truthy parts) then Throw noContentParts else
  bind (get parts (lit "length")) (fun m =>
  if isZeroNumber m then Throw noContentParts else
  bind (get0 parts) (fun part =>
  bind (get part (lit "text")) (fun text =>
  call_trim text))))))).

Definition callGemini (env : Env) (w : World) (messages : list Message)
  : Result jsstring :=
  try_catch (geminiRequest env w messages)
    (fun err => Throw (Error (lit "Gemini API call failed: " ++ err_message err))).

(** The label that [switch (provider.toLowerCase())] jumps to. *)
Inductive ProviderCase := CaseGroq | CaseGemini | CaseDefault.

Definition providerCase (provider : jsstring) : ProviderCase :=
  let name := toLowerCase provider in
  if str_eqb name (lit "groq") then CaseGroq
  else if str_eqb name (lit "gemini") then CaseGemini
  else CaseDefault.

Definition unknownProvider (provider : jsstring) : JsError :=
  Error (lit "Unknown provider: " ++ provider).

Definition callLLM (env : Env) (w : World) (provider : jsstring)
    (messages : list Message) (max_tokens : N) : Result jsstring :=
  match providerCase provider with
  | CaseGroq => callGroq env w messages max_tokens
  | CaseGemini => callGemini env w messages
  | CaseDefault => Throw (unknownProvider provider)
  end.

(** *** extractJson *)

(** The two fence patterns: three backticks followed by [json] in any
    case, and three backticks. *)
Definition jsonFence : regex := text_i "```json".
Definition fence : regex := text "```".

(** An opening brace, any units, a closing brace; or the same with
    square brackets. *)
Definition bracketed : regex :=
  Alt (seq [chr "{"; Star any; chr "}"]) (seq [chr "["; Star any; chr "]"]).

Definition cleanFences (responseText : jsstring) : jsstring :=
  trim (replaceAll fence [] (replaceAll jsonFence [] responseText)).

Definition extractJson (responseText : jsstring) : JsVal :=
  match responseText with
  | [] => JArr []
  | _ :: _ =>
      let cleaned := cleanFences responseText in
      match cleaned with
      | [] => JArr []
      | _ :: _ =>
          match JSON_parse cleaned with
          | Ok v => v
          | Throw _ =>
              match exec bracketed cleaned with
              | Some m =>
                  match JSON_parse (match_text m) with
                  | Ok v => v
                  | Throw _ => JArr []
                  end
              | None => JArr []
              end
          end
      end
  end.

(** *** analyzeCoverage *)

Record CoverageItem := mkItem {
  subtopic : JsVal;
  coverageScore : Z;
  covered : bool;
  evidence : JsVal
}.

(** The value of [Math.round(total / count)] for integers [total] and
    [count], both non-negative. *)
Inductive Rounded := RoundedNaN | RoundedInfinity | RoundedInt (z : Z).

Record CoverageReport := mkReport {
  overallScore : Rounded;
  subtopicAnalysis : list CoverageItem;
  summary : jsstring
}.

(** [parseInt(v) || 0] *)
Definition parseIntOrZero (v : JsVal) : Result Z :=
  bind (parseInt v) (fun n => Ok (match n with Some z => z | None => 0%Z end)).

(** The callback of [subtopicAnalysis.map]. *)
Definition normalizeItem (item : JsVal) : Result CoverageItem :=
  bind (get item (lit "subtopic")) (fun sub =>
  bind (get item (lit "coverageScore")) (fun raw =>
  bind (parseIntOrZero raw) (fun n =>
  bind (get item (lit "coverageScore")) (fun raw' =>
  bind (parseIntOrZero raw') (fun n' =>
  bind (get item (lit "evidence")) (fun ev =>
  Ok (mkItem sub
        (Z.min (Z.max n 0) 100)
        (50 <=? n')%Z
        (or_else ev (JStr (lit "No evidence provided.")))))))))).

Fixpoint mapItems (items : list JsVal) : Result (list CoverageItem) :=
  match items with
  | [] => Ok []
  | item :: rest =>
      bind (normalizeItem item) (fun x =>
      bind (mapItems rest) (fun xs => Ok (x :: xs)))
  end.

(** [v.map(callback)]: only an array has the method. *)
Definition mapValue (v : JsVal) : Result (list CoverageItem) :=
  match v with
  | JArr items => mapItems items
  | JUndefined | JNull => Throw (readOfNullish (lit "map"))
  | _ => Throw (notAFunction (lit "subtopicAnalysis.map"))
  end.

(** [normalized.reduce((sum, s) => sum + s.coverageScore, 0)] *)
Definition totalScore (normalized : list CoverageItem) : Z :=
  fold_left (fun sum s => (sum + coverageScore s)%Z) normalized 0%Z.

(** [Math.round(total / count)].  The quotient is taken exactly: for an
    array (fewer than 2^32 items) of scores between 0 and 100 the binary64
    quotient lies on the same side of every half-integer as the exact one.
    Zero divided by zero is NaN, and NaN rounds to NaN. *)
Definition roundQuotient (total count : Z) : Rounded :=
  if (count =? 0)%Z then
    if (total =? 0)%Z then RoundedNaN else RoundedInfinity
  else RoundedInt ((2 * total + count) / (2 * count)).

Definition truncationLimit : N := 10000.

Definition truncateTranscript (transcript : jsstring) : jsstring :=
  if (truncationLimit <? str_length transcript)%N
  then substring0 truncationLimit transcript ++ lit "... [truncated]"
  else transcript.

Definition buildPrompt (transcript : jsstring) (subtopics : list jsstring) : jsstring :=
  lit "You are an educational content analyst." ++ nl
  ++ lit "For each subtopic, analyze the transcript and return ONLY valid JSON in this format:" ++ nl
  ++ lit "[" ++ nl
  ++ dq "  { 'subtopic': '<name>', 'coverageScore': <0-100>, 'evidence': '<1-2 sentences>' }" ++ nl
  ++ lit "]" ++ nl
  ++ nl
  ++ dq "Transcript: '''" ++ truncateTranscript transcript ++ dq "'''" ++ nl
  ++ lit "Subtopics: " ++ JSON_stringify_strings subtopics.

Definition buildMessages (transcript : jsstring) (subtopics : list jsstring)
  : list Message :=
  [mkMessage (lit "system")
     (lit "You are an educational content analyst. Only output valid JSON.");
   mkMessage (lit "user") (buildPrompt transcript subtopics)].

(** The [try] block. *)
Definition analysis (env : Env) (w : World) (transcript : jsstring)
    (subtopics : list jsstring) (provider : jsstring) : Result CoverageReport :=
  bind (callLLM env w provider (buildMessages transcript subtopics) 2000)
    (fun responseText =>
  let subtopicAnalysis := extractJson responseText in
  bind (mapValue subtopicAnalysis) (fun normalized =>
  let overallScore :=
    roundQuotient (totalScore normalized) (Z.of_nat (List.length normalized)) in
  Ok (mkReport overallScore normalized
        (lit "Overall coverage based on " ++ decimal (N.of_nat (List.length subtopics))
         ++ lit " subtopics using " ++ provider ++ lit ".")))).

Definition failedItem (sub : jsstring) : CoverageItem :=
  mkItem (JStr sub) 0 false (JStr (lit "Failed to generate coverage analysis.")).

(** The [catch] block. *)
Definition failureReport (subtopics : list jsstring) (provider : jsstring)
  : CoverageReport :=
  mkReport (RoundedInt 0) (map failedItem subtopics)
    (lit "Failed to generate coverage analysis using " ++ provider ++ lit ".").

Definition analyzeCoverage (env : Env) (w : World) (transcript : jsstring)
    (subtopics : list jsstring) (provider : jsstring) : Result CoverageReport :=
  try_catch (analysis env w transcript subtopics provider)
    (fun _ => Ok (failureReport subtopics provider)).

End Server.

(* ================================================================== *)
(** ** server.js: the route POST /api/analyze *)
(* ================================================================== *)

Module Routes.
Import JsNumber JsValue Json Regex Server.

(** [`https://www.youtube.com/watch?v=${videoId}`] *)
Definition watchUrl (videoId : jsstring) : jsstring :=
  lit "https://www.youtube.com/watch?v=" ++ videoId.

(** The member [videoInfo] of the answer. *)
Inductive VideoInfo :=
  | mkVideoInfo (videoId : jsstring) (title channelTitle publishedAt thumbnail : JsVal)
      (youtubeUrl : jsstring).

(** What [res.json] is given: the answer of a completed analysis (its
    member [success] is always [true]) or an error object.  The members
    [details] and [stack] are absent from the 400 answers; [stack] stands
    for [err.stack] and holds the exception itself. *)
Inductive Payload :=
  | Success (provider : JsVal) (videoInfo : VideoInfo) (transcript : jsstring)
      (subtopics : JsVal) (analysis : CoverageReport)
  | Failure (error : jsstring) (details : option jsstring) (stack : option JsError).

Record Response := mkResponse { status : N; json : Payload }.

(** [extractVideoId(youtubeUrl)] for a member of the body, which any JSON
    value can be: only a string has the method [match]. *)
Definition extractVideoIdOf (youtubeUrl : JsVal) : Result (option jsstring) :=
  match youtubeUrl with
  | JStr url => Ok (extractVideoId url)
  | JUndefined | JNull => Throw (readOfNullish (lit "match"))
  | _ => Throw (notAFunction (lit "url.match"))
  end.

Fixpoint strings (items : list JsVal) : option (list jsstring) :=
  match items with
  | [] => Some []
  | JStr s :: rest =>
      match strings rest with
      | Some l => Some (s :: l)
      | None => None
      end
  | _ :: _ => None
  end.

(** [analyzeCoverage(transcript, customSubtopics, provider)] as the route
    calls it.  The function is modelled for a string, an array of strings
    and a string; [beyond] is its outcome for arguments of other types,
    which this development leaves open. *)
Definition analyzeCoverageOf (env : Env) (w : World)
    (beyond : JsVal -> JsVal -> JsVal -> Result CoverageReport)
    (transcript customSubtopics provider : JsVal) : Result CoverageReport :=
  match transcript, customSubtopics, provider with
  | JStr t, JArr items, JStr p =>
      match strings items with
      | Some subtopics => analyzeCoverage env w t subtopics p
      | None => beyond transcript customSubtopics provider
      end
  | _, _, _ => beyond transcript customSubtopics provider
  end.

(** [transcript.substring(0, 500) + (transcript.length > 500 ? '...' : '')] *)
Definition preview (transcript : JsVal) : Result jsstring :=
  match transcript with
  | JStr t =>
      Ok (substring0 500 t ++ (if (500 <? str_length t)%N then lit "..." else []))
  | JUndefined | JNull => Throw (readOfNullish (lit "substring"))
  | _ => Throw (notAFunction (lit "transcript.substring"))
  end.

Definition required : jsstring :=
  lit "YouTube URL, topic, and at least one subtopic are required.".
Definition invalidUrl : jsstring := lit "Invalid YouTube URL.".
Definition checkKeys : jsstring := lit "Please check API keys and try again.".

(** The [try] block of the route.  The videos endpoint can be asked
    twice, by the route itself and then by getTranscript when it falls
    back: [w] answers the route's own call, [w'] the calls made after it. *)
Definition respond (env : Env) (w w' : World)
    (beyond : JsVal -> JsVal -> JsVal -> Result CoverageReport)
    (body : JsVal) : Result Response :=
  bind (get body (lit "youtubeUrl")) (fun youtubeUrl =>
  bind (get body (lit "topic")) (fun topic =>
  bind (get body (lit "customSubtopics")) (fun customSubtopics =>
  bind (get body (lit "provider")) (fun given =>
  let provider := match given with JUndefined => JStr (lit "groq") | _ => given end in
  if negb (truthy youtubeUrl) || negb (truthy topic)
     || negb (truthy (get_opt customSubtopics (lit "length")))
  then Ok (mkResponse 400 (Failure required None None))
  else
    bind (extractVideoIdOf youtubeUrl) (fun found =>
    match found with
    | None => Ok (mkResponse 400 (Failure invalidUrl None None))
    | Some videoId =>
        bind (getYouTubeVideoData env w videoId) (fun videoData =>
        bind (getTranscript env w' videoId) (fun transcript =>
        bind (analyzeCoverageOf env w' beyond transcript customSubtopics provider)
          (fun analysis =>
        bind (preview transcript) (fun shown =>
        Ok (mkResponse 200
              (Success provider
                 (mkVideoInfo videoId (Server.title videoData)
                    (Server.channelTitle videoData) (Server.publishedAt videoData)
                    (Server.thumbnail videoData) (watchUrl videoId))
                 shown customSubtopics analysis))))))
    end))))).

(** [process.env.NODE_ENV === 'development'] *)
Definition isDevelopment (NODE_ENV : option jsstring) : bool :=
  match NODE_ENV with
  | Some s => str_eqb s (lit "development")
  | None => false
  end.

(** The handler of POST /api/analyze on [req.body], the request body as
    express.json() has parsed it.  The middleware runs before the
    handler and answers by itself a request whose body it does not
    accept; those answers are not modelled. *)
Definition analyze (env : Env) (NODE_ENV : option jsstring) (w w' : World)
    (beyond : JsVal -> JsVal -> JsVal -> Result CoverageReport)
    (body : JsVal) : Response :=
  match respond env w w' beyond body with
  | Ok response => response
  | Throw err =>
      mkResponse 500
        (Failure (err_message err) (Some checkKeys)
           (if isDevelopment NODE_ENV then Some err else None))
  end.

End Routes.

(* ================================================================== *)
(** ** The form of the frontend (src/frontend/src/App.js) *)
(* ================================================================== *)

Module App.
Import JsNumber JsValue Json Server.

(** The first segment of [s] and the segments after it, [s] being cut at
    every unit [sep]. *)
Fixpoint segments (sep : N) (s : jsstring) : jsstring * list jsstring :=
  match s with
  | [] => ([], [])
  | c :: s' =>
      let '(line, lines) := segments sep s' in
      if (c =? sep)%N then ([], line :: lines) else (c :: line, lines)
  end.

(** [s.split('\n')] *)
Definition split_lines (s : jsstring) : list jsstring :=
  let '(line, lines) := segments 10 s in line :: lines.

(** [customSubtopics.split('\n').map(line => line.trim()).filter(line => line.length > 0)] *)
Definition subtopicsArray (customSubtopics : jsstring) : list jsstring :=
  filter (fun line => (0 <? str_length line)%N) (map trim (split_lines customSubtopics)).

(** The state of the component. *)
Record State := mkForm {
  youtubeUrl : jsstring;
  topic : jsstring;
  customSubtopics : jsstring;
  provider : jsstring;
  results : JsVal;
  loading : bool;
  error : jsstring
}.

(** The state of a freshly mounted form. *)
Definition initial : State := mkForm [] [] [] (lit "groq") JNull false [].

(** clearForm resets every field but [loading]. *)
Definition clearForm (s : State) : State :=
  mkForm [] [] [] (lit "groq") JNull (loading s) [].

(** What [fetch] resolves to: [response.ok] and the outcome of
    [response.json()]. *)
Record FetchResponse := mkFetchResponse { ok : bool; body : Result JsVal }.

Definition analyzeEndpoint : jsstring := lit "http://localhost:5000/api/analyze".
Definition noSubtopic : JsError := Error (lit "Please enter at least one subtopic.").

(** The object that handleAnalyze serialises into the request. *)
Definition requestBody (s : State) (subtopics : list jsstring) : JsVal :=
  JObj [(lit "youtubeUrl", JStr (youtubeUrl s));
        (lit "topic", JStr (topic s));
        (lit "customSubtopics", JArr (map JStr subtopics));
        (lit "provider", JStr (provider s))].

(** The [try] block of handleAnalyze.  [fetch] is given the address and
    the object whose JSON text is the body of the request. *)
Definition submit (fetch : jsstring -> JsVal -> Result FetchResponse) (s : State)
  : Result JsVal :=
  let subtopics := subtopicsArray (customSubtopics s) in
  match subtopics with
  | [] => Throw noSubtopic
  | _ :: _ =>
      bind (fetch analyzeEndpoint (requestBody s subtopics)) (fun response =>
      bind (body response) (fun data =>
      if negb (ok response) then
        bind (get data (lit "error")) (fun reported =>
        bind (ToString (or_else reported (JStr (lit "Analysis failed")))) (fun message =>
        Throw (Error message)))
      else Ok data))
  end.

(** The state once handleAnalyze has completed: [loading], [error] and
    [results] are reset first, the [try] block sets [results], the
    [catch] block [error], the [finally] block [loading]. *)
Definition handleAnalyze (fetch : jsstring -> JsVal -> Result FetchResponse) (s : State)
  : State :=
  match submit fetch s with
  | Ok data =>
      mkForm (youtubeUrl s) (topic s) (customSubtopics s) (provider s) data false []
  | Throw err =>
      mkForm (youtubeUrl s) (topic s) (customSubtopics s) (provider s) JNull false
        (err_message err)
  end.

(** The class shown beside a coverage score. *)
Inductive ScoreClass := Covered | Partial | NotCovered.

Definition scoreClass (coverageScore : Z) : ScoreClass :=
  if (70 <=? coverageScore)%Z then Covered
  else if (40 <=? coverageScore)%Z then Partial
  else NotCovered.

Definition className (c : ScoreClass) : jsstring :=
  match c with
  | Covered => lit "covered"
  | Partial => lit "partial"
  | NotCovered => lit "not-covered"
  end.

(** What the component renders: the form unless there are results, the
    error panel when [error] is not empty, the results when there are. *)
Definition showsForm (s : State) : bool := negb (truthy (results s)).
Definition showsError (s : State) : bool := truthy (JStr (error s)).
Definition showsResults (s : State) : bool := truthy (results s).

End App.

(* ================================================================== *)
(** ** extractJson as the specification describes it *)
(* ================================================================== *)

Module Described.
Import JsNumber JsValue Json.

Definition sameUnit (a b : N) : bool := N.eqb a b.

(** Equal up to the case of ASCII letters. *)
Definition upperAscii (c : N) : N := if isLowerAscii c then (c - 32)%N else c.
Definition sameIgnoringCase (a b : N) : bool := N.eqb (upperAscii b) (upperAscii a).

Fixpoint hasPrefix (same : N -> N -> bool) (marker s : jsstring) : bool :=
  match marker, s with
  | [], _ => true
  | m :: marker', c :: s' => same m c && hasPrefix same marker' s'
  | _ :: _, [] => false
  end.

(** The text without the occurrences of [marker], found from left to
    right; [skip] units of the occurrence just found remain to be dropped. *)
Fixpoint stripFrom (same : N -> N -> bool) (marker s : jsstring) (skip : nat)
  : jsstring :=
  match s with
  | [] => []
  | c :: s' =>
      match skip with
      | S n => stripFrom same marker s' n
      | O =>
          if hasPrefix same marker s
          then stripFrom same marker s' (List.length marker - 1)
          else c :: stripFrom same marker s' 0
      end
  end.

Definition strip (same : N -> N -> bool) (marker s : jsstring) : jsstring :=
  stripFrom same marker s 0.

Definition stripFences (text : jsstring) : jsstring :=
  strip sameUnit (lit "```") (strip sameIgnoringCase (lit "```json") text).

Fixpoint firstIndex (c : N) (s : jsstring) : option nat :=
  match s with
  | [] => None
  | x :: s' => if (x =? c)%N then Some 0 else option_map S (firstIndex c s')
  end.

Fixpoint lastIndex (c : N) (s : jsstring) : option nat :=
  match s with
  | [] => None
  | x :: s' =>
      match lastIndex c s' with
      | Some j => Some (S j)
      | None => if (x =? c)%N then Some 0 else None
      end
  end.

(** From the first [opening] to the last [closing], when the one comes
    before the other. *)
Definition span (opening closing : N) (s : jsstring) : option (nat * nat) :=
  match firstIndex opening s, lastIndex closing s with
  | Some i, Some j => if i <? j then Some (i, j) else None
  | _, _ => None
  end.

(** [s.substring(i, j)] *)
Definition substring (i j : nat) (s : jsstring) : jsstring := firstn (j - i) (skipn i s).

(** The bracket-delimited substring: from the first brace to the last
    closing brace, or from the first square bracket to the last closing
    one, whichever starts first. *)
Definition bracketedSubstring (s : jsstring) : option jsstring :=
  let chosen :=
    match span (ch "{") (ch "}") s, span (ch "[") (ch "]") s with
    | Some a, Some b => Some (if fst a <? fst b then a else b)
    | Some a, None => Some a
    | None, Some b => Some b
    | None, None => None
    end in
  match chosen with
  | Some (i, j) => Some (substring i (S j) s)
  | None => None
  end.

(** Strip the fence markers, parse; failing that, parse the bracketed
    substring; failing that too, or on an empty text, the empty array. *)
Definition extractJson_described (text : jsstring) : JsVal :=
  match trim (stripFences text) with
  | [] => JArr []
  | cleaned =>
      match JSON_parse cleaned with
      | Ok v => v
      | Throw _ =>
          match bracketedSubstring cleaned with
          | Some sub =>
              match JSON_parse sub with
              | Ok v => v
              | Throw _ => JArr []
              end
          | None => JArr []
          end
      end
  end.

End Described.

(* ================================================================== *)
(** ** Auxiliary functions for reasoning about the matcher *)
(* ================================================================== *)

Module Matching.
Import Regex Server Described.

(** The input after a prefix whose units satisfy [ps] in turn. *)
Fixpoint prefixBy (ps : list (N -> bool)) (s : jsstring) : option jsstring :=
  match ps, s with
  | [], _ => Some s
  | p :: ps', c :: s' => if p c then prefixBy ps' s' else None
  | _ :: _, [] => None
  end.

(** Where a greedy run of any units followed by [c] ends: after the last
    [c] ahead. *)
Definition closeAt (c : N) (s : jsstring) (i : nat) : option mstate :=
  match lastIndex c s with
  | Some j => Some (mkState (skipn (S j) s) (S (i + j)) [])
  | None => None
  end.

(** A span one unit further to the right. *)
Definition shift (p : nat * nat) : nat * nat := (S (fst p), S (snd p)).

(** The units of a video identifier: letters, digits, hyphen, underscore. *)
Definition isIdUnit (c : N) : bool :=
  isDigit c || isUpperAscii c || isLowerAscii c || (c =? ch "-")%N || (c =? ch "_")%N.

(** A continuation that never fails. *)
Definition total (k : cont) : Prop := forall st, k st <> None.

(** The longest prefix whose units satisfy [p], and what follows it. *)
Fixpoint takeRun (p : N -> bool) (s : jsstring) : jsstring :=
  match s with
  | c :: s' => if p c then c :: takeRun p s' else []
  | [] => []
  end.

Fixpoint dropRun (p : N -> bool) (s : jsstring) : jsstring :=
  match s with
  | c :: s' => if p c then dropRun p s' else s
  | [] => []
  end.

(** The input without its first unit when that unit satisfies [q]. *)
Definition dropOpt (q : N -> bool) (s : jsstring) : jsstring :=
  match s with
  | c :: s' => if q c then s' else s
  | [] => []
  end.

(** The five markers of the video pattern, each with its group number. *)
Definition youtubeClasses : list (N -> bool) :=
  map N.eqb (lit "youtu") ++ [dot] ++ map N.eqb (lit "be/").
Definition vClasses : list (N -> bool) := map N.eqb (lit "v/").
Definition uClasses : list (N -> bool) :=
  map N.eqb (lit "/u/") ++ [word; N.eqb (ch "/")].
Definition embedClasses : list (N -> bool) := map N.eqb (lit "embed/").
Definition watchClasses : list (N -> bool) := map N.eqb (lit "watch?").

Definition markerAlternatives : list (nat * list (N -> bool)) :=
  [(2, youtubeClasses); (3, vClasses); (4, uClasses); (5, embedClasses);
   (6, watchClasses)].

(** The first alternative that matches at the start of [s]: its group,
    its length, the input after it. *)
Fixpoint firstAlternative (alts : list (nat * list (N -> bool))) (s : jsstring)
  : option (nat * nat * jsstring) :=
  match alts with
  | [] => None
  | (g, ps) :: alts' =>
      match prefixBy ps s with
      | Some rest => Some (g, List.length ps, rest)
      | None => firstAlternative alts' s
      end
  end.

Definition markerAt (s : jsstring) : option (nat * nat * jsstring) :=
  firstAlternative markerAlternatives s.

(** The start of the last marker of the first line of [s]. *)
Fixpoint lastMarker (s : jsstring) : option nat :=
  let here := match markerAt s with Some _ => Some 0 | None => None end in
  match s with
  | [] => here
  | c :: s' =>
      match (if dot c then lastMarker s' else None) with
      | Some n => Some (S n)
      | None => here
      end
  end.

(** What group 7 holds when the marker is followed by [rest]. *)
Definition candidate (rest : jsstring) : jsstring :=
  takeRun notSeparator
    (dropOpt (N.eqb (ch "=")) (dropOpt (N.eqb (ch "v")) (dropOpt (N.eqb (ch "?")) rest))).

(** The pattern behind the marker. *)
Definition behindMarker : regex :=
  seq [Opt (chr "?"); Opt (chr "v"); Opt (chr "="); Group 7 (Star notSeparator); Star dot].

(** The pattern from the marker on. *)
Definition fromMarker : cont :=
  fun st => run (Seq (Group 1 marker) behindMarker) st Some.

(** How far a sequence of classes gets on a text that ends too early to
    decide: rejected, matched (with what is left), or still wanting the
    classes [More] holds. *)
Inductive Residual :=
  | Rejected
  | Matched (rest : jsstring)
  | More (ps : list (N -> bool)).

Fixpoint residual (ps : list (N -> bool)) (x : jsstring) : Residual :=
  match ps, x with
  | [], _ => Matched x
  | _ :: _, [] => More ps
  | p :: ps', c :: x' => if p c then residual ps' x' else Rejected
  end.

(** No marker can start at the head of [x] when [x] is followed by [n]
    identifier units: each alternative is rejected inside [x], or runs
    out of [x] with at most [n] classes left. *)
Definition headClear (x : jsstring) (n : nat) : bool :=
  forallb (fun alt =>
             match residual (snd alt) x with
             | Rejected => true
             | Matched _ => false
             | More ps' => List.length ps' <=? n
             end) markerAlternatives.

(** The same for [x] and every non-empty suffix of it. *)
Fixpoint suffixesClear (x : jsstring) (n : nat) : bool :=
  match x with
  | [] => true
  | _ :: x' => headClear x n && suffixesClear x' n
  end.

(** No identifier unit satisfies the class. *)
Definition rejectsIds (q : N -> bool) : Prop :=
  forall c, isIdUnit c = true -> q c = false.

(** extractVideoId without the matcher: the candidate behind the last
    marker of the first line, when it has 11 units. *)
Definition videoIdBehindLastMarker (url : jsstring) : option jsstring :=
  match lastMarker url with
  | Some n =>
      match markerAt (skipn n url) with
      | Some (_, _, rest) =>
          if (str_length (candidate rest) =? 11)%N then Some (candidate rest) else None
      | None => None
      end
  | None => None
  end.

End Matching.

(* ================================================================== *)
(** ** What the specification calls things, and sample worlds *)
(* ================================================================== *)

Module Fixtures.
Import JsNumber JsValue Json Regex Server Matching.

Definition quietEnv : Env := mkEnv None None None.

Definition refused : JsError := mkError TransportError (lit "connect ECONNREFUSED").

(** Every service is down. *)
Definition deadWorld : World :=
  mkWorld (fun _ => Throw refused) (fun _ _ _ => Throw refused).

(** The chat-completions body that carries [reply] as the first choice. *)
Definition chatBody (reply : jsstring) : JsVal :=
  JObj [(lit "choices",
         JArr [JObj [(lit "message", JObj [(lit "content", JStr reply)])]])].

(** No GET succeeds; every POST is answered with [reply]. *)
Definition replyWorld (reply : jsstring) : World :=
  mkWorld (fun _ => Throw refused) (fun _ _ _ => Ok (chatBody reply)).

(** The videos endpoint's body for one video with [description]. *)
Definition videosBody (description : JsVal) : JsVal :=
  JObj [(lit "items",
         JArr [JObj [(lit "snippet",
                      JObj [(lit "title", JStr (lit "Photosynthesis"));
                            (lit "description", description);
                            (lit "channelTitle", JStr (lit "Biology"));
                            (lit "publishedAt", JStr (lit "2020-01-01T00:00:00Z"));
                            (lit "thumbnails",
                             JObj [(lit "default",
                                    JObj [(lit "url", JStr (lit "https://i.ytimg.com/vi/x/default.jpg"))])])])]])].

(** The transcript endpoint answers [transcript]; the videos endpoint
    answers a video with [description]. *)
Definition videoWorld (transcript : Result JsVal) (description : JsVal) : World :=
  mkWorld
    (fun url =>
       if str_eqb (firstn 35 url) (lit "https://youtube-transcriptor.vercel")
       then transcript else Ok (videosBody description))
    (fun _ _ _ => Throw refused).

(** The primary path of getTranscript fails: the call is rejected, or the
    body or its [transcript] member is empty or missing. *)
Definition primaryFails (w : World) (videoId : jsstring) : Prop :=
  (exists e, axios_get w (transcriptUrl videoId) = Throw e)
  \/ (exists data,
        axios_get w (transcriptUrl videoId) = Ok data
        /\ (truthy data = false
            \/ exists t, get data (lit "transcript") = Ok t /\ truthy t = false)).

(** The sum of a list of scores. *)
Definition sumOf (scores : list Z) : Z := fold_right Z.add 0%Z scores.

(** [z] is the arithmetic mean of [scores] rounded to the nearest integer,
    a mean half-way between two integers going up: [z - 1/2 <= mean < z + 1/2].
    No [z] is the rounded mean of an empty list. *)
Definition roundedMean (scores : list Z) (z : Z) : Prop :=
  let n := Z.of_nat (List.length scores) in
  (2 * n * z <= 2 * sumOf scores + n < 2 * n * (z + 1))%Z.

(** The text holds no backtick, hence no code fence. *)
Definition noBacktick (s : jsstring) : Prop := Forall (fun c => c <> ch "`") s.


(** An identifier: 11 such units. *)
Definition isVideoId (id : jsstring) : Prop :=
  List.length id = 11 /\ Forall (fun c => isIdUnit c = true) id.

Definition noLineBreak (s : jsstring) : Prop :=
  Forall (fun c => isLineTerminator c = false) s.

Definition startsWithV (id : jsstring) : bool :=
  match id with c :: _ => (c =? ch "v")%N | [] => false end.

(** What may follow the identifier in a URL: nothing, or a text that
    begins with one of the separators [#], [&] and [?]. *)
Definition separated (tail : jsstring) : Prop :=
  match tail with
  | [] => True
  | c :: _ => notSeparator c = false
  end.


Definition failedEvidence : JsVal := JStr (lit "Failed to generate coverage analysis.").
Definition noEvidence : JsVal := JStr (lit "No evidence provided.").

Definition photosynthesis : jsstring := lit "Photosynthesis converts light to energy.".
Definition twoSubtopics : list jsstring := [lit "light reactions"; lit "energy conversion"].

(** The reply of the end-to-end example. *)
Definition goodReply : jsstring :=
  dq "[{'subtopic':'light reactions','coverageScore':80,'evidence':'...'},{'subtopic':'energy conversion','coverageScore':60,'evidence':'...'}]".

End Fixtures.

(* ================================================================== *)
(** ** Further notions used in the statements *)
(* ================================================================== *)

Module Notions.
Import JsNumber JsValue Json Regex Server Matching Fixtures.

(** The two units one of which every marker of the video pattern holds. *)
Definition slashOrQuery (c : N) : Prop := c = ch "/" \/ c = ch "?".

(** [p] spells [name], a word of small ASCII letters, with each letter
    in either case. *)
Definition spells (name p : jsstring) : Prop :=
  Forall2 (fun t c => c = t \/ c = (t - 32)%N) name p.

(** The units of a string are 16-bit code units. *)
Definition codeUnits (s : jsstring) : Prop := Forall (fun c => (c < 65536)%N) s.

(** The address that getYouTubeVideoData asks for. *)
Definition videosUrl (env : Env) (videoId : jsstring) : jsstring :=
  lit "https://www.googleapis.com/youtube/v3/videos?part=snippet&id="
  ++ videoId ++ lit "&key=" ++ keyText (YOUTUBE_API_KEY env).

(** Every POST is answered with [data]. *)
Definition answers (w : World) (data : JsVal) : Prop :=
  forall url body config, axios_post w url body config = Ok data.

(** No white space at either end. *)
Definition trimmed (s : jsstring) : Prop :=
  match s with
  | [] => True
  | c :: _ => isSpace c = false /\ isSpace (last s c) = false
  end.

(** A text at which the digits of a number end: it is empty, or begins
    with a unit that is neither a digit nor the [x] of a hexadecimal
    prefix. *)
Definition endsNumber (rest : jsstring) : Prop :=
  match rest with
  | [] => True
  | c :: _ => isDigit c = false /\ c <> ch "x" /\ c <> ch "X"
  end.

(** [item.key] for an item that is a JSON object. *)
Definition member (key : string) (fields : list (jsstring * JsVal)) : JsVal :=
  match lookup (lit key) fields with
  | Some v => v
  | None => JUndefined
  end.

(** Structural equality of two Numbers. *)
Definition sameNumber (x y : number) : bool :=
  match x, y with
  | S754_zero s, S754_zero s' => Bool.eqb s s'
  | S754_infinity s, S754_infinity s' => Bool.eqb s s'
  | S754_nan, S754_nan => true
  | S754_finite s m e, S754_finite s' m' e' =>
      Bool.eqb s s' && (m =? m')%positive && (e =? e')%Z
  | _, _ => false
  end.

(** Whether [parsed] is the Number [x] and [read] the integer [z]. *)
Definition agree (parsed : Result JsVal) (read : Result Z) (x : number) (z : Z) : bool :=
  match parsed, read with
  | Ok (JNum y), Ok z' => sameNumber y x && (z' =? z)%Z
  | _, _ => false
  end.

(** Whether [n] is read back from its decimal text, by JSON.parse and
    then by [parseInt(v) || 0]. *)
Definition readsAsItself (n : N) : bool :=
  agree (JSON_parse (decimal n)) (parseIntOrZero (JNum (ofN n))) (ofN n) (Z.of_N n).

(** Whether [parseInt(v) || 0] cuts the hundredths [k / 100] down to
    their integer part. *)
Definition readsTruncated (k : N) : bool :=
  agree (Ok (JNum NaN)) (parseIntOrZero (JNum (ofDecimal false k (-2)))) NaN
    (Z.of_N (k / 100)).

(** The provider that the route works with: the member of the body, or
    [groq] when the body has none. *)
Definition providerOf (fields : list (jsstring * JsVal)) : JsVal :=
  let given := member "provider" fields in
  match given with
  | JUndefined => JStr (lit "groq")
  | _ => given
  end.

(** The three members that the route requires are there and truthy. *)
Definition complete (fields : list (jsstring * JsVal)) : Prop :=
  truthy (member "youtubeUrl" fields) = true
  /\ truthy (member "topic" fields) = true
  /\ truthy (get_opt (member "customSubtopics" fields) (lit "length")) = true.

(** A body as the form of the frontend sends it: a URL, a topic that is
    not empty, subtopics that are strings, at least one and fewer than
    2^32 as in every array, and a provider. *)
Definition formBody (fields : list (jsstring * JsVal)) (url : jsstring)
    (subtopics : list jsstring) (provider : jsstring) : Prop :=
  member "youtubeUrl" fields = JStr url
  /\ url <> []
  /\ truthy (member "topic" fields) = true
  /\ member "customSubtopics" fields = JArr (map JStr subtopics)
  /\ subtopics <> []
  /\ (N.of_nat (List.length subtopics) < 2 ^ 32)%N
  /\ providerOf fields = JStr provider.

(** A request as the form sends it, the data of its video, and a world
    in which the transcript service answers with a text and no LLM can
    be reached. *)
Definition sampleBody : list (jsstring * JsVal) :=
  [(lit "youtubeUrl", JStr (lit "https://youtu.be/dQw4w9WgXcQ"));
   (lit "topic", JStr (lit "Biology"));
   (lit "customSubtopics", JArr (map JStr twoSubtopics));
   (lit "provider", JStr (lit "groq"))].

Definition sampleVideo : VideoData :=
  mkVideoData (JStr (lit "Photosynthesis")) (JStr (lit "A lesson."))
    (JStr (lit "Biology")) (JStr (lit "2020-01-01T00:00:00Z"))
    (JStr (lit "https://i.ytimg.com/vi/x/default.jpg")).

Definition transcriptWorld (transcript : JsVal) : World :=
  videoWorld (Ok (JObj [(lit "transcript", transcript)])) (JStr (lit "A lesson.")).

Definition noBeyond : JsVal -> JsVal -> JsVal -> Result CoverageReport :=
  fun _ _ _ => Throw refused.

End Notions.

(* ================================================================== *)
(** ** Properties *)
(* ================================================================== *)

Import JsNumber JsValue Json Regex Server Described Matching Fixtures.

(** *** Strings *)

Lemma str_eqb_refl : forall s, str_eqb s s = true.
Proof. induction s as [|c s IH]; simpl; [reflexivity|]. now rewrite N.eqb_refl, IH. Qed.

Lemma str_eqb_eq : forall a b, str_eqb a b = true <-> a = b.
Proof.
  induction a as [|x a IH]; destruct b as [|y b]; simpl; split; intro H;
    try reflexivity; try discriminate.
  - apply andb_true_iff in H as [Hxy Hab]. apply N.eqb_eq in Hxy.
    apply IH in Hab. now subst.
  - injection H as -> ->. now rewrite N.eqb_refl, str_eqb_refl.
Qed.

Lemma str_eqb_neq : forall a b, str_eqb a b = false <-> a <> b.
Proof.
  intros a b. split.
  - intros H E. apply str_eqb_eq in E. congruence.
  - intro H. destruct (str_eqb a b) eqn:E; [|reflexivity].
    apply str_eqb_eq in E. contradiction.
Qed.

(** *** JSON.parse: the fuel of the parser is enough *)

Lemma skipWs_length : forall s, List.length (skipWs s) <= List.length s.
Proof.
  induction s as [|c s IH]; simpl; [lia|]. destruct (isJsonWs c); simpl; lia.
Qed.

Lemma skipWs_cons_length : forall s c r,
  skipWs s = c :: r -> List.length r < List.length s.
Proof.
  intros s c r H. pose proof (skipWs_length s) as L. rewrite H in L. simpl in L. lia.
Qed.

Lemma parseChars_length : forall s acc str rest,
  parseChars s acc = Some (str, rest) -> List.length rest < List.length s.
Proof.
  intro s. remember (List.length s) as n eqn:Hn.
  revert s Hn. induction n as [n IH] using lt_wf_ind. intros s Hn acc str rest H.
  destruct s as [|c r]; [discriminate|]. simpl in Hn. cbn [parseChars] in H.
  destruct (c =? dquote)%N.
  { injection H as _ <-. lia. }
  destruct (c =? ch "\")%N.
  - destruct r as [|e r1]; [discriminate|].
    destruct (e =? ch "u")%N.
    + destruct r1 as [|h1 [|h2 [|h3 [|h4 r2]]]]; try discriminate.
      destruct (hex4 h1 h2 h3 h4); [|discriminate].
      apply (IH (List.length r2)) in H; simpl in *; try lia.
    + destruct (escapeChar e); [|discriminate].
      apply (IH (List.length r1)) in H; simpl in *; try lia.
  - destruct (c <? 32)%N; [discriminate|].
    apply (IH (List.length r)) in H; simpl in *; lia.
Qed.

Lemma parseDigits_length : forall s acc len m len' rest,
  parseDigits s acc len = (m, len', rest) ->
  List.length rest + len' = List.length s + len.
Proof.
  induction s as [|c s IH]; intros acc len m len' rest H; simpl in H.
  - injection H as _ <- <-. reflexivity.
  - destruct (isDigit c).
    + apply IH in H. simpl. lia.
    + injection H as _ <- <-. reflexivity.
Qed.

Lemma parseDigits_count : forall s acc len m len' rest,
  parseDigits s acc len = (m, len', rest) -> len <= len'.
Proof.
  induction s as [|c s IH]; intros acc len m len' rest H; simpl in H.
  - injection H as _ <- _. lia.
  - destruct (isDigit c).
    + apply IH in H. lia.
    + injection H as _ <- _. lia.
Qed.

Lemma parseDigits_progress : forall c s acc len m len' rest,
  isDigit c = true ->
  parseDigits (c :: s) acc len = (m, len', rest) -> len < len'.
Proof.
  intros c s acc len m len' rest Hc H. simpl in H. rewrite Hc in H.
  apply parseDigits_count in H. lia.
Qed.

Lemma dropPrefix_length : forall p s rest,
  dropPrefix p s = Some rest -> List.length rest <= List.length s.
Proof.
  induction p as [|x p IH]; intros s rest H; simpl in H.
  - injection H as <-. lia.
  - destruct s as [|y s]; [discriminate|]. destruct (x =? y)%N; [|discriminate].
    apply IH in H. simpl. lia.
Qed.

Lemma cons_eq_inv : forall (A : Type) (a b : A) (l m : list A),
  a :: l = b :: m -> a = b /\ l = m.
Proof. intros A a b l m H. injection H as -> ->. auto. Qed.

Ltac break_matches :=
  repeat match goal with
         | H : context [match ?x with _ => _ end] |- _ =>
             destruct x eqn:?; try discriminate
         | E : (_, _) = (_, _) |- _ =>
             apply pair_equal_spec in E; destruct E; subst
         | E : Some _ = Some _ |- _ => injection E as ?; subst
         | E : _ :: _ = _ :: _ |- _ => apply cons_eq_inv in E; destruct E; subst
         end.

Lemma parseNumber_length : forall s x rest,
  parseNumber s = Some (x, rest) -> List.length rest < List.length s.
Proof.
  intros s x rest H. unfold parseNumber in H.
  break_matches;
    repeat match goal with
           | D : isDigit ?c = true, E : parseDigits (?c :: _) _ _ = _ |- _ =>
               pose proof (parseDigits_progress _ _ _ _ _ _ _ D E);
               apply parseDigits_length in E
           | E : parseDigits _ _ _ = _ |- _ => apply parseDigits_length in E
           end;
    simpl in *; lia.
Qed.

Lemma parseString_length : forall s key rest,
  parseString s = Some (key, rest) -> List.length rest < List.length s.
Proof.
  intros s key rest H. unfold parseString in H.
  destruct s as [|c r]; [discriminate|]. destruct (c =? dquote)%N; [|discriminate].
  apply parseChars_length in H. simpl. lia.
Qed.

Ltac length_facts :=
  repeat match goal with
         | E : skipWs _ = _ :: _ |- _ => apply skipWs_cons_length in E
         | E : parseChars _ _ = Some _ |- _ => apply parseChars_length in E
         | E : parseString _ = Some _ |- _ => apply parseString_length in E
         | E : dropPrefix _ _ = Some _ |- _ => apply dropPrefix_length in E
         | E : parseNumber _ = Some _ |- _ => apply parseNumber_length in E
         end.

Lemma parse_consumes : forall f,
  (forall s v rest, parseValue f s = Some (v, rest) -> List.length rest < List.length s)
  /\ (forall s vs rest,
        parseElements f s = Some (vs, rest) -> List.length rest < List.length s)
  /\ (forall s ms rest,
        parseMembers f s = Some (ms, rest) -> List.length rest < List.length s).
Proof.
  induction f as [|f [IHv [IHe IHm]]].
  - repeat split; intros; discriminate.
  - split; [|split].
    + intros s v rest H. cbn [parseValue] in H.
      break_matches;
        repeat match goal with
               | E : parseElements f _ = Some _ |- _ => apply IHe in E
               | E : parseMembers f _ = Some _ |- _ => apply IHm in E
               end;
        length_facts; simpl in *; lia.
    + intros s vs rest H. cbn [parseElements] in H.
      break_matches;
        repeat match goal with
               | E : parseValue f _ = Some _ |- _ => apply IHv in E
               | E : parseElements f _ = Some _ |- _ => apply IHe in E
               end;
        length_facts; simpl in *; lia.
    + intros s ms rest H. cbn [parseMembers] in H.
      pose proof (skipWs_length s).
      break_matches;
        repeat match goal with
               | E : parseValue f _ = Some _ |- _ => apply IHv in E
               | E : parseMembers f _ = Some _ |- _ => apply IHm in E
               end;
        length_facts; simpl in *; lia.
Qed.

Ltac consumed :=
  repeat match goal with
         | E : parseValue _ _ = Some _ |- _ => apply (proj1 (parse_consumes _)) in E
         | E : parseElements _ _ = Some _ |- _ =>
             apply (proj1 (proj2 (parse_consumes _))) in E
         | E : parseMembers _ _ = Some _ |- _ =>
             apply (proj2 (proj2 (parse_consumes _))) in E
         end;
  length_facts; simpl in *; lia.

(** Past twice the length of the text, one more unit of fuel changes
    nothing. *)
Lemma parse_fuel_step : forall f,
  (forall s, 2 * List.length s + 1 <= f -> parseValue (S f) s = parseValue f s)
  /\ (forall s, 2 * List.length s + 2 <= f -> parseElements (S f) s = parseElements f s)
  /\ (forall s, 2 * List.length s + 2 <= f -> parseMembers (S f) s = parseMembers f s).
Proof.
  induction f as [|f [IHv [IHe IHm]]].
  - repeat split; intros; lia.
  - split; [|split]; intros s Hs.
    + remember (S f) as g eqn:Hg. rewrite Hg at 2. cbn [parseValue]. subst g.
      repeat match goal with
             | |- context [parseElements (S f) ?r] => rewrite (IHe r) by consumed
             | |- context [parseMembers (S f) ?r] => rewrite (IHm r) by consumed
             | |- context [match ?x with _ => _ end] => destruct x eqn:?
             end; reflexivity.
    + remember (S f) as g eqn:Hg. rewrite Hg at 2. cbn [parseElements]. subst g.
      repeat match goal with
             | |- context [parseValue (S f) ?r] => rewrite (IHv r) by consumed
             | |- context [parseElements (S f) ?r] => rewrite (IHe r) by consumed
             | |- context [match ?x with _ => _ end] => destruct x eqn:?
             end; reflexivity.
    + remember (S f) as g eqn:Hg. rewrite Hg at 2. cbn [parseMembers]. subst g.
      pose proof (skipWs_length s).
      repeat match goal with
             | |- context [parseValue (S f) ?r] => rewrite (IHv r) by consumed
             | |- context [parseMembers (S f) ?r] => rewrite (IHm r) by consumed
             | |- context [match ?x with _ => _ end] => destruct x eqn:?
             end; reflexivity.
Qed.

(** A parse that succeeds keeps its result when given more fuel. *)
Lemma parse_fuel_more : forall f,
  (forall s r, parseValue f s = Some r -> parseValue (S f) s = Some r)
  /\ (forall s r, parseElements f s = Some r -> parseElements (S f) s = Some r)
  /\ (forall s r, parseMembers f s = Some r -> parseMembers (S f) s = Some r).
Proof.
  induction f as [|f [IHv [IHe IHm]]].
  - repeat split; intros; discriminate.
  - split; [|split]; intros s r H.
    + remember (S f) as g eqn:Hg. rewrite Hg in H. cbn [parseValue] in *. subst g.
      break_matches;
        repeat match goal with
               | E : parseElements f _ = Some _ |- _ => apply IHe in E
               | E : parseMembers f _ = Some _ |- _ => apply IHm in E
               end;
        repeat match goal with
               | E : ?x = _ |- context [?x] => rewrite E
               end; try reflexivity; try discriminate.
    + remember (S f) as g eqn:Hg. rewrite Hg in H. cbn [parseElements] in *. subst g.
      break_matches;
        repeat match goal with
               | E : parseValue f _ = Some _ |- _ => apply IHv in E
               | E : parseElements f _ = Some _ |- _ => apply IHe in E
               end;
        repeat match goal with
               | E : ?x = _ |- context [?x] => rewrite E
               end; try reflexivity; try discriminate.
    + remember (S f) as g eqn:Hg. rewrite Hg in H. cbn [parseMembers] in *. subst g.
      break_matches;
        repeat match goal with
               | E : parseValue f _ = Some _ |- _ => apply IHv in E
               | E : parseMembers f _ = Some _ |- _ => apply IHm in E
               end;
        repeat match goal with
               | E : ?x = _ |- context [?x] => rewrite E
               end; try reflexivity; try discriminate.
Qed.

Lemma parseValue_more_fuel : forall f f' s r,
  f <= f' -> parseValue f s = Some r -> parseValue f' s = Some r.
Proof.
  intros f f' s r Hle H. induction Hle as [|f' _ IH]; [exact H|].
  now apply (proj1 (parse_fuel_more f')).
Qed.

Lemma parseValue_fuel_enough : forall s f,
  parseFuel s <= f -> parseValue f s = parseValue (parseFuel s) s.
Proof.
  intros s f Hle. induction Hle as [|f Hle IH]; [reflexivity|].
  rewrite <- IH. apply (proj1 (parse_fuel_step f)). unfold parseFuel in Hle. lia.
Qed.

(** JSON_parse does not depend on the amount of fuel it gives the
    parser: it accepts a text with value [v] exactly when the parser,
    with some amount of fuel, reads [v] and leaves only white space. *)
Lemma JSON_parse_any_fuel : forall text v,
  JSON_parse text = Ok v
  <-> exists f rest, parseValue f text = Some (v, rest) /\ skipWs rest = [].
Proof.
  intros text v. unfold JSON_parse. split.
  - destruct (parseValue (parseFuel text) text) as [[v' rest]|] eqn:E; [|discriminate].
    destruct (skipWs rest) eqn:Ew; [|discriminate].
    intro H. injection H as <-. exists (parseFuel text), rest. auto.
  - intros [f [rest [H Hw]]].
    assert (E : parseValue (parseFuel text) text = Some (v, rest)).
    { destruct (Nat.le_ge_cases f (parseFuel text)) as [Hle | Hge].
      - now apply parseValue_more_fuel with f.
      - rewrite <- (parseValue_fuel_enough text f Hge). exact H. }
    rewrite E, Hw. reflexivity.
Qed.

(** *** The matcher on literal patterns *)



Lemma run_classes : forall ps s i caps k,
  ps <> [] ->
  run (seq (map Class ps)) (mkState s i caps) k
  = match prefixBy ps s with
    | Some rest => k (mkState rest (List.length ps + i) caps)
    | None => None
    end.
Proof.
  induction ps as [|p ps IH]; intros s i caps k Hne; [contradiction|].
  destruct ps as [|q ps].
  - simpl. destruct s as [|c s]; [reflexivity|]. destruct (p c); reflexivity.
  - change (seq (map Class (p :: q :: ps)))
      with (Seq (Class p) (seq (map Class (q :: ps)))).
    cbn [run ahead index captures].
    destruct s as [|c s]; [reflexivity|].
    change (prefixBy (p :: q :: ps) (c :: s))
      with (if p c then prefixBy (q :: ps) s else None).
    destruct (p c); [|reflexivity].
    rewrite IH by discriminate.
    destruct (prefixBy (q :: ps) s) as [rest|]; [|reflexivity].
    f_equal. f_equal. cbn [List.length]. lia.
Qed.

Lemma prefixBy_hasPrefix : forall same mark s,
  hasPrefix same mark s
  = match prefixBy (map same mark) s with Some _ => true | None => false end.
Proof.
  induction mark as [|m mark IH]; intro s; simpl; [reflexivity|].
  destruct s as [|c s]; [reflexivity|].
  destruct (same m c); simpl; [apply IH | reflexivity].
Qed.

Lemma prefixBy_length : forall ps s rest,
  prefixBy ps s = Some rest -> List.length s = List.length ps + List.length rest.
Proof.
  induction ps as [|p ps IH]; intros s rest H; simpl in *.
  - now injection H as ->.
  - destruct s as [|c s]; [discriminate|]. destruct (p c); [|discriminate].
    simpl. f_equal. now apply IH.
Qed.

(** A global replacement by the empty string of a pattern that is a
    sequence of unit classes strips the occurrences of the mark. *)
Lemma replaceFrom_strip : forall same mark s i skip,
  mark <> [] ->
  replaceFrom (seq (map Class (map same mark))) [] s i skip
  = stripFrom same mark s skip.
Proof.
  intros same mark s i skip Hne. revert i skip.
  induction s as [|c s IH]; intros i skip.
  - simpl. destruct skip; [|reflexivity].
    unfold matchAt. rewrite run_classes by (destruct mark; [contradiction | discriminate]).
    destruct mark as [|m mark]; [contradiction|]. reflexivity.
  - cbn [replaceFrom stripFrom]. destruct skip as [|n]; [|apply IH].
    unfold matchAt. rewrite run_classes by (destruct mark; [contradiction | discriminate]).
    rewrite prefixBy_hasPrefix.
    destruct (prefixBy (map same mark) (c :: s)) as [rest|] eqn:E.
    + cbn [index]. rewrite length_map.
      replace (List.length mark + i - i) with (List.length mark) by lia.
      destruct mark as [|m mark]; [contradiction|].
      cbn [List.length]. rewrite Nat.sub_succ, Nat.sub_0_r. simpl app. apply IH.
    + f_equal. apply IH.
Qed.

Lemma jsonFence_classes :
  jsonFence = seq (map Class (map sameIgnoringCase (lit "```json"))).
Proof. reflexivity. Qed.

Lemma fence_classes : fence = seq (map Class (map sameUnit (lit "```"))).
Proof. reflexivity. Qed.

Lemma replaceAll_jsonFence : forall s,
  replaceAll jsonFence [] s = strip sameIgnoringCase (lit "```json") s.
Proof.
  intro s. unfold replaceAll, strip. rewrite jsonFence_classes.
  apply replaceFrom_strip. discriminate.
Qed.

Lemma replaceAll_fence : forall s,
  replaceAll fence [] s = strip sameUnit (lit "```") s.
Proof.
  intro s. unfold replaceAll, strip. rewrite fence_classes.
  apply replaceFrom_strip. discriminate.
Qed.

(** cleanFences is the stripping the specification describes. *)
Lemma cleanFences_described : forall text, cleanFences text = trim (stripFences text).
Proof.
  intro text. unfold cleanFences, stripFences.
  now rewrite replaceAll_jsonFence, replaceAll_fence.
Qed.

(** *** Stripping and appended text *)

Lemma hasPrefix_length : forall same mark s,
  hasPrefix same mark s = true -> List.length mark <= List.length s.
Proof.
  intros same mark. induction mark as [|m mark IH]; intros s H; simpl; [lia|].
  destruct s as [|c s]; [discriminate|]. simpl in H.
  apply andb_true_iff in H as [_ H]. apply IH in H. simpl. lia.
Qed.

Lemma hasPrefix_app_true : forall same mark s t,
  hasPrefix same mark s = true -> hasPrefix same mark (s ++ t) = true.
Proof.
  intros same mark. induction mark as [|m mark IH]; intros s t H; [reflexivity|].
  destruct s as [|c s]; [discriminate|]. simpl in *.
  apply andb_true_iff in H as [H1 H2]. rewrite H1. simpl. now apply IH.
Qed.

Section Appended.

Variable same : N -> N -> bool.
Variables mark tail : jsstring.

(** No occurrence of the marker straddles the end of a text followed by
    [tail]. *)
Hypothesis blind : forall u,
  u <> [] -> hasPrefix same mark (u ++ tail) = hasPrefix same mark u.

Lemma stripFrom_app : forall s skip,
  skip <= List.length s ->
  stripFrom same mark (s ++ tail) skip
  = stripFrom same mark s skip ++ stripFrom same mark tail 0.
Proof.
  induction s as [|c s IH]; intros skip Hskip.
  - simpl in Hskip. replace skip with 0 by lia. reflexivity.
  - destruct skip as [|n].
    + change ((c :: s) ++ tail) with (c :: (s ++ tail)).
      cbn [stripFrom].
      change (c :: (s ++ tail)) with ((c :: s) ++ tail).
      rewrite blind by discriminate.
      destruct (hasPrefix same mark (c :: s)) eqn:E.
      * apply IH. apply hasPrefix_length in E. simpl in E. lia.
      * simpl. f_equal. apply IH. lia.
    + simpl. apply IH. simpl in Hskip. lia.
Qed.

End Appended.

Ltac split_units u :=
  destruct u as [|?c1 [|?c2 [|?c3 [|?c4 [|?c5 [|?c6 [|?c7 u]]]]]]].

Ltac decide_units same :=
  repeat match goal with
         | |- context [same ?m ?c] => is_var c; destruct (same m c)
         end;
  reflexivity.

Lemma jsonFence_blind_to_fence : forall u,
  u <> [] ->
  hasPrefix sameIgnoringCase (lit "```json") (u ++ lit "```")
  = hasPrefix sameIgnoringCase (lit "```json") u.
Proof.
  intros u Hu.
  change (lit "```json") with [96; 96; 96; 106; 115; 111; 110]%N.
  change (lit "```") with [96; 96; 96]%N.
  split_units u; [contradiction|..]; cbn [hasPrefix app];
    decide_units sameIgnoringCase.
Qed.

Lemma jsonFence_blind_to_line : forall u,
  u <> [] ->
  hasPrefix sameIgnoringCase (lit "```json") (u ++ nl ++ lit "```")
  = hasPrefix sameIgnoringCase (lit "```json") u.
Proof.
  intros u Hu.
  change (lit "```json") with [96; 96; 96; 106; 115; 111; 110]%N.
  change (nl ++ lit "```") with [10; 96; 96; 96]%N.
  split_units u; [contradiction|..]; cbn [hasPrefix app];
    decide_units sameIgnoringCase.
Qed.

Lemma fence_blind_to_line : forall u,
  u <> [] ->
  hasPrefix sameUnit (lit "```") (u ++ nl ++ lit "```")
  = hasPrefix sameUnit (lit "```") u.
Proof.
  intros u Hu.
  change (lit "```") with [96; 96; 96]%N.
  change (nl ++ [96; 96; 96]%N) with [10; 96; 96; 96]%N.
  split_units u; [contradiction|..]; cbn [hasPrefix app];
    decide_units sameUnit.
Qed.

Lemma fence_only_closing : forall s,
  hasPrefix sameUnit [96; 96; 96]%N s = false ->
  hasPrefix sameUnit [96; 96; 96]%N (s ++ [96; 96; 96]%N) = true ->
  s = [] \/ s = [96]%N \/ s = [96; 96]%N.
Proof.
  intros s H1 H2.
  destruct s as [|c1 [|c2 [|c3 s]]]; cbn [hasPrefix app] in *.
  - now left.
  - right. left. apply andb_true_iff in H2 as [E _].
    apply N.eqb_eq in E. now subst.
  - right. right. apply andb_true_iff in H2 as [E H2].
    apply andb_true_iff in H2 as [E2 _].
    apply N.eqb_eq in E. apply N.eqb_eq in E2. now subst.
  - rewrite H1 in H2. discriminate.
Qed.

(** A closing fence lengthens the last run of backticks by three: what
    stripping leaves of the run is the same. *)
Lemma stripFrom_fence_closing : forall t skip,
  skip <= List.length t ->
  stripFrom sameUnit (lit "```") (t ++ lit "```") skip
  = stripFrom sameUnit (lit "```") t skip.
Proof.
  change (lit "```") with [96; 96; 96]%N.
  induction t as [|c t IH]; intros skip Hskip.
  - simpl in Hskip. replace skip with 0 by lia. reflexivity.
  - destruct skip as [|n]; [|simpl; apply IH; simpl in Hskip; lia].
    change ((c :: t) ++ [96; 96; 96]%N) with (c :: (t ++ [96; 96; 96]%N)).
    cbn [stripFrom].
    change (c :: (t ++ [96; 96; 96]%N)) with ((c :: t) ++ [96; 96; 96]%N).
    destruct (hasPrefix sameUnit [96; 96; 96]%N (c :: t)) eqn:E1.
    + rewrite (hasPrefix_app_true _ _ _ _ E1).
      apply IH. apply hasPrefix_length in E1. simpl in *. lia.
    + destruct (hasPrefix sameUnit [96; 96; 96]%N ((c :: t) ++ [96; 96; 96]%N)) eqn:E2.
      * destruct (fence_only_closing _ E1 E2) as [H | [H | H]];
          [discriminate | |]; injection H as -> ->; reflexivity.
      * f_equal. apply IH. lia.
Qed.

Lemma stripFences_fenced : forall s,
  stripFences (lit "```json" ++ s ++ lit "```") = stripFences s.
Proof.
  intro s. unfold stripFences, strip.
  change (stripFrom sameIgnoringCase (lit "```json") (lit "```json" ++ s ++ lit "```") 0)
    with (stripFrom sameIgnoringCase (lit "```json") (s ++ lit "```") 0).
  rewrite (stripFrom_app sameIgnoringCase (lit "```json") (lit "```")
             jsonFence_blind_to_fence) by lia.
  change (stripFrom sameIgnoringCase (lit "```json") (lit "```") 0) with (lit "```").
  apply stripFrom_fence_closing. lia.
Qed.

Lemma stripFences_fenced_lines : forall s,
  stripFences (lit "```json" ++ nl ++ s ++ nl ++ lit "```")
  = nl ++ stripFences s ++ nl.
Proof.
  intro s. unfold stripFences, strip.
  change (stripFrom sameIgnoringCase (lit "```json")
            (lit "```json" ++ nl ++ s ++ nl ++ lit "```") 0)
    with (10%N :: stripFrom sameIgnoringCase (lit "```json") (s ++ nl ++ lit "```") 0).
  rewrite (stripFrom_app sameIgnoringCase (lit "```json") (nl ++ lit "```")
             jsonFence_blind_to_line) by lia.
  change (stripFrom sameIgnoringCase (lit "```json") (nl ++ lit "```") 0)
    with (nl ++ lit "```").
  set (inner := stripFrom sameIgnoringCase (lit "```json") s 0).
  change (stripFrom sameUnit (lit "```") (10%N :: inner ++ nl ++ lit "```") 0)
    with (10%N :: stripFrom sameUnit (lit "```") (inner ++ nl ++ lit "```") 0).
  rewrite (stripFrom_app sameUnit (lit "```") (nl ++ lit "```")
             fence_blind_to_line) by lia.
  reflexivity.
Qed.

Lemma trimEnd_snoc_space : forall s w, isSpace w = true -> trimEnd (s ++ [w]) = trimEnd s.
Proof.
  intros s w Hw. unfold trimEnd. rewrite rev_app_distr. simpl. now rewrite Hw.
Qed.

Lemma trim_snoc_space : forall s w, isSpace w = true -> trim (s ++ [w]) = trim s.
Proof.
  intros s w Hw. unfold trim. induction s as [|c s IH].
  - simpl. rewrite Hw. reflexivity.
  - simpl. destruct (isSpace c) eqn:Hc; [exact IH|].
    change (c :: s ++ [w]) with ((c :: s) ++ [w]). now apply trimEnd_snoc_space.
Qed.

Lemma trim_idempotent_start : forall s, trimStart (trimStart s) = trimStart s.
Proof.
  induction s as [|c s IH]; [reflexivity|]. simpl.
  destruct (isSpace c) eqn:Hc; [exact IH|]. simpl. now rewrite Hc.
Qed.

(** extractJson looks at its argument through cleanFences only. *)
Lemma extractJson_by_cleaned : forall text,
  extractJson text
  = match cleanFences text with
    | [] => JArr []
    | cleaned =>
        match JSON_parse cleaned with
        | Ok v => v
        | Throw _ =>
            match exec bracketed cleaned with
            | Some m =>
                match JSON_parse (match_text m) with
                | Ok v => v
                | Throw _ => JArr []
                end
            | None => JArr []
            end
        end
    end.
Proof.
  intro text. unfold extractJson. destruct text as [|c text]; [reflexivity|].
  cbv zeta. destruct (cleanFences (c :: text)); reflexivity.
Qed.

(** C6.  A text between an opening [```json] fence and a closing [```]
    fence, with or without line breaks next to the fences, is read by
    extractJson as the bare text is.  This holds for every text, in
    particular for one that parses as JSON. *)
Theorem extractJson_ignores_fences :
  forall s,
    extractJson (lit "```json" ++ s ++ lit "```") = extractJson s
    /\ extractJson (lit "```json" ++ nl ++ s ++ nl ++ lit "```") = extractJson s.
Proof.
  intro s. split.
  - rewrite !extractJson_by_cleaned, !cleanFences_described.
    now rewrite stripFences_fenced.
  - rewrite !extractJson_by_cleaned, !cleanFences_described.
    rewrite stripFences_fenced_lines.
    replace (trim (nl ++ stripFences s ++ nl)) with (trim (stripFences s)); [reflexivity|].
    unfold nl. change ([10%N] ++ stripFences s ++ [10%N])
      with (10%N :: (stripFences s ++ [10%N])).
    unfold trim at 2. cbn [trimStart]. change (isSpace 10) with true. cbn iota.
    symmetry. apply (trim_snoc_space (stripFences s) 10%N). reflexivity.
Qed.

(** *** The bracketed pattern *)


Lemma star_any_close : forall c s i,
  star any s i [] (fun st => run (Class (N.eqb c)) st Some) = closeAt c s i.
Proof.
  intros c s. unfold closeAt. induction s as [|x s IH]; intro i.
  - reflexivity.
  - cbn [star any lastIndex]. rewrite IH.
    destruct (lastIndex c s) as [j|].
    + f_equal. f_equal. lia.
    + cbn [run ahead index captures]. rewrite N.eqb_sym.
      destruct (x =? c)%N; [|reflexivity].
      f_equal. f_equal. lia.
Qed.

Lemma run_alt : forall r1 r2 st k,
  run (Alt r1 r2) st k
  = match run r1 st k with Some st' => Some st' | None => run r2 st k end.
Proof. reflexivity. Qed.

Lemma run_seq : forall r1 r2 st k,
  run (Seq r1 r2) st k = run r1 st (fun st' => run r2 st' k).
Proof. reflexivity. Qed.

Lemma run_open_close : forall o c x s i,
  run (Seq (Class (N.eqb o)) (Seq (Star any) (Class (N.eqb c))))
    (mkState (x :: s) i []) Some
  = if (x =? o)%N then closeAt c s (S i) else None.
Proof.
  intros o c x s i. cbn [run ahead index captures]. rewrite N.eqb_sym.
  destruct (x =? o)%N; [|reflexivity]. exact (star_any_close c s (S i)).
Qed.

Lemma matchAt_bracketed : forall c s i,
  matchAt bracketed (c :: s) i
  = match (if (c =? ch "{")%N then closeAt (ch "}") s (S i) else None) with
    | Some st => Some st
    | None => if (c =? ch "[")%N then closeAt (ch "]") s (S i) else None
    end.
Proof.
  intros c s i. unfold matchAt, bracketed.
  change (seq [chr "{"; Star any; chr "}"])
    with (Seq (Class (N.eqb (ch "{"))) (Seq (Star any) (Class (N.eqb (ch "}"))))).
  change (seq [chr "["; Star any; chr "]"])
    with (Seq (Class (N.eqb (ch "["))) (Seq (Star any) (Class (N.eqb (ch "]"))))).
  rewrite run_alt. now rewrite !run_open_close.
Qed.


Lemma span_cons_other : forall o cl c s,
  (c =? o)%N = false ->
  span o cl (c :: s) = option_map shift (span o cl s).
Proof.
  intros o cl c s Ho. unfold span. cbn [firstIndex lastIndex]. rewrite Ho.
  destruct (firstIndex o s) as [i|]; cbn [option_map].
  - destruct (lastIndex cl s) as [j|].
    + change (S i <? S j) with (i <? j). destruct (i <? j); reflexivity.
    + destruct (c =? cl)%N; reflexivity.
  - destruct (lastIndex cl s); [reflexivity|]. destruct (c =? cl)%N; reflexivity.
Qed.

Lemma span_cons_open : forall o cl c s,
  (c =? o)%N = true ->
  (c =? cl)%N = false ->
  span o cl (c :: s)
  = match lastIndex cl s with Some j => Some (0, S j) | None => None end.
Proof.
  intros o cl c s Ho Hc. unfold span. cbn [firstIndex lastIndex]. rewrite Ho, Hc.
  destruct (lastIndex cl s); reflexivity.
Qed.

Lemma substring_cons : forall c s i j,
  substring (S i) (S j) (c :: s) = substring i j s.
Proof. reflexivity. Qed.

Lemma bracketedSubstring_shift : forall c s,
  span (ch "{") (ch "}") (c :: s) = option_map shift (span (ch "{") (ch "}") s) ->
  span (ch "[") (ch "]") (c :: s) = option_map shift (span (ch "[") (ch "]") s) ->
  bracketedSubstring (c :: s) = bracketedSubstring s.
Proof.
  intros c s H1 H2. unfold bracketedSubstring. rewrite H1, H2.
  destruct (span (ch "{") (ch "}") s) as [[i j]|];
    destruct (span (ch "[") (ch "]") s) as [[i' j']|]; cbn [option_map shift fst snd];
    try reflexivity.
  change (S i <? S i') with (i <? i'). destruct (i <? i'); reflexivity.
Qed.

(** The leftmost match of the bracketed pattern is the substring the
    specification describes. *)
Lemma searchFrom_bracketed : forall s i,
  option_map match_text (searchFrom bracketed s i) = bracketedSubstring s.
Proof.
  induction s as [|c s IH]; intro i; [reflexivity|].
  cbn [searchFrom]. rewrite matchAt_bracketed.
  destruct (c =? ch "{")%N eqn:Ecurly.
  - assert (Esq : (c =? ch "[")%N = false).
    { apply N.eqb_eq in Ecurly. subst c. reflexivity. }
    assert (Ecl : (c =? ch "}")%N = false).
    { apply N.eqb_eq in Ecurly. subst c. reflexivity. }
    assert (Ecl' : (c =? ch "]")%N = false).
    { apply N.eqb_eq in Ecurly. subst c. reflexivity. }
    rewrite Esq. unfold closeAt.
    pose proof (span_cons_open (ch "{") (ch "}") c s Ecurly Ecl) as Hc.
    pose proof (span_cons_other (ch "[") (ch "]") c s Esq) as Hs.
    destruct (lastIndex (ch "}") s) as [j|] eqn:El.
    + cbn [option_map match_text index].
      unfold bracketedSubstring. rewrite Hc, Hs.
      replace (S (S i + j) - i) with (S (S j)) by lia.
      destruct (span (ch "[") (ch "]") s) as [[i' j']|]; reflexivity.
    + rewrite IH. symmetry. apply bracketedSubstring_shift; [|exact Hs].
      rewrite Hc. unfold span. rewrite El.
      destruct (firstIndex (ch "{") s); reflexivity.
  - pose proof (span_cons_other (ch "{") (ch "}") c s Ecurly) as Hc.
    destruct (c =? ch "[")%N eqn:Esq.
    + assert (Ecl : (c =? ch "]")%N = false).
      { apply N.eqb_eq in Esq. subst c. reflexivity. }
      pose proof (span_cons_open (ch "[") (ch "]") c s Esq Ecl) as Hs.
      unfold closeAt. destruct (lastIndex (ch "]") s) as [j|] eqn:El.
      * cbn [option_map match_text index].
        unfold bracketedSubstring. rewrite Hc, Hs.
        replace (S (S i + j) - i) with (S (S j)) by lia.
        destruct (span (ch "{") (ch "}") s) as [[i' j']|]; reflexivity.
      * rewrite IH. symmetry. apply bracketedSubstring_shift; [exact Hc|].
        rewrite Hs. unfold span. rewrite El.
        destruct (firstIndex (ch "[") s); reflexivity.
    + rewrite IH. symmetry. apply bracketedSubstring_shift; [exact Hc|].
      now apply span_cons_other.
Qed.

(** C7.  extractJson is the procedure the specification describes: the
    fence markers [```json] (in any letter case) and [```] are stripped and
    the text trimmed; the result is parsed; when that fails, the substring
    from the first opening brace to the last closing brace, or from the
    first opening square bracket to the last closing one, whichever starts
    first, is parsed; when that fails too, or nothing is left after
    stripping, the result is the empty array.  extractJson is a total
    function of its text: no input makes it throw. *)
Theorem extractJson_as_described :
  forall text, extractJson text = extractJson_described text.
Proof.
  intro text. rewrite extractJson_by_cleaned, cleanFences_described.
  unfold extractJson_described.
  destruct (trim (stripFences text)) as [|c cleaned]; [reflexivity|].
  destruct (JSON_parse (c :: cleaned)); [reflexivity|].
  unfold exec. rewrite <- (searchFrom_bracketed (c :: cleaned) 0).
  destruct (searchFrom bracketed (c :: cleaned) 0); reflexivity.
Qed.

(** *** callLLM *)

Lemma providerCase_groq : forall p,
  providerCase p = CaseGroq <-> toLowerCase p = lit "groq".
Proof.
  intro p. unfold providerCase.
  destruct (str_eqb (toLowerCase p) (lit "groq")) eqn:E.
  - apply str_eqb_eq in E. tauto.
  - apply str_eqb_neq in E.
    destruct (str_eqb (toLowerCase p) (lit "gemini")); split; intro H;
      try discriminate; contradiction.
Qed.

Lemma providerCase_gemini : forall p,
  providerCase p = CaseGemini <-> toLowerCase p = lit "gemini".
Proof.
  intro p. unfold providerCase.
  destruct (str_eqb (toLowerCase p) (lit "groq")) eqn:E.
  - apply str_eqb_eq in E. split; intro H; [discriminate|].
    rewrite H in E. discriminate.
  - destruct (str_eqb (toLowerCase p) (lit "gemini")) eqn:E'.
    + apply str_eqb_eq in E'. tauto.
    + apply str_eqb_neq in E'. split; intro H; [discriminate|contradiction].
Qed.

Lemma providerCase_default : forall p,
  providerCase p = CaseDefault <->
  toLowerCase p <> lit "groq" /\ toLowerCase p <> lit "gemini".
Proof.
  intro p. unfold providerCase.
  destruct (str_eqb (toLowerCase p) (lit "groq")) eqn:E.
  - apply str_eqb_eq in E. split; [discriminate|]. intros [H _]. contradiction.
  - apply str_eqb_neq in E.
    destruct (str_eqb (toLowerCase p) (lit "gemini")) eqn:E'.
    + apply str_eqb_eq in E'. split; [discriminate|]. intros [_ H]. contradiction.
    + apply str_eqb_neq in E'. tauto.
Qed.

Lemma callLLM_unknown : forall env w provider messages max_tokens,
  providerCase provider = CaseDefault ->
  callLLM env w provider messages max_tokens = Throw (unknownProvider provider).
Proof. intros * H. unfold callLLM. now rewrite H. Qed.

(** C10.  The dispatcher of callLLM compares the lower-cased provider
    name: a name whose lower-case form is [groq] (resp. [gemini]) runs
    callGroq (resp. callGemini) exactly as the lower-case name itself does,
    for all messages and token budgets; the default branch, which throws
    the unknown-provider error without any call, is taken exactly when the
    lower-case form is neither; [GROQ] and [Gemini] select their variants. *)
Theorem callLLM_dispatch_ignores_case :
  forall env w provider messages max_tokens,
    (toLowerCase provider = lit "groq" ->
       callLLM env w provider messages max_tokens = callGroq env w messages max_tokens
       /\ callLLM env w provider messages max_tokens
          = callLLM env w (lit "groq") messages max_tokens)
    /\ (toLowerCase provider = lit "gemini" ->
       callLLM env w provider messages max_tokens = callGemini env w messages
       /\ callLLM env w provider messages max_tokens
          = callLLM env w (lit "gemini") messages max_tokens)
    /\ (providerCase provider = CaseDefault <->
        toLowerCase provider <> lit "groq" /\ toLowerCase provider <> lit "gemini")
    /\ (providerCase provider = CaseDefault ->
        callLLM env w provider messages max_tokens = Throw (unknownProvider provider))
    /\ providerCase (lit "GROQ") = CaseGroq
    /\ providerCase (lit "Gemini") = CaseGemini.
Proof.
  intros env w provider messages max_tokens.
  split; [|split; [|split; [|split; [|split]]]].
  - intro H. apply providerCase_groq in H. unfold callLLM. now rewrite H.
  - intro H. apply providerCase_gemini in H. unfold callLLM. now rewrite H.
  - apply providerCase_default.
  - apply callLLM_unknown.
  - reflexivity.
  - reflexivity.
Qed.

Lemma callLLM_dispatch_witness :
  callLLM quietEnv deadWorld (lit "GeMiNi") [] 1000
  = callLLM quietEnv deadWorld (lit "gemini") [] 1000.
Proof.
  apply (proj1 (proj2 (callLLM_dispatch_ignores_case quietEnv deadWorld (lit "GeMiNi") [] 1000))).
  reflexivity.
Defined.

(** *** Replies without fences *)

Lemma trimStart_snoc : forall l c,
  isSpace c = false -> trimStart (l ++ [c]) = trimStart l ++ [c].
Proof.
  intros l c Hc. induction l as [|d l IH]; simpl.
  - now rewrite Hc.
  - destruct (isSpace d); [exact IH | reflexivity].
Qed.

Lemma trimEnd_cons : forall c s,
  isSpace c = false -> trimEnd (c :: s) = c :: trimEnd s.
Proof.
  intros c s Hc. unfold trimEnd. simpl rev.
  rewrite trimStart_snoc by exact Hc. rewrite rev_app_distr. reflexivity.
Qed.

Lemma trimEnd_idempotent : forall s, trimEnd (trimEnd s) = trimEnd s.
Proof.
  intro s. unfold trimEnd. rewrite rev_involutive.
  now rewrite trim_idempotent_start.
Qed.

Lemma trim_idempotent : forall s, trim (trim s) = trim s.
Proof.
  intro s. unfold trim.
  assert (H : forall a, trimStart a = a -> trimStart (trimEnd a) = trimEnd a).
  { intros a Ha. destruct a as [|c a]; [reflexivity|].
    simpl in Ha. destruct (isSpace c) eqn:Hc.
    - exfalso. assert (L : List.length (trimStart a) <= List.length a).
      { clear. induction a as [|d a IH]; simpl; [lia|].
        destruct (isSpace d); simpl; lia. }
      rewrite Ha in L. simpl in L. lia.
    - rewrite trimEnd_cons by exact Hc. simpl. now rewrite Hc. }
  rewrite H by apply trim_idempotent_start.
  apply trimEnd_idempotent.
Qed.

Lemma sameIgnoringCase_backtick : forall c,
  c <> ch "`" -> sameIgnoringCase (ch "`") c = false.
Proof.
  intros c Hc. unfold sameIgnoringCase, upperAscii, isLowerAscii.
  change (ch "`") with 96%N in *. simpl.
  destruct ((97 <=? c)%N && (c <=? 122)%N) eqn:E.
  - apply andb_true_iff in E as [E1 E2]. apply N.leb_le in E1, E2.
    apply N.eqb_neq. lia.
  - now apply N.eqb_neq.
Qed.

Lemma stripFrom_no_start : forall same m mark s,
  Forall (fun c => same m c = false) s ->
  stripFrom same (m :: mark) s 0 = s.
Proof.
  intros same m mark s H. induction H as [|c s Hc _ IH]; [reflexivity|].
  cbn [stripFrom hasPrefix]. rewrite Hc. simpl. now rewrite IH.
Qed.

Lemma stripFences_plain : forall s, noBacktick s -> stripFences s = s.
Proof.
  intros s H. unfold stripFences, strip.
  change (lit "```json") with (ch "`" :: lit "``json").
  change (lit "```") with (ch "`" :: lit "``").
  rewrite (stripFrom_no_start sameIgnoringCase).
  - apply stripFrom_no_start. eapply Forall_impl; [|exact H].
    intros c Hc. now apply N.eqb_neq, not_eq_sym.
  - eapply Forall_impl; [|exact H]. intros c Hc.
    now apply sameIgnoringCase_backtick.
Qed.

Lemma call_trim_trimmed : forall v text, call_trim v = Ok text -> trim text = text.
Proof.
  intros v text H. destruct v; simpl in H; try discriminate.
  injection H as <-. apply trim_idempotent.
Qed.

Ltac unbind H :=
  repeat match type of H with
         | bind ?r _ = Ok _ => destruct r eqn:?; cbn [bind] in H; [|discriminate H]
         | (if ?b then _ else _) = Ok _ => destruct b eqn:?; [try discriminate H|try discriminate H]
         | (let x := _ in _) = _ => cbv zeta in H
         end.

(** What callLLM returns has been trimmed. *)
Lemma callLLM_trimmed : forall env w provider messages max_tokens text,
  callLLM env w provider messages max_tokens = Ok text -> trim text = text.
Proof.
  intros env w provider messages max_tokens text. unfold callLLM.
  destruct (providerCase provider); [| |discriminate].
  - unfold callGroq. intro H. unbind H. now apply call_trim_trimmed in H.
  - unfold callGemini, try_catch.
    destruct (geminiRequest env w messages) as [t|] eqn:E; [|discriminate].
    intro H. injection H as ->. unfold geminiRequest in E.
    unbind E. now apply call_trim_trimmed in E.
Qed.

(** A reply without backticks is cleaned to itself. *)
Lemma cleanFences_plain : forall env w provider messages max_tokens text,
  callLLM env w provider messages max_tokens = Ok text ->
  noBacktick text ->
  cleanFences text = text.
Proof.
  intros env w provider messages max_tokens text Hcall Hplain.
  rewrite cleanFences_described, stripFences_plain by exact Hplain.
  now apply callLLM_trimmed in Hcall.
Qed.

(** *** getTranscript *)

Lemma primaryFails_throws : forall w videoId,
  primaryFails w videoId -> exists e, primaryTranscript w videoId = Throw e.
Proof.
  intros w videoId [[e He] | [data [Hd H]]]; unfold primaryTranscript.
  - rewrite He. simpl. eauto.
  - rewrite Hd. simpl. destruct H as [Hf | [t [Ht Hf]]].
    + rewrite Hf. eauto.
    + destruct (truthy data); [|eauto]. rewrite Ht. simpl. rewrite Hf. eauto.
Qed.

(** C8.  When the transcript endpoint fails, or answers without a
    non-empty [transcript], getTranscript gives the description that
    getYouTubeVideoData fetched, or the text [No transcript available.] when
    the description is empty too.  The error of the transcript call is
    dropped: the only exception that can leave getTranscript is the one
    getYouTubeVideoData itself raises. *)
Theorem getTranscript_falls_back_to_description :
  forall env w videoId,
    primaryFails w videoId ->
    (forall videoData,
        getYouTubeVideoData env w videoId = Ok videoData ->
        getTranscript env w videoId
        = Ok (if truthy (description videoData) then description videoData
              else JStr (lit "No transcript available.")))
    /\ (forall videoData,
        getYouTubeVideoData env w videoId = Ok videoData ->
        description videoData = JStr [] ->
        getTranscript env w videoId = Ok (JStr (lit "No transcript available.")))
    /\ (forall e,
        getYouTubeVideoData env w videoId = Throw e ->
        getTranscript env w videoId = Throw e).
Proof.
  intros env w videoId Hfail.
  destruct (primaryFails_throws w videoId Hfail) as [e0 He0].
  unfold getTranscript. rewrite He0. simpl.
  split; [|split].
  - intros videoData Hv. rewrite Hv. reflexivity.
  - intros videoData Hv Hd. rewrite Hv. simpl. unfold or_else. now rewrite Hd.
  - intros e Hv. rewrite Hv. reflexivity.
Qed.

Lemma getTranscript_fallback_witness :
  getTranscript quietEnv
    (videoWorld (Throw refused) (JStr (lit "Light becomes sugar.")))
    (lit "dQw4w9WgXcQ")
  = Ok (JStr (lit "Light becomes sugar.")).
Proof.
  assert (Hfail : primaryFails
            (videoWorld (Throw refused) (JStr (lit "Light becomes sugar.")))
            (lit "dQw4w9WgXcQ")).
  { left. exists refused. reflexivity. }
  destruct (getTranscript_falls_back_to_description quietEnv _ _ Hfail) as [H _].
  exact (H (mkVideoData (JStr (lit "Photosynthesis")) (JStr (lit "Light becomes sugar."))
              (JStr (lit "Biology")) (JStr (lit "2020-01-01T00:00:00Z"))
              (JStr (lit "https://i.ytimg.com/vi/x/default.jpg")))
           eq_refl).
Defined.

(** *** analyzeCoverage *)

Lemma failureReport_length : forall subtopics provider,
  List.length (subtopicAnalysis (failureReport subtopics provider))
  = List.length subtopics.
Proof. intros. simpl. apply length_map. Qed.

Lemma failureReport_nth : forall subtopics provider i sub,
  nth_error subtopics i = Some sub ->
  nth_error (subtopicAnalysis (failureReport subtopics provider)) i
  = Some (mkItem (JStr sub) 0 false failedEvidence).
Proof.
  intros subtopics provider i sub H. simpl.
  rewrite nth_error_map, H. reflexivity.
Qed.

Lemma analysis_callLLM_throws : forall env w transcript subtopics provider e,
  callLLM env w provider (buildMessages transcript subtopics) 2000 = Throw e ->
  analysis env w transcript subtopics provider = Throw e.
Proof. intros * H. unfold analysis. rewrite H. reflexivity. Qed.

Lemma analyzeCoverage_caught : forall env w transcript subtopics provider e,
  analysis env w transcript subtopics provider = Throw e ->
  analyzeCoverage env w transcript subtopics provider
  = Ok (failureReport subtopics provider).
Proof. intros * H. unfold analyzeCoverage. rewrite H. reflexivity. Qed.

Lemma analyzeCoverage_returns : forall env w transcript subtopics provider,
  exists report, analyzeCoverage env w transcript subtopics provider = Ok report.
Proof.
  intros. unfold analyzeCoverage.
  destruct (analysis env w transcript subtopics provider); simpl; eauto.
Qed.

(** C3.  When the analysis raises an exception, in particular when the
    call to the LLM fails or the provider name is not recognised,
    analyzeCoverage returns a report with overallScore 0 and one item per
    requested subtopic, in the order of the request, each with score 0,
    not covered, and the evidence [Failed to generate coverage analysis.]. *)
Theorem analyzeCoverage_failure_report :
  forall env w transcript subtopics provider,
    (exists e, callLLM env w provider (buildMessages transcript subtopics) 2000 = Throw e)
    \/ providerCase provider = CaseDefault
    \/ (exists e, analysis env w transcript subtopics provider = Throw e) ->
    exists report,
      analyzeCoverage env w transcript subtopics provider = Ok report
      /\ overallScore report = RoundedInt 0
      /\ List.length (subtopicAnalysis report) = List.length subtopics
      /\ forall i sub,
           nth_error subtopics i = Some sub ->
           nth_error (subtopicAnalysis report) i
           = Some (mkItem (JStr sub) 0 false
                     (JStr (lit "Failed to generate coverage analysis."))).
Proof.
  intros env w transcript subtopics provider H.
  assert (Hthrow : exists e, analysis env w transcript subtopics provider = Throw e).
  { destruct H as [[e He] | [Hp | He]].
    - exists e. now apply analysis_callLLM_throws.
    - exists (unknownProvider provider). apply analysis_callLLM_throws.
      now apply callLLM_unknown.
    - exact He. }
  destruct Hthrow as [e He].
  exists (failureReport subtopics provider). split; [|split; [|split]].
  - now apply analyzeCoverage_caught with e.
  - reflexivity.
  - apply failureReport_length.
  - intros i sub Hi. now apply failureReport_nth.
Qed.

Lemma analyzeCoverage_failure_witness :
  exists report,
    analyzeCoverage quietEnv deadWorld photosynthesis twoSubtopics (lit "groq") = Ok report
    /\ overallScore report = RoundedInt 0
    /\ List.length (subtopicAnalysis report) = 2
    /\ forall i sub,
         nth_error twoSubtopics i = Some sub ->
         nth_error (subtopicAnalysis report) i
         = Some (mkItem (JStr sub) 0 false
                   (JStr (lit "Failed to generate coverage analysis."))).
Proof.
  apply (analyzeCoverage_failure_report quietEnv deadWorld photosynthesis
           twoSubtopics (lit "groq")).
  left. exists refused. reflexivity.
Defined.

(** What the callback of [map] yields. *)
Lemma normalizeItem_spec : forall item it,
  normalizeItem item = Ok it ->
  exists sub raw n ev,
    get item (lit "subtopic") = Ok sub
    /\ get item (lit "coverageScore") = Ok raw
    /\ parseIntOrZero raw = Ok n
    /\ get item (lit "evidence") = Ok ev
    /\ it = mkItem sub (Z.min (Z.max n 0) 100) (50 <=? n)%Z (or_else ev noEvidence).
Proof.
  intros item it. unfold normalizeItem.
  destruct (get item (lit "subtopic")) as [sub|] eqn:Hs; simpl; [|discriminate].
  destruct (get item (lit "coverageScore")) as [raw|] eqn:Hr; simpl; [|discriminate].
  destruct (parseIntOrZero raw) as [n|] eqn:Hn; simpl; [|discriminate].
  destruct (get item (lit "evidence")) as [ev|] eqn:He; simpl; [|discriminate].
  intro H. injection H as <-. exists sub, raw, n, ev. repeat split; assumption.
Qed.



Lemma clamp_bounds : forall n, (0 <= Z.min (Z.max n 0) 100 <= 100)%Z.
Proof. intro n. lia. Qed.

Lemma clamp_covered : forall n,
  (50 <=? n)%Z = true <-> (50 <= Z.min (Z.max n 0) 100)%Z.
Proof. intro n. rewrite Z.leb_le. lia. Qed.

Lemma mapItems_Forall2 : forall items normalized,
  mapItems items = Ok normalized ->
  Forall2 (fun item it => normalizeItem item = Ok it) items normalized.
Proof.
  induction items as [|item items IH]; intros normalized H; simpl in H.
  - injection H as <-. constructor.
  - destruct (normalizeItem item) as [it|] eqn:Hi; simpl in H; [|discriminate].
    destruct (mapItems items) as [its|] eqn:Hm; simpl in H; [|discriminate].
    injection H as <-. constructor; [assumption | now apply IH].
Qed.

Lemma mapItems_length : forall items normalized,
  mapItems items = Ok normalized -> List.length normalized = List.length items.
Proof.
  intros items normalized H. apply mapItems_Forall2 in H.
  symmetry. eapply Forall2_length; eassumption.
Qed.

Lemma fold_left_scores : forall l acc,
  fold_left (fun sum s => (sum + coverageScore s)%Z) l acc
  = (acc + sumOf (map coverageScore l))%Z.
Proof.
  induction l as [|x l IH]; intro acc; simpl.
  - lia.
  - rewrite IH. unfold sumOf. simpl. lia.
Qed.

Lemma totalScore_sum : forall l, totalScore l = sumOf (map coverageScore l).
Proof. intro l. unfold totalScore. rewrite fold_left_scores. lia. Qed.

Lemma roundQuotient_mean : forall (l : list CoverageItem),
  l <> [] ->
  exists z,
    roundQuotient (totalScore l) (Z.of_nat (List.length l)) = RoundedInt z
    /\ roundedMean (map coverageScore l) z.
Proof.
  intros l Hl. unfold roundQuotient.
  assert (Hn : (0 < Z.of_nat (List.length l))%Z) by (destruct l; [contradiction | simpl; lia]).
  destruct (Z.of_nat (List.length l) =? 0)%Z eqn:E; [apply Z.eqb_eq in E; lia|].
  eexists. split; [reflexivity|].
  unfold roundedMean. rewrite length_map, <- totalScore_sum.
  set (n := Z.of_nat (List.length l)) in *.
  set (t := totalScore l).
  pose proof (Z.mul_div_le (2 * t + n) (2 * n) ltac:(lia)).
  pose proof (Z.mul_succ_div_gt (2 * t + n) (2 * n) ltac:(lia)).
  lia.
Qed.

Lemma sumOf_failed : forall subtopics,
  sumOf (map coverageScore (map failedItem subtopics)) = 0%Z.
Proof. induction subtopics as [|s l IH]; simpl; [reflexivity|]. unfold sumOf in *. simpl. lia. Qed.

(** *** extractJson: what a reply that parses is read as *)

Lemma extractJson_parsed : forall text v,
  JSON_parse (cleanFences text) = Ok v -> extractJson text = v.
Proof.
  intros text v H. unfold extractJson.
  destruct text as [|c text]; [discriminate H|].
  destruct (cleanFences (c :: text)) as [|d cleaned]; [discriminate H|].
  now rewrite H.
Qed.

Lemma analysis_success : forall env w transcript subtopics provider text normalized,
  callLLM env w provider (buildMessages transcript subtopics) 2000 = Ok text ->
  mapValue (extractJson text) = Ok normalized ->
  analyzeCoverage env w transcript subtopics provider
  = Ok (mkReport
          (roundQuotient (totalScore normalized) (Z.of_nat (List.length normalized)))
          normalized
          (lit "Overall coverage based on " ++ decimal (N.of_nat (List.length subtopics))
           ++ lit " subtopics using " ++ provider ++ lit ".")).
Proof.
  intros * Hcall Hmap. unfold analyzeCoverage, analysis.
  rewrite Hcall. simpl. rewrite Hmap. reflexivity.
Qed.

(** C2.  What the code does when extraction yields no item: no guard
    stands before the division, the failure path is not taken, and the
    report carries the NaN that rounding zero by zero gives, an empty
    subtopicAnalysis and the summary of a successful analysis. *)
Theorem analyzeCoverage_zero_items_unguarded :
  forall env w transcript subtopics provider text,
    callLLM env w provider (buildMessages transcript subtopics) 2000 = Ok text ->
    extractJson text = JArr [] ->
    analyzeCoverage env w transcript subtopics provider
    = Ok (mkReport RoundedNaN []
            (lit "Overall coverage based on " ++ decimal (N.of_nat (List.length subtopics))
             ++ lit " subtopics using " ++ provider ++ lit "."))
    /\ (subtopics <> [] ->
        analyzeCoverage env w transcript subtopics provider
        <> Ok (failureReport subtopics provider)).
Proof.
  intros env w transcript subtopics provider text Hcall Hjson.
  assert (E : analyzeCoverage env w transcript subtopics provider
              = Ok (mkReport RoundedNaN []
                      (lit "Overall coverage based on "
                       ++ decimal (N.of_nat (List.length subtopics))
                       ++ lit " subtopics using " ++ provider ++ lit "."))).
  { rewrite (analysis_success env w transcript subtopics provider text [] Hcall).
    - reflexivity.
    - rewrite Hjson. reflexivity. }
  split; [exact E|].
  intros Hne. rewrite E. intro H. injection H as H _. discriminate H.
Qed.

Lemma analyzeCoverage_zero_items_witness :
  analyzeCoverage quietEnv (replyWorld (lit "   ")) photosynthesis twoSubtopics (lit "groq")
  = Ok (mkReport RoundedNaN [] (lit "Overall coverage based on 2 subtopics using groq.")).
Proof.
  apply (analyzeCoverage_zero_items_unguarded quietEnv (replyWorld (lit "   "))
           photosynthesis twoSubtopics (lit "groq") []); reflexivity.
Defined.

(** C1.  analyzeCoverage returns a report for every transcript, subtopic
    list and provider name, whatever the services answer: it never throws.
    A failed call and an unknown provider give the zero-score report, but a
    reply that is not JSON at all does not: for the reply below the report
    has overallScore NaN and no item. *)
Theorem analyzeCoverage_never_throws_but_nan :
  (forall env w transcript subtopics provider,
      exists report, analyzeCoverage env w transcript subtopics provider = Ok report)
  /\ analyzeCoverage quietEnv (replyWorld (lit "Sorry, I cannot analyse this transcript."))
       photosynthesis twoSubtopics (lit "groq")
     = Ok (mkReport RoundedNaN []
             (lit "Overall coverage based on 2 subtopics using groq."))
  /\ analyzeCoverage quietEnv (replyWorld (lit "Sorry, I cannot analyse this transcript."))
       photosynthesis twoSubtopics (lit "groq")
     <> Ok (failureReport twoSubtopics (lit "groq")).
Proof.
  split; [exact analyzeCoverage_returns|].
  split; [vm_compute; reflexivity|].
  vm_compute. intro H. discriminate H.
Qed.

(** The conclusion of C4 for a reply that is read as an array of as many
    items as subtopics were requested. *)
Lemma analyzeCoverage_array_reply :
  forall env w transcript subtopics provider text items,
    callLLM env w provider (buildMessages transcript subtopics) 2000 = Ok text ->
    JSON_parse (cleanFences text) = Ok (JArr items) ->
    List.length items = List.length subtopics ->
    exists report,
      analyzeCoverage env w transcript subtopics provider = Ok report
      /\ List.length (subtopicAnalysis report) = List.length subtopics
      /\ (subtopics <> [] ->
          exists z,
            overallScore report = RoundedInt z
            /\ roundedMean (map coverageScore (subtopicAnalysis report)) z).
Proof.
  intros env w transcript subtopics provider text items Hcall Hparse Hlen.
  apply extractJson_parsed in Hparse.
  destruct (mapItems items) as [normalized | e] eqn:Hmap.
  - eexists. split.
    + apply (analysis_success env w transcript subtopics provider text normalized Hcall).
      rewrite Hparse. exact Hmap.
    + simpl. apply mapItems_length in Hmap. split; [congruence|].
      intro Hne. apply roundQuotient_mean.
      intro Hnil. rewrite Hnil in Hmap. simpl in Hmap.
      destruct subtopics; [contradiction | simpl in Hlen; lia].
  - exists (failureReport subtopics provider). split.
    + apply analyzeCoverage_caught with e. unfold analysis.
      rewrite Hcall. simpl. rewrite Hparse. simpl. rewrite Hmap. reflexivity.
    + split; [apply failureReport_length|].
      intro Hne. exists 0%Z. split; [reflexivity|].
      unfold roundedMean. simpl subtopicAnalysis.
      rewrite sumOf_failed, !length_map.
      destruct subtopics; [contradiction | simpl List.length; lia].
Qed.

(** C4.  When the reply of the LLM is a JSON array of as many items as
    subtopics were requested (the reply itself when it holds no backtick,
    in general the reply with its code fences removed), the report has
    that many items and, for a non-empty request, its overallScore is the
    arithmetic mean of the items' scores rounded to the nearest integer.
    The reply of the example, scores 80 and 60, gives overallScore 70 and
    two covered items. *)
Theorem analyzeCoverage_length_and_mean :
  (forall env w transcript subtopics provider text items,
      callLLM env w provider (buildMessages transcript subtopics) 2000 = Ok text ->
      (JSON_parse (cleanFences text) = Ok (JArr items)
       \/ (noBacktick text /\ JSON_parse text = Ok (JArr items))) ->
      List.length items = List.length subtopics ->
      exists report,
        analyzeCoverage env w transcript subtopics provider = Ok report
        /\ List.length (subtopicAnalysis report) = List.length subtopics
        /\ (subtopics <> [] ->
            exists z,
              overallScore report = RoundedInt z
              /\ roundedMean (map coverageScore (subtopicAnalysis report)) z))
  /\ analyzeCoverage quietEnv (replyWorld goodReply) photosynthesis twoSubtopics (lit "groq")
     = Ok (mkReport (RoundedInt 70)
             [mkItem (JStr (lit "light reactions")) 80 true (JStr (lit "..."));
              mkItem (JStr (lit "energy conversion")) 60 true (JStr (lit "..."))]
             (lit "Overall coverage based on 2 subtopics using groq.")).
Proof.
  split; [|vm_compute; reflexivity].
  intros env w transcript subtopics provider text items Hcall Hparse Hlen.
  apply (analyzeCoverage_array_reply env w transcript subtopics provider text items);
    try assumption.
  destruct Hparse as [H | [Hplain H]]; [exact H|].
  now rewrite (cleanFences_plain env w provider _ _ text Hcall Hplain).
Qed.

Lemma analyzeCoverage_length_and_mean_witness :
  exists report,
    analyzeCoverage quietEnv (replyWorld goodReply) photosynthesis twoSubtopics (lit "groq")
    = Ok report
    /\ List.length (subtopicAnalysis report) = 2
    /\ (twoSubtopics <> [] ->
        exists z,
          overallScore report = RoundedInt z
          /\ roundedMean (map coverageScore (subtopicAnalysis report)) z).
Proof.
  refine (proj1 analyzeCoverage_length_and_mean quietEnv (replyWorld goodReply)
            photosynthesis twoSubtopics (lit "groq") goodReply _ _ _ _).
  - reflexivity.
  - left. vm_compute. reflexivity.
  - reflexivity.
Defined.

Lemma mapValue_array : forall v normalized,
  mapValue v = Ok normalized ->
  exists raws, v = JArr raws /\ mapItems raws = Ok normalized.
Proof.
  intros v normalized H. destruct v; simpl in H; try discriminate.
  eexists. split; [reflexivity | assumption].
Qed.

Lemma analysis_inv : forall env w transcript subtopics provider report,
  analysis env w transcript subtopics provider = Ok report ->
  exists text raws,
    callLLM env w provider (buildMessages transcript subtopics) 2000 = Ok text
    /\ extractJson text = JArr raws
    /\ mapItems raws = Ok (subtopicAnalysis report).
Proof.
  intros env w transcript subtopics provider report. unfold analysis.
  destruct (callLLM env w provider (buildMessages transcript subtopics) 2000)
    as [text|] eqn:Hcall; simpl; [|discriminate].
  destruct (mapValue (extractJson text)) as [normalized|] eqn:Hmap; simpl; [|discriminate].
  intro H. injection H as <-. simpl.
  apply mapValue_array in Hmap as [raws [Hj Hm]].
  exists text, raws. auto.
Qed.

Lemma Forall2_In_r : forall (A B : Type) (P : A -> B -> Prop) l l' y,
  Forall2 P l l' -> In y l' -> exists x, In x l /\ P x y.
Proof.
  intros A B P l l' y H. induction H as [|x y' l l' Hp _ IH]; intro Hin.
  - contradiction.
  - destruct Hin as [<- | Hin].
    + exists x. split; [now left | assumption].
    + destruct (IH Hin) as [x' [Hx' Hp']]. exists x'. split; [now right | assumption].
Qed.




(** *** The video pattern *)

Lemma total_Some : total Some.
Proof. intros st H. discriminate H. Qed.

Lemma takeRun_length_firstn : forall p s,
  firstn (List.length (takeRun p s)) s = takeRun p s.
Proof.
  induction s as [|c s IH]; simpl; [reflexivity|].
  destruct (p c); simpl; [now rewrite IH | reflexivity].
Qed.

(** Before a continuation that never fails, a greedy run is the longest
    one. *)
Lemma star_total : forall p s i caps k,
  total k ->
  star p s i caps k
  = k (mkState (dropRun p s) (List.length (takeRun p s) + i) caps).
Proof.
  intros p s i caps k Hk. revert i.
  induction s as [|c s IH]; intro i; simpl; [reflexivity|].
  destruct (p c); [|reflexivity].
  rewrite IH. simpl.
  replace (List.length (takeRun p s) + S i) with (S (List.length (takeRun p s) + i)) by lia.
  destruct (k (mkState (dropRun p s) (S (List.length (takeRun p s) + i)) caps)) eqn:E;
    [reflexivity | now apply Hk in E].
Qed.

Lemma opt_total : forall q s i caps k,
  total k ->
  run (Opt (Class q)) (mkState s i caps) k
  = k (mkState (dropOpt q s) (List.length s - List.length (dropOpt q s) + i) caps).
Proof.
  intros q s i caps k Hk. cbn [run ahead index captures].
  destruct s as [|c s]; [reflexivity|]. cbn [dropOpt].
  destruct (q c).
  - replace (List.length (c :: s) - List.length s + i) with (S i)
      by (cbn [List.length]; lia).
    destruct (k (mkState s (S i) caps)) eqn:E; [reflexivity | now apply Hk in E].
  - now replace (List.length (c :: s) - List.length (c :: s) + i) with i by lia.
Qed.


Lemma run_behindMarker : forall s i caps,
  exists rest j,
    run behindMarker (mkState s i caps) Some
    = Some (mkState rest j ((7, candidate s) :: caps)).
Proof.
  intros s i caps. unfold behindMarker.
  change (seq [Opt (chr "?"); Opt (chr "v"); Opt (chr "=");
               Group 7 (Star notSeparator); Star dot])
    with (Seq (Opt (Class (N.eqb (ch "?"))))
           (Seq (Opt (Class (N.eqb (ch "v"))))
             (Seq (Opt (Class (N.eqb (ch "="))))
               (Seq (Group 7 (Star notSeparator)) (Star dot))))).
  assert (T5 : total (fun st => run (Star dot) st Some)).
  { intros st. cbn [run]. rewrite star_total by apply total_Some. discriminate. }
  assert (T4 : total (fun st => run (Seq (Group 7 (Star notSeparator)) (Star dot)) st Some)).
  { intros st. cbn [run]. rewrite star_total.
    - exact (T5 (mkState _ _ _)).
    - intros st'. exact (T5 (mkState _ _ _)). }
  assert (T3 : total (fun st =>
            run (Seq (Opt (Class (N.eqb (ch "="))))
                   (Seq (Group 7 (Star notSeparator)) (Star dot))) st Some)).
  { intros [s' i' caps']. rewrite run_seq, opt_total by exact T4.
    exact (T4 (mkState _ _ _)). }
  assert (T2 : total (fun st =>
            run (Seq (Opt (Class (N.eqb (ch "v"))))
                   (Seq (Opt (Class (N.eqb (ch "="))))
                      (Seq (Group 7 (Star notSeparator)) (Star dot)))) st Some)).
  { intros [s' i' caps']. rewrite run_seq, opt_total by exact T3.
    exact (T3 (mkState _ _ _)). }
  rewrite run_seq, opt_total by exact T2.
  rewrite run_seq, opt_total by exact T3.
  rewrite run_seq, opt_total by exact T4.
  set (s3 := dropOpt (N.eqb (ch "=")) (dropOpt (N.eqb (ch "v")) (dropOpt (N.eqb (ch "?")) s))).
  rewrite run_seq. cbn [run ahead index captures].
  rewrite star_total.
  - cbn [ahead index captures]. rewrite star_total by apply total_Some.
    eexists. eexists. f_equal. f_equal. f_equal. f_equal.
    match goal with |- firstn ?n _ = _ =>
      replace n with (List.length (takeRun notSeparator s3)) by lia end.
    apply takeRun_length_firstn.
  - intros st'. cbn [ahead index captures].
    rewrite star_total by apply total_Some. discriminate.
Qed.

Lemma marker_classes : forall st k,
  run marker st k
  = run (Alt (Group 2 (seq (map Class youtubeClasses)))
        (Alt (Group 3 (seq (map Class vClasses)))
        (Alt (Group 4 (seq (map Class uClasses)))
        (Alt (Group 5 (seq (map Class embedClasses)))
             (Group 6 (seq (map Class watchClasses))))))) st k.
Proof. reflexivity. Qed.

Lemma run_group_classes : forall g ps s i caps k,
  ps <> [] ->
  run (Group g (seq (map Class ps))) (mkState s i caps) k
  = match prefixBy ps s with
    | Some rest =>
        k (mkState rest (List.length ps + i) ((g, firstn (List.length ps) s) :: caps))
    | None => None
    end.
Proof.
  intros g ps s i caps k Hps. cbn [run]. rewrite run_classes by exact Hps.
  destruct (prefixBy ps s); [|reflexivity].
  cbn [ahead index captures].
  now replace (List.length ps + i - i) with (List.length ps) by lia.
Qed.

Lemma run_alt_total : forall g ps r2 s i caps k,
  ps <> [] ->
  total k ->
  run (Alt (Group g (seq (map Class ps))) r2) (mkState s i caps) k
  = match prefixBy ps s with
    | Some rest =>
        k (mkState rest (List.length ps + i) ((g, firstn (List.length ps) s) :: caps))
    | None => run r2 (mkState s i caps) k
    end.
Proof.
  intros g ps r2 s i caps k Hps Hk. rewrite run_alt, run_group_classes by exact Hps.
  destruct (prefixBy ps s) as [rest|]; [|reflexivity].
  destruct (k _) eqn:E; [reflexivity | now apply Hk in E].
Qed.

(** Group 1 before a continuation that never fails: the first marker
    that matches here. *)
Lemma run_marker : forall s i caps k,
  total k ->
  run (Group 1 marker) (mkState s i caps) k
  = match markerAt s with
    | Some (g, n, rest) =>
        k (mkState rest (n + i) ((1, firstn n s) :: (g, firstn n s) :: caps))
    | None => None
    end.
Proof.
  intros s i caps k Hk. cbn [run]. rewrite marker_classes.
  set (k1 := fun st' : mstate =>
               k (mkState (ahead st') (index st')
                    ((1, firstn (index st' - index (mkState s i caps))
                           (ahead (mkState s i caps))) :: captures st'))).
  assert (Hk1 : total k1) by (intro st'; apply Hk).
  unfold markerAt, markerAlternatives. cbn [firstAlternative].
  rewrite run_alt_total by (discriminate || exact Hk1).
  destruct (prefixBy youtubeClasses s) as [rest|].
  { unfold k1. cbn [ahead index captures].
    now replace (List.length youtubeClasses + i - i) with (List.length youtubeClasses) by lia. }
  rewrite run_alt_total by (discriminate || exact Hk1).
  destruct (prefixBy vClasses s) as [rest|].
  { unfold k1. cbn [ahead index captures].
    now replace (List.length vClasses + i - i) with (List.length vClasses) by lia. }
  rewrite run_alt_total by (discriminate || exact Hk1).
  destruct (prefixBy uClasses s) as [rest|].
  { unfold k1. cbn [ahead index captures].
    now replace (List.length uClasses + i - i) with (List.length uClasses) by lia. }
  rewrite run_alt_total by (discriminate || exact Hk1).
  destruct (prefixBy embedClasses s) as [rest|].
  { unfold k1. cbn [ahead index captures].
    now replace (List.length embedClasses + i - i) with (List.length embedClasses) by lia. }
  rewrite run_group_classes by discriminate.
  destruct (prefixBy watchClasses s) as [rest|]; [|reflexivity].
  unfold k1. cbn [ahead index captures].
  now replace (List.length watchClasses + i - i) with (List.length watchClasses) by lia.
Qed.


Lemma total_behindMarker : total (fun st => run behindMarker st Some).
Proof.
  intros [s i caps] H. destruct (run_behindMarker s i caps) as [rest [j E]].
  rewrite E in H. discriminate.
Qed.

Lemma fromMarker_none : forall s i caps,
  markerAt s = None -> fromMarker (mkState s i caps) = None.
Proof.
  intros s i caps H. unfold fromMarker. rewrite run_seq.
  rewrite run_marker by apply total_behindMarker. now rewrite H.
Qed.

Lemma fromMarker_some : forall s i caps g n rest,
  markerAt s = Some (g, n, rest) ->
  exists st,
    fromMarker (mkState s i caps) = Some st
    /\ group 7 (captures st) = Some (candidate rest).
Proof.
  intros s i caps g n rest H. unfold fromMarker. rewrite run_seq.
  rewrite run_marker by apply total_behindMarker. rewrite H.
  destruct (run_behindMarker rest (n + i) ((1, firstn n s) :: (g, firstn n s) :: caps))
    as [rest' [j E]].
  rewrite E. eexists. split; [reflexivity|]. reflexivity.
Qed.

Lemma lastMarker_markerAt : forall s n,
  lastMarker s = Some n -> markerAt (skipn n s) <> None.
Proof.
  induction s as [|c s IH]; intros n H.
  - cbn [lastMarker] in H. destruct (markerAt []) eqn:E; [|discriminate].
    injection H as <-. simpl. congruence.
  - cbn [lastMarker] in H.
    destruct (if dot c then lastMarker s else None) as [m|] eqn:E.
    + injection H as <-. destruct (dot c); [|discriminate]. simpl. now apply IH.
    + destruct (markerAt (c :: s)) eqn:E'; [|discriminate].
      injection H as <-. simpl. congruence.
Qed.

(** The greedy run before the marker stops at the last marker of the
    line. *)
Lemma star_dot_lastMarker : forall s i caps,
  star dot s i caps fromMarker
  = match lastMarker s with
    | Some n => fromMarker (mkState (skipn n s) (n + i) caps)
    | None => None
    end.
Proof.
  induction s as [|c s IH]; intros i caps.
  - cbn [star lastMarker]. destruct (markerAt []) eqn:E; [reflexivity|].
    now apply fromMarker_none.
  - cbn [star lastMarker].
    assert (Here : fromMarker (mkState (c :: s) i caps)
                   = match (match markerAt (c :: s) with
                            | Some _ => Some 0
                            | None => None
                            end) with
                     | Some n => fromMarker (mkState (skipn n (c :: s)) (n + i) caps)
                     | None => None
                     end).
    { destruct (markerAt (c :: s)) eqn:E; [reflexivity|]. now apply fromMarker_none. }
    destruct (dot c); [|exact Here].
    rewrite IH. destruct (lastMarker s) as [n|] eqn:E; [|exact Here].
    pose proof (lastMarker_markerAt s n E) as Hm.
    destruct (markerAt (skipn n s)) as [[[g len] rest]|] eqn:E'; [|contradiction].
    destruct (fromMarker_some (skipn n s) (n + S i) caps g len rest E') as [st [Hst _]].
    rewrite Hst. cbn [skipn]. replace (S n + i) with (n + S i) by lia.
    now rewrite Hst.
Qed.

Lemma regExp_shape :
  regExp = Seq Bol (Seq (Star dot) (Seq (Group 1 marker) behindMarker)).
Proof. reflexivity. Qed.

Lemma matchAt_regExp_start : forall s,
  matchAt regExp s 0 = star dot s 0 [] fromMarker.
Proof. intro s. unfold matchAt. rewrite regExp_shape. reflexivity. Qed.

Lemma matchAt_regExp_later : forall s i, matchAt regExp s (S i) = None.
Proof. intros s i. unfold matchAt. rewrite regExp_shape. reflexivity. Qed.

Lemma searchFrom_regExp_later : forall s i, searchFrom regExp s (S i) = None.
Proof.
  induction s as [|c s IH]; intro i; cbn [searchFrom];
    rewrite matchAt_regExp_later; [reflexivity | apply IH].
Qed.

(** extractVideoId, for every input: the candidate behind the last marker
    of the first line, when it has exactly 11 units. *)
Lemma extractVideoId_characterised : forall url,
  extractVideoId url = videoIdBehindLastMarker url.
Proof.
  intro url. unfold extractVideoId, videoIdBehindLastMarker, exec.
  assert (E : searchFrom regExp url 0
              = match matchAt regExp url 0 with
                | Some st => Some (mkMatch 0 (firstn (index st - 0) url) (captures st))
                | None => None
                end).
  { destruct url as [|c url]; cbn [searchFrom];
      destruct (matchAt regExp _ 0); try reflexivity.
    apply searchFrom_regExp_later. }
  rewrite E, matchAt_regExp_start, star_dot_lastMarker.
  destruct (lastMarker url) as [n|] eqn:El; [|reflexivity].
  destruct (markerAt (skipn n url)) as [[[g len] rest]|] eqn:Em.
  - destruct (fromMarker_some (skipn n url) (n + 0) [] g len rest Em) as [st [Hst Hg]].
    rewrite Hst. cbn [match_groups]. now rewrite Hg.
  - now rewrite fromMarker_none.
Qed.

(** *** extractVideoId on the common shapes *)

Lemma idUnit_range : forall c,
  isIdUnit c = true ->
  (48 <= c <= 57 \/ 65 <= c <= 90 \/ 97 <= c <= 122 \/ c = 45 \/ c = 95)%N.
Proof.
  intros c H. unfold isIdUnit, isDigit, isUpperAscii, isLowerAscii in H.
  change (ch "-") with 45%N in H. change (ch "_") with 95%N in H.
  repeat (apply orb_true_iff in H; destruct H as [H | H]).
  - apply andb_true_iff in H as [H1 H2]. apply N.leb_le in H1, H2. lia.
  - apply andb_true_iff in H as [H1 H2]. apply N.leb_le in H1, H2. lia.
  - apply andb_true_iff in H as [H1 H2]. apply N.leb_le in H1, H2. lia.
  - apply N.eqb_eq in H. lia.
  - apply N.eqb_eq in H. lia.
Qed.

Lemma rejects_unit : forall u,
  isIdUnit u = false -> rejectsIds (N.eqb u).
Proof.
  intros u Hu c Hc. apply N.eqb_neq. intros ->. congruence.
Qed.

Lemma idUnit_dot : forall c, isIdUnit c = true -> dot c = true.
Proof.
  intros c H. apply idUnit_range in H. unfold dot, isLineTerminator.
  apply negb_true_iff. repeat (apply orb_false_iff; split); apply N.eqb_neq; lia.
Qed.

Lemma idUnit_notSeparator : forall c, isIdUnit c = true -> notSeparator c = true.
Proof.
  intros c H. apply idUnit_range in H. unfold notSeparator.
  change (ch "#") with 35%N. change (ch "&") with 38%N. change (ch "?") with 63%N.
  apply negb_true_iff. repeat (apply orb_false_iff; split); apply N.eqb_neq; lia.
Qed.

Lemma prefixBy_app_residual : forall ps x y,
  prefixBy ps (x ++ y)
  = match residual ps x with
    | Rejected => None
    | Matched rest => Some (rest ++ y)
    | More ps' => prefixBy ps' y
    end.
Proof.
  induction ps as [|p ps IH]; intros x y; [reflexivity|].
  destruct x as [|c x]; [reflexivity|]. cbn [app prefixBy residual].
  destruct (p c); [apply IH | reflexivity].
Qed.

(** Classes that end in one no identifier unit satisfies do not match
    inside an identifier. *)
Lemma prefixBy_ids : forall ps id tail,
  ps <> [] ->
  List.length ps <= List.length id ->
  rejectsIds (last ps (fun _ => true)) ->
  Forall (fun c => isIdUnit c = true) id ->
  prefixBy ps (id ++ tail) = None.
Proof.
  induction ps as [|p ps IH]; intros id tail Hne Hlen Hlast Hid; [contradiction|].
  destruct id as [|c id]; [simpl in Hlen; lia|].
  inversion Hid as [|? ? Hc Hid']; subst.
  cbn [app prefixBy]. destruct ps as [|p2 ps].
  - simpl in Hlast. now rewrite (Hlast c Hc).
  - destruct (p c); [|reflexivity].
    apply IH; [discriminate | simpl in *; lia | exact Hlast | exact Hid'].
Qed.

Lemma lastMarker_cons_none : forall c s,
  lastMarker s = None -> markerAt (c :: s) = None -> lastMarker (c :: s) = None.
Proof.
  intros c s Hs Hm. cbn [lastMarker]. rewrite Hs, Hm. now destruct (dot c).
Qed.

Lemma lastMarker_cons_here : forall c s x,
  lastMarker s = None -> markerAt (c :: s) = Some x -> lastMarker (c :: s) = Some 0.
Proof.
  intros c s x Hs Hm. cbn [lastMarker]. rewrite Hs, Hm. now destruct (dot c).
Qed.

Lemma lastMarker_app : forall p s n,
  noLineBreak p -> lastMarker s = Some n ->
  lastMarker (p ++ s) = Some (List.length p + n).
Proof.
  induction p as [|c p IH]; intros s n Hp Hs; [exact Hs|].
  inversion Hp as [|? ? Hc Hp']; subst.
  cbn [app lastMarker]. unfold dot. rewrite Hc. cbn [negb].
  now rewrite (IH s n Hp' Hs).
Qed.

Lemma skipn_app_length : forall (p s : jsstring), skipn (List.length p + 0) (p ++ s) = s.
Proof.
  intros p s. rewrite Nat.add_0_r. induction p as [|c p IH]; [reflexivity | exact IH].
Qed.

(** No marker starts in a text of identifier units. *)
Lemma markerAt_ids : forall id,
  Forall (fun c => isIdUnit c = true) id -> markerAt id = None.
Proof.
  intros id Hid. unfold markerAt, markerAlternatives. cbn [firstAlternative].
  assert (H : forall ps,
             ps <> [] -> rejectsIds (last ps (fun _ => true)) -> prefixBy ps id = None).
  { intros ps Hne Hlast. clear - Hid Hne Hlast. revert id Hid.
    induction ps as [|p ps IH]; intros id Hid; [contradiction|].
    destruct id as [|c id]; [reflexivity|].
    inversion Hid as [|? ? Hc Hid']; subst. cbn [prefixBy].
    destruct ps as [|p2 ps].
    - simpl in Hlast. now rewrite (Hlast c Hc).
    - destruct (p c); [|reflexivity]. apply IH; [discriminate | exact Hlast | exact Hid']. }
  rewrite !H; try discriminate; try reflexivity;
    cbn [last app map youtubeClasses vClasses uClasses embedClasses watchClasses lit
         list_ascii_of_string];
    now apply rejects_unit.
Qed.

Lemma lastMarker_ids : forall id,
  Forall (fun c => isIdUnit c = true) id -> lastMarker id = None.
Proof.
  induction id as [|c id IH]; intro Hid.
  - reflexivity.
  - inversion Hid as [|? ? Hc Hid']; subst.
    apply lastMarker_cons_none; [now apply IH | now apply markerAt_ids].
Qed.

Lemma residual_more : forall ps x ps',
  residual ps x = More ps' ->
  ps' <> [] /\ last ps' (fun _ => true) = last ps (fun _ => true).
Proof.
  induction ps as [|p ps IH]; intros x ps' H; [discriminate|].
  destruct x as [|c x].
  - injection H as <-. split; [discriminate | reflexivity].
  - cbn [residual] in H. destruct (p c); [|discriminate].
    destruct (IH x ps' H) as [Hne Hlast]. split; [exact Hne|].
    rewrite Hlast. destruct ps as [|q ps]; [|reflexivity].
    destruct x; discriminate.
Qed.

Lemma alternatives_reject :
  Forall (fun alt => rejectsIds (last (snd alt) (fun _ => true))) markerAlternatives.
Proof.
  unfold markerAlternatives. repeat constructor; cbn; now apply rejects_unit.
Qed.

Lemma firstAlternative_none : forall alts s,
  Forall (fun alt => prefixBy (snd alt) s = None) alts ->
  firstAlternative alts s = None.
Proof.
  intros alts s H. induction H as [|[g ps] alts Hp _ IH]; [reflexivity|].
  cbn [firstAlternative]. simpl in Hp. now rewrite Hp.
Qed.

Lemma markerAt_before_id : forall x id tail,
  Forall (fun c => isIdUnit c = true) id ->
  headClear x (List.length id) = true ->
  markerAt (x ++ id ++ tail) = None.
Proof.
  intros x id tail Hid Hclear. unfold markerAt. apply firstAlternative_none.
  unfold headClear in Hclear. rewrite forallb_forall in Hclear.
  apply Forall_forall. intros alt Hin.
  pose proof (Hclear alt Hin) as Hc.
  pose proof (proj1 (Forall_forall _ _) alternatives_reject alt Hin) as Hr.
  rewrite prefixBy_app_residual.
  destruct (residual (snd alt) x) as [|rest|ps'] eqn:E; [reflexivity | discriminate |].
  destruct (residual_more _ _ _ E) as [Hne Hlast].
  apply prefixBy_ids; [exact Hne | now apply Nat.leb_le | now rewrite Hlast | exact Hid].
Qed.

Lemma lastMarker_before_id : forall x id tail,
  Forall (fun c => isIdUnit c = true) id ->
  lastMarker (id ++ tail) = None ->
  suffixesClear x (List.length id) = true ->
  lastMarker (x ++ id ++ tail) = None.
Proof.
  induction x as [|c x IH]; intros id tail Hid Hlast Hclear; [exact Hlast|].
  cbn [suffixesClear] in Hclear. apply andb_true_iff in Hclear as [Hh Hs].
  apply lastMarker_cons_none.
  - now apply IH.
  - now apply (markerAt_before_id (c :: x)).
Qed.

Lemma takeRun_ids : forall id tail,
  Forall (fun c => isIdUnit c = true) id ->
  separated tail ->
  takeRun notSeparator (id ++ tail) = id.
Proof.
  induction id as [|c id IH]; intros tail Hid Htail.
  - destruct tail as [|t tail]; [reflexivity|]. simpl in *. now rewrite Htail.
  - inversion Hid as [|? ? Hc Hid']; subst. cbn [app takeRun].
    rewrite (idUnit_notSeparator c Hc). now rewrite IH.
Qed.

Lemma idUnit_not : forall u c,
  isIdUnit u = false -> isIdUnit c = true -> (u =? c)%N = false.
Proof. intros u c Hu Hc. now apply rejects_unit. Qed.

(** Group 7 when the marker is followed by the identifier itself. *)
Lemma candidate_bare : forall id tail,
  isVideoId id ->
  separated tail ->
  candidate (id ++ tail) = if startsWithV id then tl id else id.
Proof.
  intros id tail [Hlen Hid] Htail. unfold candidate.
  destruct id as [|c1 [|c2 id]]; try discriminate Hlen.
  inversion Hid as [|? ? Hc1 Hid1]; subst.
  inversion Hid1 as [|? ? Hc2 Hid2]; subst.
  cbn [app dropOpt startsWithV tl].
  rewrite (idUnit_not (ch "?") c1 eq_refl Hc1). cbn [dropOpt].
  rewrite (N.eqb_sym c1 (ch "v")).
  destruct (ch "v" =? c1)%N.
  - cbn [dropOpt]. rewrite (idUnit_not (ch "=") c2 eq_refl Hc2).
    now apply (takeRun_ids (c2 :: id)).
  - cbn [dropOpt]. rewrite (idUnit_not (ch "=") c1 eq_refl Hc1).
    now apply (takeRun_ids (c1 :: c2 :: id)).
Qed.

(** Group 7 when the marker is followed by [v=] and the identifier. *)
Lemma candidate_query : forall id tail,
  isVideoId id ->
  separated tail ->
  candidate (lit "v=" ++ id ++ tail) = id.
Proof.
  intros id tail [_ Hid] Htail. unfold candidate.
  change (lit "v=" ++ id ++ tail) with (ch "v" :: ch "=" :: (id ++ tail)).
  cbn [dropOpt]. change (ch "?" =? ch "v")%N with false. cbn iota.
  change (ch "v" =? ch "v")%N with true. cbn iota.
  change (ch "=" =? ch "=")%N with true. cbn iota.
  now apply takeRun_ids.
Qed.

Lemma lastMarker_none_here : forall s, lastMarker s = None -> markerAt s = None.
Proof.
  intros s H. destruct s as [|c s]; cbn [lastMarker] in H.
  - destruct (markerAt []); [discriminate | reflexivity].
  - destruct (if dot c then lastMarker s else None); [discriminate|].
    destruct (markerAt (c :: s)); [discriminate | reflexivity].
Qed.

Section Shapes.

Variables prefix id tail : jsstring.
Hypothesis prefix_line : noLineBreak prefix.
Hypothesis id_ok : isVideoId id.
Hypothesis tail_ok : separated tail.
Hypothesis tail_clear : lastMarker (id ++ tail) = None.

Lemma behind_marker : forall m rest g n,
  suffixesClear (tl m) 11 = true ->
  markerAt (m ++ id ++ tail) = Some (g, n, rest) ->
  extractVideoId (prefix ++ m ++ id ++ tail)
  = if (str_length (candidate rest) =? 11)%N then Some (candidate rest) else None.
Proof.
  intros m rest g n Hclear Hm. destruct id_ok as [Hlen Hid].
  rewrite extractVideoId_characterised. unfold videoIdBehindLastMarker.
  assert (Hl : lastMarker (m ++ id ++ tail) = Some 0).
  { destruct m as [|c m].
    - simpl in Hm. rewrite (lastMarker_none_here _ tail_clear) in Hm. discriminate.
    - apply lastMarker_cons_here with (g, n, rest); [|exact Hm].
      apply lastMarker_before_id; [exact Hid | exact tail_clear |].
      rewrite Hlen. exact Hclear. }
  rewrite (lastMarker_app prefix _ 0 prefix_line Hl).
  rewrite skipn_app_length. now rewrite Hm.
Qed.

Lemma bare_result :
  (if (str_length (candidate (id ++ tail)) =? 11)%N
   then Some (candidate (id ++ tail)) else None)
  = if startsWithV id then None else Some id.
Proof.
  rewrite (candidate_bare id tail id_ok tail_ok).
  destruct id_ok as [Hlen _]. unfold str_length.
  destruct (startsWithV id).
  - destruct id as [|c id']; [discriminate|]. cbn [tl]. simpl in Hlen.
    injection Hlen as ->. reflexivity.
  - now rewrite Hlen.
Qed.

(** The four common shapes, behind any prefix on the same line and before
    any separated tail that starts no marker. *)
Lemma extractVideoId_shapes :
  extractVideoId (prefix ++ lit "watch?v=" ++ id ++ tail) = Some id
  /\ extractVideoId (prefix ++ lit "youtu.be/" ++ id ++ tail)
     = (if startsWithV id then None else Some id)
  /\ extractVideoId (prefix ++ lit "embed/" ++ id ++ tail)
     = (if startsWithV id then None else Some id)
  /\ extractVideoId (prefix ++ lit "v/" ++ id ++ tail)
     = (if startsWithV id then None else Some id).
Proof.
  split; [|split; [|split]].
  - rewrite (behind_marker (lit "watch?v=") (lit "v=" ++ id ++ tail) 6 6);
      [|vm_compute; reflexivity | reflexivity].
    rewrite (candidate_query id tail id_ok tail_ok).
    destruct id_ok as [Hlen _]. unfold str_length. now rewrite Hlen.
  - rewrite (behind_marker (lit "youtu.be/") (id ++ tail) 2 9);
      [|vm_compute; reflexivity | reflexivity].
    apply bare_result.
  - rewrite (behind_marker (lit "embed/") (id ++ tail) 5 6);
      [|vm_compute; reflexivity | reflexivity].
    apply bare_result.
  - rewrite (behind_marker (lit "v/") (id ++ tail) 3 2);
      [|vm_compute; reflexivity | reflexivity].
    apply bare_result.
Qed.

End Shapes.

(** The same for a URL that ends with the identifier. *)
Lemma extractVideoId_shapes_bare : forall prefix id,
  noLineBreak prefix ->
  isVideoId id ->
  extractVideoId (prefix ++ lit "watch?v=" ++ id) = Some id
  /\ extractVideoId (prefix ++ lit "youtu.be/" ++ id)
     = (if startsWithV id then None else Some id)
  /\ extractVideoId (prefix ++ lit "embed/" ++ id)
     = (if startsWithV id then None else Some id)
  /\ extractVideoId (prefix ++ lit "v/" ++ id)
     = (if startsWithV id then None else Some id).
Proof.
  intros prefix id Hp Hid.
  assert (Hclear : lastMarker (id ++ []) = None).
  { rewrite app_nil_r. apply lastMarker_ids. apply Hid. }
  pose proof (extractVideoId_shapes prefix id [] Hp Hid I Hclear) as H.
  now rewrite !app_nil_r in H.
Qed.

(** *** extractVideoId: the result *)

Lemma extractVideoId_length : forall url id,
  extractVideoId url = Some id -> List.length id = 11.
Proof.
  intros url id. unfold extractVideoId.
  destruct (exec regExp url) as [m|]; [|discriminate].
  destruct (group 7 (match_groups m)) as [x|]; [|discriminate].
  destruct (str_length x =? 11)%N eqn:E; [|discriminate].
  intro H. injection H as <-. apply N.eqb_eq in E. unfold str_length in E. lia.
Qed.

(** C9.  What extractVideoId returns for the four common shapes, behind
    any prefix without line break, when the URL ends with an identifier of
    11 units (letters, digits, hyphen, underscore).  The watch-query shape
    always gives the identifier.  After the marker the pattern allows an
    optional [v], meant for the [v=] of a watch query; behind [youtu.be/],
    [embed/] and [v/] it takes the first letter of an identifier that
    begins with [v]: group 7 is left with ten units and the result is
    null.  Identifiers that begin with another unit are returned in all
    four shapes.  Whatever the input, a result that is not null has
    exactly 11 units. *)
Theorem extractVideoId_loses_leading_v :
  (forall prefix id,
      noLineBreak prefix ->
      isVideoId id ->
      extractVideoId (prefix ++ lit "watch?v=" ++ id) = Some id
      /\ extractVideoId (prefix ++ lit "youtu.be/" ++ id)
         = (if startsWithV id then None else Some id)
      /\ extractVideoId (prefix ++ lit "embed/" ++ id)
         = (if startsWithV id then None else Some id)
      /\ extractVideoId (prefix ++ lit "v/" ++ id)
         = (if startsWithV id then None else Some id))
  /\ extractVideoId (lit "https://youtu.be/vAbCdEfGhIj") = None
  /\ extractVideoId (lit "https://www.youtube.com/embed/vAbCdEfGhIj") = None
  /\ extractVideoId (lit "https://www.youtube.com/v/vAbCdEfGhIj") = None
  /\ extractVideoId (lit "https://youtu.be/vAbCdEfGhIj?t=10") = None
  /\ extractVideoId (lit "https://www.youtube.com/watch?v=vAbCdEfGhIj")
     = Some (lit "vAbCdEfGhIj")
  /\ extractVideoId (lit "https://youtu.be/dQw4w9WgXcQ") = Some (lit "dQw4w9WgXcQ")
  /\ (forall url id, extractVideoId url = Some id -> List.length id = 11).
Proof.
  split; [exact extractVideoId_shapes_bare|].
  repeat split; try (vm_compute; reflexivity).
  apply extractVideoId_length.
Qed.

(* ================================================================== *)
(** ** Further properties of extractVideoId *)
(* ================================================================== *)

Import Notions.

(** *** The last marker *)

Lemma lastMarker_zero : forall c s,
  lastMarker (c :: s) = Some 0 -> dot c = true -> lastMarker s = None.
Proof.
  intros c s H Hc. cbn [lastMarker] in H. rewrite Hc in H.
  destruct (lastMarker s); [discriminate|reflexivity].
Qed.

Lemma lastMarker_succ : forall c s n,
  lastMarker (c :: s) = Some (S n) -> dot c = true /\ lastMarker s = Some n.
Proof.
  intros c s n H. cbn [lastMarker] in H.
  destruct (dot c).
  - destruct (lastMarker s) as [k|].
    + injection H as ->. auto.
    + destruct (markerAt (c :: s)); discriminate.
  - destruct (markerAt (c :: s)); discriminate.
Qed.

Lemma lastMarker_split : forall s n,
  lastMarker s = Some n ->
  Forall (fun c => dot c = true) (firstn n s) /\ lastMarker (skipn n s) = Some 0.
Proof.
  intros s n. revert s. induction n as [|n IH]; intros s H.
  - split; [constructor|exact H].
  - destruct s as [|c s].
    + cbn in H. discriminate.
    + apply lastMarker_succ in H. destruct H as [Hc H].
      destruct (IH s H) as [Hf Hs]. split; [constructor; assumption|exact Hs].
Qed.

Lemma lastMarker_none_tail : forall x s,
  lastMarker (x ++ s) = None ->
  Forall (fun c => dot c = true) x ->
  lastMarker s = None.
Proof.
  induction x as [|c x IH]; intros s H Hx; [exact H|].
  inversion Hx as [|? ? Hc Hx']; subst. apply IH; [|assumption].
  cbn [app lastMarker] in H. rewrite Hc in H.
  destruct (lastMarker (x ++ s)); [discriminate|reflexivity].
Qed.

Lemma prefixBy_app : forall ps x y rest,
  prefixBy ps x = Some rest -> prefixBy ps (x ++ y) = Some (rest ++ y).
Proof.
  induction ps as [|p ps IH]; intros x y rest H.
  - cbn in H. injection H as <-. reflexivity.
  - destruct x as [|c x]; [discriminate|].
    cbn [prefixBy app] in *. destruct (p c); [|discriminate]. now apply IH.
Qed.

Lemma firstAlternative_app : forall alts x y,
  firstAlternative alts (x ++ y) = None -> firstAlternative alts x = None.
Proof.
  induction alts as [|[g ps] alts IH]; intros x y H; [reflexivity|].
  cbn [firstAlternative] in *.
  destruct (prefixBy ps x) as [rest|] eqn:E.
  - rewrite (prefixBy_app ps x y rest E) in H. discriminate.
  - destruct (prefixBy ps (x ++ y)); [discriminate|]. now apply IH with y.
Qed.

Lemma markerAt_app_none : forall x y, markerAt (x ++ y) = None -> markerAt x = None.
Proof. intros x y. apply firstAlternative_app. Qed.

Lemma lastMarker_none_front : forall x y,
  lastMarker (x ++ y) = None -> lastMarker x = None.
Proof.
  induction x as [|c x IH]; intros y H.
  - reflexivity.
  - cbn [app] in H. pose proof (lastMarker_none_here _ H) as Hm.
    change (c :: x ++ y) with ((c :: x) ++ y) in Hm.
    apply markerAt_app_none in Hm.
    cbn [lastMarker] in *. rewrite Hm.
    destruct (dot c); [|reflexivity].
    destruct (lastMarker (x ++ y)) eqn:E; [discriminate|].
    now rewrite (IH y E).
Qed.

Lemma takeRun_dropRun : forall p s, s = takeRun p s ++ dropRun p s.
Proof.
  induction s as [|c s IH]; [reflexivity|].
  cbn. destruct (p c); [cbn; now rewrite <- IH|reflexivity].
Qed.

Lemma takeRun_Forall : forall p s, Forall (fun c => p c = true) (takeRun p s).
Proof.
  induction s as [|c s IH]; cbn; [constructor|].
  destruct (p c) eqn:E; [constructor; assumption|constructor].
Qed.

Lemma takeRun_all : forall p s, Forall (fun c => p c = true) s -> takeRun p s = s.
Proof.
  induction 1 as [|c s Hc Hs IH]; cbn; [reflexivity|]. now rewrite Hc, IH.
Qed.

Lemma dropRun_head : forall p s,
  match dropRun p s with [] => True | c :: _ => p c = false end.
Proof.
  induction s as [|c s IH]; cbn; [exact I|].
  destruct (p c) eqn:E; [exact IH|exact E].
Qed.

(** What [dropOpt] removes. *)
Lemma dropOpt_split : forall q s,
  exists o, s = o ++ dropOpt q s /\ Forall (fun c => q c = true) o.
Proof.
  intros q [|c s]; cbn.
  - exists []. split; [reflexivity|constructor].
  - destruct (q c) eqn:E.
    + exists [c]. split; [reflexivity|]. constructor; [exact E|constructor].
    + exists []. split; [reflexivity|constructor].
Qed.

(** The candidate sits in [rest] behind at most three optional units,
    none of them a line terminator, and runs up to the next separator. *)
Lemma candidate_split : forall rest,
  exists o tail,
    rest = o ++ candidate rest ++ tail
    /\ Forall (fun c => dot c = true) o
    /\ Forall (fun c => notSeparator c = true) (candidate rest)
    /\ separated tail.
Proof.
  intro rest. unfold candidate.
  destruct (dropOpt_split (N.eqb (ch "?")) rest) as [o1 [E1 H1]].
  destruct (dropOpt_split (N.eqb (ch "v")) (dropOpt (N.eqb (ch "?")) rest)) as [o2 [E2 H2]].
  destruct (dropOpt_split (N.eqb (ch "="))
              (dropOpt (N.eqb (ch "v")) (dropOpt (N.eqb (ch "?")) rest))) as [o3 [E3 H3]].
  set (r3 := dropOpt (N.eqb (ch "=")) (dropOpt (N.eqb (ch "v")) (dropOpt (N.eqb (ch "?")) rest))) in *.
  exists (o1 ++ o2 ++ o3), (dropRun notSeparator r3).
  split; [|split; [|split]].
  - rewrite <- !app_assoc. rewrite <- (takeRun_dropRun notSeparator r3).
    rewrite <- E3, <- E2. exact E1.
  - repeat (apply Forall_app; split);
      match goal with
      | H : Forall _ ?o |- Forall _ ?o =>
          eapply Forall_impl; [|exact H]; intros a Ha; cbv beta in Ha;
          apply N.eqb_eq in Ha; subst a; reflexivity
      end.
  - apply takeRun_Forall.
  - unfold separated. pose proof (dropRun_head notSeparator r3) as H.
    destruct (dropRun notSeparator r3); [exact I|exact H].
Qed.

(** The units of a marker: none is a line terminator. *)
Lemma prefixBy_split : forall ps s rest,
  prefixBy ps s = Some rest ->
  exists m, s = m ++ rest /\ Forall2 (fun p c => p c = true) ps m.
Proof.
  induction ps as [|p ps IH]; intros s rest H.
  - cbn in H. injection H as <-. exists []. split; [reflexivity|constructor].
  - destruct s as [|c s]; [discriminate|]. cbn [prefixBy] in H.
    destruct (p c) eqn:E; [|discriminate].
    destruct (IH s rest H) as [m [-> Hm]].
    exists (c :: m). split; [reflexivity|constructor; assumption].
Qed.

Lemma firstAlternative_split : forall alts s g n rest,
  firstAlternative alts s = Some (g, n, rest) ->
  exists ps m, In (g, ps) alts /\ s = m ++ rest
               /\ n = List.length ps /\ Forall2 (fun p c => p c = true) ps m.
Proof.
  induction alts as [|[g0 ps0] alts IH]; intros s g n rest H; [discriminate|].
  cbn [firstAlternative] in H.
  destruct (prefixBy ps0 s) as [r|] eqn:E.
  - injection H as <- <- <-. destruct (prefixBy_split ps0 s r E) as [m [Hs Hm]].
    exists ps0, m. repeat split; [left; reflexivity|assumption|assumption].
  - destruct (IH s g n rest H) as [ps [m [Hin Hrest]]].
    exists ps, m. split; [right; exact Hin|exact Hrest].
Qed.

Lemma classes_dot :
  Forall (fun alt => Forall (fun p : N -> bool => forall c, p c = true -> dot c = true) (snd alt))
    markerAlternatives.
Proof.
  assert (L : forall u c, dot u = true -> N.eqb u c = true -> dot c = true).
  { intros u c Hu E. apply N.eqb_eq in E. now subst c. }
  assert (W : forall c, word c = true -> dot c = true).
  { intros c H. unfold word, dot, isLineTerminator, isUpperAscii, isLowerAscii, isDigit in *.
    destruct (c =? 10)%N eqn:E1; [apply N.eqb_eq in E1; subst c; discriminate|].
    destruct (c =? 13)%N eqn:E2; [apply N.eqb_eq in E2; subst c; discriminate|].
    destruct (c =? 0x2028)%N eqn:E3; [apply N.eqb_eq in E3; subst c; discriminate|].
    destruct (c =? 0x2029)%N eqn:E4; [apply N.eqb_eq in E4; subst c; discriminate|].
    reflexivity. }
  unfold markerAlternatives, youtubeClasses, vClasses, uClasses, embedClasses, watchClasses.
  repeat constructor; cbn [snd map app lit list_ascii_of_string];
    repeat constructor;
    try (intros c; apply L; reflexivity); try exact W; try (intros c H; exact H).
Qed.

Lemma markerAt_split : forall s g n rest,
  markerAt s = Some (g, n, rest) ->
  exists m, s = m ++ rest /\ m <> [] /\ Forall (fun c => dot c = true) m.
Proof.
  intros s g n rest H. unfold markerAt in H.
  destruct (firstAlternative_split _ _ _ _ _ H) as [ps [m [Hin [Hs [_ Hm]]]]].
  exists m. split; [exact Hs|].
  pose proof classes_dot as D. rewrite Forall_forall in D.
  specialize (D _ Hin). cbn [snd] in D.
  split.
  - intro Hnil. subst m. inversion Hm; subst.
    cbn in Hin. repeat (destruct Hin as [Hin|Hin]; [discriminate|]). exact Hin.
  - clear - Hm D. induction Hm as [|p c ps m Hpc Hm IH]; [constructor|].
    inversion D; subst. constructor; [auto|auto].
Qed.

(** A URL that was accepted: no marker can be reached inside the
    identifier returned. *)
Lemma accepted_clear : forall url id,
  videoIdBehindLastMarker url = Some id ->
  lastMarker id = None /\ Forall (fun c => notSeparator c = true) id.
Proof.
  intros url id H. unfold videoIdBehindLastMarker in H.
  destruct (lastMarker url) as [n|] eqn:En; [|discriminate].
  destruct (markerAt (skipn n url)) as [[[g len] rest]|] eqn:Em; [|discriminate].
  destruct (str_length (candidate rest) =? 11)%N; [|discriminate].
  injection H as <-.
  destruct (lastMarker_split url n En) as [_ H0].
  destruct (markerAt_split _ _ _ _ Em) as [m [Hs [Hne Hm]]].
  destruct (candidate_split rest) as [o [tail [Hr [Ho [Hc _]]]]].
  split; [|exact Hc].
  rewrite Hs in H0. destruct m as [|c m]; [contradiction|].
  inversion Hm; subst. cbn [app] in H0.
  apply lastMarker_zero in H0; [|assumption].
  apply lastMarker_none_tail in H0; [|assumption].
  rewrite Hr in H0.
  apply lastMarker_none_tail in H0; [|assumption].
  now apply lastMarker_none_front in H0.
Qed.

Lemma watchUrl_accepted : forall id,
  lastMarker id = None ->
  Forall (fun c => notSeparator c = true) id ->
  List.length id = 11 ->
  extractVideoId (Routes.watchUrl id) = Some id.
Proof.
  intros id Hclear Hsep Hlen.
  rewrite extractVideoId_characterised. unfold videoIdBehindLastMarker, Routes.watchUrl.
  assert (Ht : lastMarker (lit "atch?v=" ++ id) = None).
  { apply (lastMarker_before_id (lit "atch?v=") [] id); [constructor|exact Hclear|].
    vm_compute. reflexivity. }
  assert (Hw : lastMarker (lit "watch?v=" ++ id) = Some 0).
  { apply (lastMarker_cons_here _ _ (6, 6, lit "v=" ++ id)); [exact Ht|reflexivity]. }
  change (lit "https://www.youtube.com/watch?v=" ++ id)
    with (lit "https://www.youtube.com/" ++ lit "watch?v=" ++ id).
  rewrite (lastMarker_app (lit "https://www.youtube.com/") _ 0); [|repeat constructor|exact Hw].
  rewrite skipn_app_length.
  replace (markerAt (lit "watch?v=" ++ id)) with (Some (6, 6, lit "v=" ++ id)) by reflexivity.
  assert (Hc : candidate (lit "v=" ++ id) = id).
  { unfold candidate. cbn. now apply takeRun_all. }
  rewrite Hc. unfold str_length. rewrite Hlen. reflexivity.
Qed.

Lemma watchUrl_again : forall url id,
  extractVideoId url = Some id -> extractVideoId (Routes.watchUrl id) = Some id.
Proof.
  intros url id H. pose proof (extractVideoId_length url id H) as Hlen.
  rewrite extractVideoId_characterised in H.
  destruct (accepted_clear url id H) as [Hclear Hsep].
  now apply watchUrl_accepted.
Qed.

(** X1.  Round trip through the link that the route sends back: whatever
    URL an identifier was extracted from, extractVideoId reads the same
    identifier out of [https://www.youtube.com/watch?v=] followed by it. *)
Theorem extractVideoId_watchUrl_round_trip : forall url id,
  extractVideoId url = Some id ->
  extractVideoId (Routes.watchUrl id) = Some id.
Proof.
  intros url id H. now apply watchUrl_again with url.
Qed.

Lemma extractVideoId_watchUrl_witness :
  extractVideoId (Routes.watchUrl (lit "dQw4w9WgXcQ")) = Some (lit "dQw4w9WgXcQ").
Proof.
  apply (extractVideoId_watchUrl_round_trip (lit "https://youtu.be/dQw4w9WgXcQ?t=42")).
  vm_compute. reflexivity.
Defined.

(** *** What is accepted, and where it sits *)

(** X3.  An identifier that extractVideoId returns is a piece of the URL
    as it stands: it has 11 units, no line break stands before it, it
    holds none of [#], [&] and [?], and it runs up to the next of these
    or to the end of the URL, so a longer run is never cut down to 11
    units.  The identifier itself may hold a line break: the second URL
    below gives one that runs over two lines. *)
Theorem extractVideoId_substring :
  (forall url id,
      extractVideoId url = Some id ->
      exists pre post,
        url = pre ++ id ++ post
        /\ str_length id = 11%N
        /\ noLineBreak pre
        /\ Forall (fun c => notSeparator c = true) id
        /\ separated post)
  /\ extractVideoId (lit "https://youtu.be/abcde" ++ [10%N] ++ lit "fghij")
     = Some (lit "abcde" ++ [10%N] ++ lit "fghij").
Proof.
  split; [|vm_compute; reflexivity].
  intros url id H. rewrite extractVideoId_characterised in H.
  unfold videoIdBehindLastMarker in H.
  destruct (lastMarker url) as [n|] eqn:En; [|discriminate].
  destruct (markerAt (skipn n url)) as [[[g len] rest]|] eqn:Em; [|discriminate].
  destruct (str_length (candidate rest) =? 11)%N eqn:El; [|discriminate].
  injection H as <-. apply N.eqb_eq in El.
  destruct (lastMarker_split url n En) as [Hpre _].
  destruct (markerAt_split _ _ _ _ Em) as [m [Hs [_ Hm]]].
  destruct (candidate_split rest) as [o [tail [Hr [Ho [Hc Ht]]]]].
  exists (firstn n url ++ m ++ o), tail.
  split; [|split; [exact El|split; [|split]]]; [| |exact Hc|exact Ht].
  - rewrite <- !app_assoc. rewrite <- Hr, <- Hs. symmetry. apply firstn_skipn.
  - unfold noLineBreak. repeat (apply Forall_app; split);
      match goal with
      | H : Forall _ ?l |- Forall _ ?l =>
          eapply Forall_impl; [|exact H]; intros a Ha; cbv beta in Ha;
          unfold dot in Ha; now destruct (isLineTerminator a)
      end.
Qed.

Lemma extractVideoId_substring_witness :
  exists pre post,
    lit "https://www.youtube.com/watch?v=dQw4w9WgXcQ&t=42" = pre ++ lit "dQw4w9WgXcQ" ++ post
    /\ str_length (lit "dQw4w9WgXcQ") = 11%N
    /\ noLineBreak pre
    /\ Forall (fun c => notSeparator c = true) (lit "dQw4w9WgXcQ")
    /\ separated post.
Proof.
  apply (proj1 extractVideoId_substring
           (lit "https://www.youtube.com/watch?v=dQw4w9WgXcQ&t=42") (lit "dQw4w9WgXcQ")).
  vm_compute. reflexivity.
Defined.

(** Every marker holds a slash or a question mark. *)
Lemma classes_slash :
  Forall (fun alt =>
            Exists (fun p : N -> bool => forall c, p c = true -> slashOrQuery c) (snd alt))
    markerAlternatives.
Proof.
  assert (S : forall c, N.eqb (ch "/") c = true -> slashOrQuery c).
  { intros c E. apply N.eqb_eq in E. left. now subst c. }
  assert (Q : forall c, N.eqb (ch "?") c = true -> slashOrQuery c).
  { intros c E. apply N.eqb_eq in E. right. now subst c. }
  unfold markerAlternatives, youtubeClasses, vClasses, uClasses, embedClasses, watchClasses.
  constructor; [|constructor; [|constructor; [|constructor; [|constructor; [|constructor]]]]];
    cbn [snd map app lit list_ascii_of_string].
  - do 8 apply Exists_cons_tl. apply Exists_cons_hd. exact S.
  - do 1 apply Exists_cons_tl. apply Exists_cons_hd. exact S.
  - apply Exists_cons_hd. exact S.
  - do 5 apply Exists_cons_tl. apply Exists_cons_hd. exact S.
  - do 5 apply Exists_cons_tl. apply Exists_cons_hd. exact Q.
Qed.

Lemma Forall2_Exists : forall (ps : list (N -> bool)) (m : jsstring) (P : N -> Prop),
  Forall2 (fun p c => p c = true) ps m ->
  Exists (fun p : N -> bool => forall c, p c = true -> P c) ps ->
  Exists P m.
Proof.
  intros ps m P H. induction H as [|p c ps m Hpc H IH]; intro E.
  - inversion E.
  - inversion E; subst; [left; auto|right; auto].
Qed.

Lemma markerAt_slash : forall s g n rest,
  markerAt s = Some (g, n, rest) -> Exists slashOrQuery s.
Proof.
  intros s g n rest H. unfold markerAt in H.
  destruct (firstAlternative_split _ _ _ _ _ H) as [ps [m [Hin [Hs [_ Hm]]]]].
  pose proof classes_slash as D. rewrite Forall_forall in D.
  specialize (D _ Hin). cbn [snd] in D.
  subst s. apply Exists_app. left. exact (Forall2_Exists ps m _ Hm D).
Qed.

Lemma lastMarker_none_all : forall s,
  (forall k, markerAt (skipn k s) = None) -> lastMarker s = None.
Proof.
  induction s as [|c s IH]; intro H.
  - reflexivity.
  - cbn [lastMarker]. rewrite (H 0 : markerAt (c :: s) = None).
    rewrite IH; [now destruct (dot c)|].
    intro k. exact (H (S k)).
Qed.

Lemma Exists_skipn : forall (P : N -> Prop) k (s : jsstring),
  Exists P (skipn k s) -> Exists P s.
Proof.
  intros P k. induction k as [|k IH]; intros s H; [exact H|].
  destruct s as [|c s]; [exact H|]. right. now apply IH.
Qed.

(** X4.  An input without any slash and without any question mark is
    rejected, whatever else it holds: each of the five markers contains
    one of the two.  A bare identifier, not part of a URL, is therefore
    not accepted. *)
Theorem extractVideoId_needs_marker : forall url,
  Forall (fun c => c <> ch "/" /\ c <> ch "?") url ->
  extractVideoId url = None.
Proof.
  intros url H. rewrite extractVideoId_characterised. unfold videoIdBehindLastMarker.
  rewrite lastMarker_none_all; [reflexivity|].
  intro k. destruct (markerAt (skipn k url)) as [[[g n] rest]|] eqn:E; [|reflexivity].
  apply markerAt_slash in E. apply Exists_skipn in E.
  rewrite Exists_exists in E. destruct E as [c [Hin Hc]].
  rewrite Forall_forall in H. destruct (H c Hin) as [H1 H2].
  destruct Hc; contradiction.
Qed.

Lemma extractVideoId_needs_marker_witness :
  extractVideoId (lit "dQw4w9WgXcQ") = None.
Proof.
  apply extractVideoId_needs_marker.
  repeat constructor; discriminate.
Defined.

(** *** Parameters behind the identifier *)

Lemma literal_classes : forall l m,
  Forall2 (fun (p : N -> bool) c => p c = true) (map N.eqb l) m -> m = l.
Proof.
  induction l as [|x l IH]; intros m H; inversion H; subst; [reflexivity|].
  match goal with E : (x =? _)%N = true |- _ => apply N.eqb_eq in E; subst end.
  f_equal. now apply IH.
Qed.

Lemma markerAt_watch : forall s g n rest,
  Forall (fun c => c <> ch "/") s ->
  markerAt s = Some (g, n, rest) ->
  s = lit "watch?" ++ rest.
Proof.
  intros s g n rest Hs H. unfold markerAt in H.
  destruct (firstAlternative_split _ _ _ _ _ H) as [ps [m [Hin [E [_ Hm]]]]].
  assert (S : forall c, N.eqb (ch "/") c = true -> c = ch "/").
  { intros c Ec. apply N.eqb_eq in Ec. now subst c. }
  assert (No : Exists (fun p : N -> bool => forall c, p c = true -> c = ch "/") ps -> False).
  { intro Ex. pose proof (Forall2_Exists ps m _ Hm Ex) as Ex'.
    rewrite Exists_exists in Ex'. destruct Ex' as [c [Hc Heq]].
    rewrite Forall_forall in Hs. apply (Hs c); [|exact Heq].
    subst s. apply in_or_app. now left. }
  cbn in Hin.
  destruct Hin as [Hin|[Hin|[Hin|[Hin|[Hin|[]]]]]]; injection Hin as <- <-.
  - exfalso. apply No. do 8 apply Exists_cons_tl. apply Exists_cons_hd. exact S.
  - exfalso. apply No. do 1 apply Exists_cons_tl. apply Exists_cons_hd. exact S.
  - exfalso. apply No. apply Exists_cons_hd. exact S.
  - exfalso. apply No. do 5 apply Exists_cons_tl. apply Exists_cons_hd. exact S.
  - apply (literal_classes (lit "watch?")) in Hm. now subst m.
Qed.

Lemma first_occurrence : forall (q : N) a b c d,
  a ++ q :: b = c ++ q :: d -> ~ In q a -> ~ In q c -> a = c.
Proof.
  intros q. induction a as [|x a IH]; intros b c d E Ha Hc.
  - destruct c as [|y c]; [reflexivity|].
    cbn in E. injection E as <- _. exfalso. apply Hc. now left.
  - destruct c as [|y c].
    + cbn in E. injection E as -> _. exfalso. apply Ha. now left.
    + cbn in E. injection E as <- E. f_equal.
      apply (IH b c d E); intro Hin; [apply Ha|apply Hc]; now right.
Qed.

Lemma idUnit_plain : forall c, isIdUnit c = true -> c <> ch "/" /\ c <> ch "?".
Proof.
  intros c H. apply idUnit_range in H. cbn. lia.
Qed.

Lemma skipn_In : forall (x : N) k (s : jsstring), In x (skipn k s) -> In x s.
Proof.
  intros x k. induction k as [|k IH]; intros s H; [exact H|].
  destruct s as [|c s]; [exact H|]. right. now apply IH.
Qed.

Lemma skipn_Forall : forall (P : N -> Prop) k (s : jsstring),
  Forall P s -> Forall P (skipn k s).
Proof.
  intros P k s H. rewrite Forall_forall in *. intros x Hx.
  apply H. now apply skipn_In with k.
Qed.

Lemma lastMarker_parameters : forall id sep rest,
  isVideoId id ->
  Forall (fun c => c <> ch "/" /\ c <> ch "?") rest ->
  sep <> ch "/" ->
  (sep = ch "?" -> skipn 6 id <> lit "watch") ->
  lastMarker (id ++ sep :: rest) = None.
Proof.
  intros id sep rest [Hlen Hid] Hrest Hsep Hwatch.
  assert (Hid' : Forall (fun c => c <> ch "/" /\ c <> ch "?") id).
  { eapply Forall_impl; [|exact Hid]. exact idUnit_plain. }
  assert (Hslash : Forall (fun c => c <> ch "/") (id ++ sep :: rest)).
  { apply Forall_app. split; [|constructor; [exact Hsep|]];
      (eapply Forall_impl; [|eassumption]); cbv beta; tauto. }
  assert (Hq_id : forall k, ~ In (ch "?") (skipn k id)).
  { intros k Hin. apply skipn_In in Hin. rewrite Forall_forall in Hid'.
    now destruct (Hid' _ Hin). }
  assert (Hq_rest : forall k, ~ In (ch "?") (skipn k rest)).
  { intros k Hin. apply skipn_In in Hin. rewrite Forall_forall in Hrest.
    now destruct (Hrest _ Hin). }
  apply lastMarker_none_all. intro k.
  destruct (markerAt (skipn k (id ++ sep :: rest))) as [[[g n] r]|] eqn:E; [|reflexivity].
  exfalso.
  apply markerAt_watch in E; [|now apply skipn_Forall].
  rewrite skipn_app in E.
  destruct (k - List.length id) as [|j] eqn:Ek.
  - cbn [skipn] in E.
    change (lit "watch?" ++ r) with (lit "watch" ++ ch "?" :: r) in E.
    destruct (N.eq_dec sep (ch "?")) as [Hs|Hs].
    + subst sep. apply first_occurrence in E; [|apply Hq_id|cbn; intuition discriminate].
      assert (k = 6).
      { apply (f_equal (@List.length N)) in E. rewrite length_skipn in E. cbn in E. lia. }
      subst k. now apply Hwatch.
    + assert (Hin : In (ch "?") (skipn k id ++ sep :: rest)).
      { rewrite E. apply in_or_app. right. now left. }
      apply in_app_or in Hin. destruct Hin as [Hin|[Hin|Hin]].
      * now apply (Hq_id k).
      * now apply Hs.
      * now apply (Hq_rest 0).
  - assert (Hk : skipn k id = []) by (apply skipn_all2; lia).
    rewrite Hk in E. cbn [app skipn] in E.
    apply (Hq_rest j). rewrite E. cbn. tauto.
Qed.

(** X2.  Parameters behind the identifier do not matter.  For a prefix
    without line break, an identifier of 11 letters, digits, hyphens or
    underscores, and a tail that begins with [#], [&] or [?] and holds no
    slash and no further question mark, the four common shapes give what
    they give without the tail: the identifier, except that the three
    shapes other than the watch query give null for an identifier that
    begins with [v].  When the tail begins with [?] the identifier must
    not end in [watch], which the question mark would turn into a
    marker. *)
Theorem extractVideoId_with_parameters : forall prefix id sep rest,
  noLineBreak prefix ->
  isVideoId id ->
  notSeparator sep = false ->
  Forall (fun c => c <> ch "/" /\ c <> ch "?") rest ->
  (sep = ch "?" -> skipn 6 id <> lit "watch") ->
  extractVideoId (prefix ++ lit "watch?v=" ++ id ++ sep :: rest) = Some id
  /\ extractVideoId (prefix ++ lit "youtu.be/" ++ id ++ sep :: rest)
     = (if startsWithV id then None else Some id)
  /\ extractVideoId (prefix ++ lit "embed/" ++ id ++ sep :: rest)
     = (if startsWithV id then None else Some id)
  /\ extractVideoId (prefix ++ lit "v/" ++ id ++ sep :: rest)
     = (if startsWithV id then None else Some id).
Proof.
  intros prefix id sep rest Hp Hid Hsep Hrest Hwatch.
  apply extractVideoId_shapes; try assumption.
  apply lastMarker_parameters; try assumption.
  intro E. subst sep. discriminate.
Qed.

Lemma extractVideoId_with_parameters_witness :
  extractVideoId (lit "https://www.youtube.com/" ++ lit "watch?v=" ++ lit "dQw4w9WgXcQ"
                  ++ ch "&" :: lit "list=PL1&index=2") = Some (lit "dQw4w9WgXcQ")
  /\ extractVideoId (lit "https://www.youtube.com/" ++ lit "youtu.be/" ++ lit "dQw4w9WgXcQ"
                     ++ ch "&" :: lit "list=PL1&index=2") = Some (lit "dQw4w9WgXcQ")
  /\ extractVideoId (lit "https://www.youtube.com/" ++ lit "embed/" ++ lit "dQw4w9WgXcQ"
                     ++ ch "&" :: lit "list=PL1&index=2") = Some (lit "dQw4w9WgXcQ")
  /\ extractVideoId (lit "https://www.youtube.com/" ++ lit "v/" ++ lit "dQw4w9WgXcQ"
                     ++ ch "&" :: lit "list=PL1&index=2") = Some (lit "dQw4w9WgXcQ").
Proof.
  apply (extractVideoId_with_parameters (lit "https://www.youtube.com/")
           (lit "dQw4w9WgXcQ") (ch "&") (lit "list=PL1&index=2")).
  - repeat constructor.
  - split; [reflexivity|repeat constructor].
  - reflexivity.
  - repeat constructor; discriminate.
  - discriminate.
Defined.

(* ================================================================== *)
(** ** The calls to the services *)
(* ================================================================== *)

(** X5.  How getYouTubeVideoData fails.  A rejected request is passed on
    as it is.  A body without [items], or with an empty or otherwise
    falsy [items], gives the error [Video not found]; a body that is
    [null] gives a TypeError instead, and so does a video whose snippet
    has no [thumbnails], although its title and description are there. *)
Theorem getYouTubeVideoData_failures : forall env w videoId,
  (forall e,
      axios_get w (videosUrl env videoId) = Throw e ->
      getYouTubeVideoData env w videoId = Throw e)
  /\ (forall data items,
        axios_get w (videosUrl env videoId) = Ok data ->
        get data (lit "items") = Ok items ->
        truthy items = false \/ items = JArr [] ->
        getYouTubeVideoData env w videoId = Throw (Error (lit "Video not found")))
  /\ (axios_get w (videosUrl env videoId) = Ok JNull ->
      exists e, getYouTubeVideoData env w videoId = Throw e /\ err_kind e = TypeError)
  /\ (forall snippet,
        axios_get w (videosUrl env videoId)
        = Ok (JObj [(lit "items", JArr [JObj [(lit "snippet", JObj snippet)]])]) ->
        lookup (lit "thumbnails") snippet = None ->
        exists e, getYouTubeVideoData env w videoId = Throw e /\ err_kind e = TypeError).
Proof.
  intros env w videoId. unfold getYouTubeVideoData, videosUrl.
  split; [|split; [|split]].
  - intros e H. now rewrite H.
  - intros data items H Hitems Hfalsy. rewrite H. cbn [bind]. rewrite Hitems. cbn [bind].
    destruct Hfalsy as [Hf|Hf].
    + now rewrite Hf.
    + subst items. reflexivity.
  - intro H. rewrite H. eexists. split; reflexivity.
  - intros snippet H Hth. rewrite H. cbn in Hth |- *. rewrite Hth.
    eexists. split; reflexivity.
Qed.

Lemma getYouTubeVideoData_failures_witness :
  getYouTubeVideoData quietEnv deadWorld (lit "dQw4w9WgXcQ") = Throw refused.
Proof.
  apply (getYouTubeVideoData_failures quietEnv deadWorld (lit "dQw4w9WgXcQ")).
  reflexivity.
Defined.

(** X6.  callGemini wraps every failure: whatever goes wrong inside it,
    the exception that leaves it is a plain Error whose message is
    [Gemini API call failed: ] followed by the message of the cause.  A
    rejected request and an answer without candidates are two such
    causes.  callGroq passes a rejected request on unchanged. *)
Theorem callGemini_wraps_failures : forall env w messages,
  (forall e,
      callGemini env w messages = Throw e ->
      err_kind e = PlainError
      /\ exists cause, err_message e = lit "Gemini API call failed: " ++ cause)
  /\ (forall e0,
        (forall url body config, axios_post w url body config = Throw e0) ->
        callGemini env w messages
        = Throw (Error (lit "Gemini API call failed: " ++ err_message e0))
        /\ forall max_tokens, callGroq env w messages max_tokens = Throw e0)
  /\ (forall data,
        answers w data ->
        truthy (get_opt data (lit "candidates")) = false
        \/ get_opt data (lit "candidates") = JArr [] ->
        callGemini env w messages
        = Throw (Error (lit "Gemini API call failed: No candidates returned from Gemini API"))).
Proof.
  intros env w messages. split; [|split].
  - intros e H. unfold callGemini, try_catch in H.
    destruct (geminiRequest env w messages) as [text|err]; [discriminate|].
    injection H as <-. split; [reflexivity|]. now exists (err_message err).
  - intros e0 H. split.
    + unfold callGemini, geminiRequest. rewrite H. reflexivity.
    + intro max_tokens. unfold callGroq. rewrite H. reflexivity.
  - intros data H Hc. unfold callGemini, geminiRequest. rewrite H. cbn [bind].
    destruct Hc as [Hc|Hc].
    + rewrite Hc. reflexivity.
    + rewrite Hc. reflexivity.
Qed.

Lemma callGemini_wraps_failures_witness :
  err_kind (Error (lit "Gemini API call failed: connect ECONNREFUSED")) = PlainError
  /\ exists cause,
       err_message (Error (lit "Gemini API call failed: connect ECONNREFUSED"))
       = lit "Gemini API call failed: " ++ cause.
Proof.
  apply (callGemini_wraps_failures quietEnv deadWorld []).
  reflexivity.
Defined.

Lemma trimStart_length : forall s, List.length (trimStart s) <= List.length s.
Proof.
  induction s as [|c s IH]; cbn; [lia|]. destruct (isSpace c); cbn; lia.
Qed.

Lemma trimStart_fixed : forall c s, trimStart (c :: s) = c :: s -> isSpace c = false.
Proof.
  intros c s H. cbn in H. destruct (isSpace c); [|reflexivity].
  pose proof (trimStart_length s) as L. rewrite H in L. cbn in L. lia.
Qed.

Lemma trim_fixed : forall s, trim s = s -> trimmed s.
Proof.
  intros [|c s] H; [exact I|].
  unfold trim, trimEnd in H.
  assert (Hc : isSpace c = false).
  { destruct (isSpace c) eqn:E; [|reflexivity]. exfalso.
    apply (f_equal (@List.length N)) in H. rewrite length_rev in H.
    pose proof (trimStart_length (rev (trimStart (c :: s)))) as L1.
    rewrite length_rev in L1. cbn [trimStart] in H, L1. rewrite E in H, L1.
    pose proof (trimStart_length s) as L2. cbn in H. lia. }
  split; [exact Hc|].
  cbn [trimStart] in H. rewrite Hc in H.
  apply (f_equal (@rev N)) in H. rewrite rev_involutive in H.
  destruct (rev (c :: s)) as [|d r] eqn:Er.
  - apply (f_equal (@List.length N)) in Er. rewrite length_rev in Er. discriminate.
  - apply trimStart_fixed in H.
    assert (Hl : last (c :: s) c = d).
    { apply (f_equal (@rev N)) in Er. rewrite rev_involutive in Er. rewrite Er.
      cbn [rev]. apply last_last. }
    now rewrite Hl.
Qed.

(** X7.  A reply that callLLM returns carries no white space at either
    end, whichever provider produced it: both callGroq and callGemini trim
    the text they read from the answer.  The reply can be empty. *)
Theorem callLLM_reply_trimmed : forall env w provider messages max_tokens text,
  callLLM env w provider messages max_tokens = Ok text ->
  trimmed text /\ trim text = text.
Proof.
  intros env w provider messages max_tokens text H.
  pose proof (callLLM_trimmed _ _ _ _ _ _ H) as Ht.
  split; [now apply trim_fixed|exact Ht].
Qed.

Lemma callLLM_reply_trimmed_witness :
  trimmed (lit "[]") /\ trim (lit "[]") = lit "[]".
Proof.
  apply (callLLM_reply_trimmed quietEnv (replyWorld (lit "  []  ")) (lit "groq") [] 1000).
  reflexivity.
Defined.



(** *** The spellings of a provider *)

Lemma lowerUnit_letter : forall c t rest tail,
  isLowerAscii t = true ->
  t <> ch "k" ->
  Forall (fun u => isLowerAscii u = true) rest ->
  lowerUnit c ++ tail = t :: rest ->
  (c = t \/ c = (t - 32)%N) /\ tail = rest.
Proof.
  intros c t rest tail Ht Hk Hrest H. unfold lowerUnit in H.
  unfold isLowerAscii in Ht. apply andb_prop in Ht. destruct Ht as [T1 T2].
  apply N.leb_le in T1, T2.
  destruct (isUpperAscii c) eqn:Eu.
  - cbn [app] in H. injection H as <- <-. split; [right; lia|reflexivity].
  - destruct (c =? 8490)%N eqn:Ek.
    + cbn [app] in H. injection H as <- _. contradiction.
    + destruct (c =? 304)%N eqn:Ei.
      * cbn [app] in H. injection H as _ H. exfalso.
        destruct rest as [|r rest]; [discriminate|]. injection H as <- _.
        inversion Hrest; subst. discriminate.
      * cbn [app] in H. injection H as <- <-. split; [now left|reflexivity].
Qed.

Lemma toLowerCase_spells : forall name p,
  Forall (fun t => isLowerAscii t = true /\ t <> ch "k") name ->
  (toLowerCase p = name <-> spells name p).
Proof.
  intros name p Hname. revert p.
  induction Hname as [|t name [Ht Hk] Hname IH]; intro p.
  - split.
    + intro H. destruct p as [|c p]; [constructor|]. exfalso.
      unfold toLowerCase in H. cbn [flat_map] in H. unfold lowerUnit in H.
      destruct (isUpperAscii c); [discriminate|].
      destruct (c =? 8490)%N; [discriminate|].
      destruct (c =? 304)%N; discriminate.
    + intro H. inversion H. reflexivity.
  - assert (Hl : Forall (fun u => isLowerAscii u = true) name).
    { eapply Forall_impl; [|exact Hname]. cbv beta. tauto. }
    split.
    + intro H. destruct p as [|c p]; [discriminate|].
      unfold toLowerCase in H. cbn [flat_map] in H.
      destruct (lowerUnit_letter c t name _ Ht Hk Hl H) as [Hc Hp].
      constructor; [exact Hc|]. now apply IH.
    + intro H. inversion H as [|? c ? p' Hc Hp]; subst.
      unfold toLowerCase. cbn [flat_map].
      apply IH in Hp. unfold toLowerCase in Hp. rewrite Hp. f_equal.
      unfold isLowerAscii in Ht. apply andb_prop in Ht. destruct Ht as [T1 T2].
      apply N.leb_le in T1, T2. unfold lowerUnit, isUpperAscii.
      destruct Hc as [->| ->].
      * replace (65 <=? t)%N with true by (symmetry; apply N.leb_le; lia).
        replace (t <=? 90)%N with false by (symmetry; apply N.leb_gt; lia).
        cbn [andb].
        replace (t =? 8490)%N with false by (symmetry; apply N.eqb_neq; lia).
        now replace (t =? 304)%N with false by (symmetry; apply N.eqb_neq; lia).
      * replace (65 <=? t - 32)%N with true by (symmetry; apply N.leb_le; lia).
        replace (t - 32 <=? 90)%N with true by (symmetry; apply N.leb_le; lia).
        cbn [andb app]. f_equal. lia.
Qed.

(** X29.  The provider names that callLLM accepts.  It dispatches to
    callGroq exactly for the spellings of [groq] in small or capital
    ASCII letters, to callGemini exactly for those of [gemini], and
    throws [Unknown provider] for every other name: an empty name, a
    name with surrounding blanks, or one written with letters outside
    ASCII that only look or lower-case alike. *)
Theorem callLLM_accepted_spellings : forall env w provider messages max_tokens,
  (spells (lit "groq") provider ->
   callLLM env w provider messages max_tokens = callGroq env w messages max_tokens)
  /\ (spells (lit "gemini") provider ->
      callLLM env w provider messages max_tokens = callGemini env w messages)
  /\ (~ spells (lit "groq") provider ->
      ~ spells (lit "gemini") provider ->
      callLLM env w provider messages max_tokens
      = Throw (Error (lit "Unknown provider: " ++ provider))).
Proof.
  intros env w provider messages max_tokens.
  assert (Hg : toLowerCase provider = lit "groq" <-> spells (lit "groq") provider).
  { apply toLowerCase_spells. repeat constructor; discriminate. }
  assert (Hm : toLowerCase provider = lit "gemini" <-> spells (lit "gemini") provider).
  { apply toLowerCase_spells. repeat constructor; discriminate. }
  split; [|split].
  - intro H. apply Hg in H. apply providerCase_groq in H.
    unfold callLLM. now rewrite H.
  - intro H. apply Hm in H. apply providerCase_gemini in H.
    unfold callLLM. now rewrite H.
  - intros H1 H2. apply callLLM_unknown. apply providerCase_default.
    split; intro H; [apply H1; now apply Hg|apply H2; now apply Hm].
Qed.

Lemma callLLM_accepted_spellings_witness :
  callLLM quietEnv deadWorld (lit "GrOq") [] 1000 = callGroq quietEnv deadWorld [] 1000.
Proof.
  apply (callLLM_accepted_spellings quietEnv deadWorld (lit "GrOq") [] 1000).
  constructor; [right; reflexivity|].
  constructor; [left; reflexivity|].
  constructor; [right; reflexivity|].
  constructor; [left; reflexivity|constructor].
Defined.

(* ================================================================== *)
(** ** Further properties of extractJson *)
(* ================================================================== *)

Lemma trimStart_blank : forall s,
  Forall (fun c => isSpace c = true) s -> trimStart s = [].
Proof.
  induction 1 as [|c s Hc Hs IH]; cbn; [reflexivity|]. now rewrite Hc.
Qed.

Lemma blank_noBacktick : forall s,
  Forall (fun c => isSpace c = true) s -> noBacktick s.
Proof.
  intros s H. unfold noBacktick. eapply Forall_impl; [|exact H].
  intros c Hc E. subst c. discriminate.
Qed.

(** X9.  A reply that holds nothing but white space gives the empty
    array, and so does such a reply between an opening [```json] fence
    and a closing fence. *)
Theorem extractJson_blank : forall s,
  Forall (fun c => isSpace c = true) s ->
  extractJson s = JArr []
  /\ extractJson (lit "```json" ++ s ++ lit "```") = JArr [].
Proof.
  intros s H.
  assert (Hc : trim (stripFences s) = []).
  { rewrite (stripFences_plain s (blank_noBacktick s H)).
    unfold trim. now rewrite (trimStart_blank s H). }
  split.
  - rewrite extractJson_by_cleaned, cleanFences_described. now rewrite Hc.
  - rewrite extractJson_by_cleaned, cleanFences_described, stripFences_fenced.
    now rewrite Hc.
Qed.

Lemma extractJson_blank_witness :
  extractJson (lit "  " ++ nl) = JArr []
  /\ extractJson (lit "```json" ++ (lit "  " ++ nl) ++ lit "```") = JArr [].
Proof.
  apply (extractJson_blank (lit "  " ++ nl)).
  repeat constructor.
Defined.

(** *** A bracketed value inside prose *)

Lemma lastIndex_closing : forall cl body post,
  Forall (fun c => c <> cl) post ->
  lastIndex cl (body ++ cl :: post) = Some (List.length body).
Proof.
  intros cl body post Hpost.
  assert (Hp : lastIndex cl post = None).
  { induction Hpost as [|c post Hc Hpost IH]; cbn; [reflexivity|].
    rewrite IH. apply N.eqb_neq in Hc. now rewrite Hc. }
  induction body as [|b body IH]; cbn [app lastIndex List.length].
  - rewrite Hp. now rewrite N.eqb_refl.
  - now rewrite IH.
Qed.

Lemma firstn_closing : forall (o cl : N) body post,
  firstn (S (S (List.length body))) (o :: body ++ cl :: post) = o :: body ++ [cl].
Proof.
  intros o cl body post. cbn [firstn]. f_equal.
  induction body as [|b body IH]; cbn [app List.length firstn]; [reflexivity|].
  now rewrite IH.
Qed.

Lemma bracketedSubstring_prose : forall pre s,
  Forall (fun c => c <> ch "{" /\ c <> ch "[") pre ->
  bracketedSubstring (pre ++ s) = bracketedSubstring s.
Proof.
  induction 1 as [|c pre [H1 H2] Hpre IH]; [reflexivity|].
  cbn [app]. rewrite <- IH.
  apply N.eqb_neq in H1, H2.
  apply bracketedSubstring_shift; now apply span_cons_other.
Qed.

Lemma bracketedSubstring_square : forall body post,
  Forall (fun c => c <> ch "]") post ->
  bracketedSubstring (ch "[" :: body ++ ch "]" :: post) = Some (ch "[" :: body ++ [ch "]"]).
Proof.
  intros body post Hpost. unfold bracketedSubstring.
  rewrite (span_cons_other (ch "{") (ch "}") (ch "[")) by reflexivity.
  rewrite (span_cons_open (ch "[") (ch "]") (ch "[")) by reflexivity.
  rewrite (lastIndex_closing (ch "]") body post Hpost).
  destruct (span (ch "{") (ch "}") (body ++ ch "]" :: post)) as [[i j]|];
    cbn [option_map shift fst snd Nat.ltb Nat.leb];
    unfold substring; cbn [skipn Nat.sub]; now rewrite firstn_closing.
Qed.

Lemma bracketedSubstring_brace : forall body post,
  Forall (fun c => c <> ch "}") post ->
  bracketedSubstring (ch "{" :: body ++ ch "}" :: post) = Some (ch "{" :: body ++ [ch "}"]).
Proof.
  intros body post Hpost. unfold bracketedSubstring.
  rewrite (span_cons_other (ch "[") (ch "]") (ch "{")) by reflexivity.
  rewrite (span_cons_open (ch "{") (ch "}") (ch "{")) by reflexivity.
  rewrite (lastIndex_closing (ch "}") body post Hpost).
  destruct (span (ch "[") (ch "]") (body ++ ch "}" :: post)) as [[i j]|];
    cbn [option_map shift fst snd Nat.ltb Nat.leb];
    unfold substring; cbn [skipn Nat.sub]; now rewrite firstn_closing.
Qed.

Lemma extractJson_bracketed : forall text sub,
  (exists e, JSON_parse (cleanFences text) = Throw e) ->
  bracketedSubstring (cleanFences text) = Some sub ->
  extractJson text
  = match JSON_parse sub with Ok v => v | Throw _ => JArr [] end.
Proof.
  intros text sub [e He] Hsub.
  rewrite extractJson_by_cleaned.
  destruct (cleanFences text) as [|c cleaned]; [discriminate|].
  cbv beta iota zeta. rewrite He. unfold exec.
  pose proof (searchFrom_bracketed (c :: cleaned) 0) as Hs. rewrite Hsub in Hs.
  destruct (searchFrom bracketed (c :: cleaned) 0) as [m|]; [|discriminate].
  cbn [option_map] in Hs. injection Hs as ->. reflexivity.
Qed.

(** X10.  A JSON value wrapped in prose is found.  When the reply,
    fences removed, is not JSON as a whole but consists of a text without
    any opening bracket or brace, then a part from [[] to []], then a
    text without []], extractJson returns what that part parses to, or
    the empty array when it does not parse.  The same holds for a part
    from an opening to a closing brace followed by a text without closing
    brace. *)
Theorem extractJson_value_in_prose : forall text pre body post,
  (exists e, JSON_parse (cleanFences text) = Throw e) ->
  Forall (fun c => c <> ch "{" /\ c <> ch "[") pre ->
  (cleanFences text = pre ++ (ch "[" :: body ++ [ch "]"]) ++ post ->
   Forall (fun c => c <> ch "]") post ->
   extractJson text
   = match JSON_parse (ch "[" :: body ++ [ch "]"]) with
     | Ok v => v
     | Throw _ => JArr []
     end)
  /\ (cleanFences text = pre ++ (ch "{" :: body ++ [ch "}"]) ++ post ->
      Forall (fun c => c <> ch "}") post ->
      extractJson text
      = match JSON_parse (ch "{" :: body ++ [ch "}"]) with
        | Ok v => v
        | Throw _ => JArr []
        end).
Proof.
  intros text pre body post Hfail Hpre. split; intros Hc Hpost.
  - apply extractJson_bracketed; [exact Hfail|]. rewrite Hc.
    rewrite (bracketedSubstring_prose pre _ Hpre).
    cbn [app]. rewrite <- app_assoc. cbn [app].
    now apply bracketedSubstring_square.
  - apply extractJson_bracketed; [exact Hfail|]. rewrite Hc.
    rewrite (bracketedSubstring_prose pre _ Hpre).
    cbn [app]. rewrite <- app_assoc. cbn [app].
    now apply bracketedSubstring_brace.
Qed.

Lemma extractJson_value_in_prose_witness :
  extractJson (dq "Here is the analysis: [{'subtopic':'a','coverageScore':80}] I hope it helps.")
  = JArr [JObj [(lit "subtopic", JStr (lit "a"));
                (lit "coverageScore", JNum (JsNumber.ofZ 80))]].
Proof.
  refine (proj1 (extractJson_value_in_prose
           (dq "Here is the analysis: [{'subtopic':'a','coverageScore':80}] I hope it helps.")
           (lit "Here is the analysis: ")
           (dq "{'subtopic':'a','coverageScore':80}")
           (lit " I hope it helps.") _ _) _ _).
  - eexists. vm_compute. reflexivity.
  - repeat constructor; discriminate.
  - vm_compute. reflexivity.
  - repeat constructor; discriminate.
Defined.

(* ================================================================== *)
(** ** Further properties of analyzeCoverage *)
(* ================================================================== *)

(** *** The reply is JSON, but not a usable array *)

Lemma mapItems_null : forall items,
  In JNull items -> exists e, mapItems items = Throw e.
Proof.
  induction items as [|item items IH]; intros Hin; [contradiction|].
  cbn [mapItems]. destruct (normalizeItem item) as [x|e] eqn:En.
  - destruct Hin as [->|Hin]; [discriminate|].
    destruct (IH Hin) as [e He]. rewrite He. now exists e.
  - now exists e.
Qed.

(** X11.  A reply that is valid JSON but not an array, such as an object
    that wraps the list, a string or a number, makes analyzeCoverage take
    the failure path: the result is the zero-score report over the
    requested subtopics. *)
Theorem analyzeCoverage_reply_not_an_array :
  forall env w transcript subtopics provider text v,
    callLLM env w provider (buildMessages transcript subtopics) 2000 = Ok text ->
    JSON_parse (cleanFences text) = Ok v ->
    (forall items, v <> JArr items) ->
    analyzeCoverage env w transcript subtopics provider
    = Ok (failureReport subtopics provider).
Proof.
  intros env w transcript subtopics provider text v Hcall Hparse Hv.
  assert (exists e, analysis env w transcript subtopics provider = Throw e) as [e He].
  { unfold analysis. rewrite Hcall. cbn [bind].
    rewrite (extractJson_parsed text v Hparse).
    destruct v; try (eexists; reflexivity). exfalso. now apply (Hv items). }
  now apply analyzeCoverage_caught with e.
Qed.

Lemma analyzeCoverage_reply_not_an_array_witness :
  analyzeCoverage quietEnv (replyWorld (dq "{'results':[{'subtopic':'a','coverageScore':80}]}"))
    photosynthesis twoSubtopics (lit "groq")
  = Ok (failureReport twoSubtopics (lit "groq")).
Proof.
  eapply (analyzeCoverage_reply_not_an_array quietEnv
            (replyWorld (dq "{'results':[{'subtopic':'a','coverageScore':80}]}"))
            photosynthesis twoSubtopics (lit "groq")).
  - reflexivity.
  - vm_compute. reflexivity.
  - intros items. discriminate.
Defined.

(** X12.  One [null] among the items of the reply voids the whole
    analysis: the result is the zero-score report over the requested
    subtopics, whatever the other items hold. *)
Theorem analyzeCoverage_null_item :
  forall env w transcript subtopics provider text items,
    callLLM env w provider (buildMessages transcript subtopics) 2000 = Ok text ->
    JSON_parse (cleanFences text) = Ok (JArr items) ->
    In JNull items ->
    analyzeCoverage env w transcript subtopics provider
    = Ok (failureReport subtopics provider).
Proof.
  intros env w transcript subtopics provider text items Hcall Hparse Hin.
  destruct (mapItems_null items Hin) as [e He].
  apply analyzeCoverage_caught with e.
  unfold analysis. rewrite Hcall. cbn [bind].
  rewrite (extractJson_parsed text _ Hparse). cbn [mapValue]. now rewrite He.
Qed.

Lemma analyzeCoverage_null_item_witness :
  analyzeCoverage quietEnv
    (replyWorld (dq "[{'subtopic':'a','coverageScore':80,'evidence':'e'},null]"))
    photosynthesis twoSubtopics (lit "groq")
  = Ok (failureReport twoSubtopics (lit "groq")).
Proof.
  eapply (analyzeCoverage_null_item quietEnv
            (replyWorld (dq "[{'subtopic':'a','coverageScore':80,'evidence':'e'},null]"))
            photosynthesis twoSubtopics (lit "groq")).
  - reflexivity.
  - vm_compute. reflexivity.
  - right. left. reflexivity.
Defined.

(** *** How scores are read *)

Lemma normalizeItem_object : forall fields n,
  parseIntOrZero (member "coverageScore" fields) = Ok n ->
  normalizeItem (JObj fields)
  = Ok (mkItem (member "subtopic" fields) (Z.min (Z.max n 0) 100) (50 <=? n)%Z
          (or_else (member "evidence" fields) noEvidence)).
Proof.
  intros fields n H. unfold normalizeItem. cbn [get bind].
  fold (member "subtopic" fields). fold (member "coverageScore" fields).
  fold (member "evidence" fields). rewrite H. reflexivity.
Qed.

Lemma forallb_below : forall (f : N -> bool) (bound n : N),
  forallb f (map N.of_nat (List.seq 0 (N.to_nat bound))) = true ->
  (n < bound)%N ->
  f n = true.
Proof.
  intros f bound n H Hn. rewrite forallb_forall in H. apply H.
  apply in_map_iff. exists (N.to_nat n). split; [lia|].
  apply in_seq. lia.
Qed.

Lemma sameNumber_eq : forall x y, sameNumber x y = true -> x = y.
Proof.
  intros [s| s| |s m e] [s'| s'| |s' m' e'] H; cbn in H; try discriminate.
  - apply Bool.eqb_prop in H. now subst.
  - apply Bool.eqb_prop in H. now subst.
  - reflexivity.
  - apply andb_prop in H. destruct H as [H He]. apply andb_prop in H.
    destruct H as [Hs Hm]. apply Bool.eqb_prop in Hs. apply Pos.eqb_eq in Hm.
    apply Z.eqb_eq in He. now subst.
Qed.

Lemma agree_spec : forall parsed read x z,
  agree parsed read x z = true -> parsed = Ok (JNum x) /\ read = Ok z.
Proof.
  intros parsed read x z H. unfold agree in H.
  destruct parsed as [[| | |y| | |]|]; try discriminate.
  destruct read as [z'|]; [|discriminate].
  apply andb_prop in H. destruct H as [Hx Hz].
  apply sameNumber_eq in Hx. apply Z.eqb_eq in Hz. now subst.
Qed.

(** X13.  Scores given as JSON numbers.  An integer from 0 to 1000 is
    read by JSON.parse as the number that [parseInt(v) || 0] gives back
    unchanged, so the item gets that score cut to 100, and is covered
    from 50 on.  A score with two decimals is cut down to its integer
    part, never rounded: 59.99 gives 59 and is covered, 0.85 gives 0. *)
Theorem normalizeItem_number_scores : forall fields,
  (forall n : N,
      (n <= 1000)%N ->
      JSON_parse (decimal n) = Ok (JNum (ofN n))
      /\ (member "coverageScore" fields = JNum (ofN n) ->
          exists item,
            normalizeItem (JObj fields) = Ok item
            /\ coverageScore item = Z.min (Z.of_N n) 100
            /\ covered item = (50 <=? Z.of_N n)%Z))
  /\ (forall k : N,
        (k < 10000)%N ->
        member "coverageScore" fields = JNum (ofDecimal false k (-2)) ->
        exists item,
          normalizeItem (JObj fields) = Ok item
          /\ coverageScore item = Z.of_N (k / 100)
          /\ covered item = (5000 <=? k)%N).
Proof.
  intro fields. split.
  - intros n Hn.
    assert (E : forallb readsAsItself (map N.of_nat (List.seq 0 (N.to_nat 1001))) = true)
      by (vm_compute; reflexivity).
    pose proof (forallb_below readsAsItself 1001 n E ltac:(lia)) as R.
    unfold readsAsItself in R. apply agree_spec in R. destruct R as [Rp Rz].
    split; [exact Rp|].
    intro Hm. eexists. split.
    + apply normalizeItem_object. rewrite Hm. exact Rz.
    + cbn [coverageScore covered]. split; [lia|reflexivity].
  - intros k Hk Hm.
    assert (E : forallb readsTruncated (map N.of_nat (List.seq 0 (N.to_nat 10000))) = true)
      by (vm_compute; reflexivity).
    pose proof (forallb_below readsTruncated 10000 k E ltac:(lia)) as R.
    unfold readsTruncated in R. apply agree_spec in R. destruct R as [_ Rz].
    eexists. split.
    + apply normalizeItem_object. rewrite Hm. exact Rz.
    + cbn [coverageScore covered].
      assert (Hq : (k / 100 < 100)%N) by (apply N.Div0.div_lt_upper_bound; lia).
      assert (Hc : (5000 <=? k)%N = (50 <=? k / 100)%N).
      { destruct (5000 <=? k)%N eqn:E5; symmetry.
        - apply N.leb_le in E5. apply N.leb_le. apply N.div_le_lower_bound; lia.
        - apply N.leb_gt in E5. apply N.leb_gt. apply N.Div0.div_lt_upper_bound; lia. }
      rewrite Hc. clear Rz Hc. remember (k / 100)%N as q eqn:Eq. clear Eq.
      split; [lia|].
      destruct (50 <=? q)%N eqn:E5.
      * apply N.leb_le in E5. apply Z.leb_le. lia.
      * apply N.leb_gt in E5. apply Z.leb_gt. lia.
Qed.

Lemma normalizeItem_number_scores_witness :
  exists item,
    normalizeItem (JObj [(lit "subtopic", JStr (lit "a"));
                         (lit "coverageScore", JNum (ofDecimal false 5999 (-2)))])
    = Ok item
    /\ coverageScore item = Z.of_N (5999 / 100)
    /\ covered item = (5000 <=? 5999)%N.
Proof.
  apply (proj2 (normalizeItem_number_scores
                  [(lit "subtopic", JStr (lit "a"));
                   (lit "coverageScore", JNum (ofDecimal false 5999 (-2)))]) 5999%N).
  - reflexivity.
  - reflexivity.
Defined.

(** *** Scores given as text *)

Lemma digits_fuel_app : forall f n acc,
  digits_fuel f n acc = digits_fuel f n [] ++ acc.
Proof.
  induction f as [|f IH]; intros n acc; [reflexivity|].
  cbn [digits_fuel]. destruct (n <? 10)%N; [reflexivity|].
  rewrite (IH (n / 10)%N ((48 + n mod 10)%N :: acc)).
  rewrite (IH (n / 10)%N [(48 + n mod 10)%N]).
  now rewrite <- app_assoc.
Qed.

Lemma digitValue_digit : forall d, (d < 10)%N -> digitValue 10 (48 + d) = Some d.
Proof.
  intros d Hd. unfold digitValue, isDigit.
  replace (48 <=? 48 + d)%N with true by (symmetry; apply N.leb_le; lia).
  replace (48 + d <=? 57)%N with true by (symmetry; apply N.leb_le; lia).
  cbn [andb]. replace (48 + d - 48)%N with d by lia.
  now replace (d <? 10)%N with true by (symmetry; apply N.ltb_lt; lia).
Qed.

Lemma digitsPrefix_digits : forall f n tl,
  (n < 2 ^ N.of_nat (S f))%N ->
  digitsPrefix 10 (digits_fuel (S f) n tl) None = digitsPrefix 10 tl (Some n).
Proof.
  induction f as [|f IH]; intros n tl Hn.
  - change (2 ^ N.of_nat 1)%N with 2%N in Hn.
    cbn [digits_fuel]. replace (n <? 10)%N with true by (symmetry; apply N.ltb_lt; lia).
    rewrite N.mod_small by lia.
    cbn [digitsPrefix]. now rewrite (digitValue_digit n) by lia.
  - remember (S f) as g eqn:Eg. cbn [digits_fuel]. destruct (n <? 10)%N eqn:E.
    + apply N.ltb_lt in E. rewrite N.mod_small by exact E.
      cbn [digitsPrefix]. now rewrite (digitValue_digit n E).
    + apply N.ltb_ge in E. subst g.
      rewrite IH.
      * cbn [digitsPrefix].
        rewrite (digitValue_digit (n mod 10)) by (apply N.mod_lt; lia).
        f_equal. f_equal. rewrite (N.div_mod n 10) at 3 by lia. lia.
      * rewrite Nat2N.inj_succ, N.pow_succ_r' in Hn.
        apply N.Div0.div_lt_upper_bound. lia.
Qed.

Lemma digit_isDigit : forall d, (d < 10)%N -> isDigit (48 + d) = true.
Proof.
  intros d Hd. unfold isDigit. apply andb_true_intro. split; apply N.leb_le; lia.
Qed.

Lemma digits_fuel_digits : forall f n acc,
  Forall (fun c => isDigit c = true) acc ->
  Forall (fun c => isDigit c = true) (digits_fuel f n acc).
Proof.
  induction f as [|f IH]; intros n acc Hacc; [exact Hacc|].
  assert (Hd : isDigit (48 + n mod 10) = true).
  { apply digit_isDigit. apply N.mod_lt. lia. }
  cbn [digits_fuel]. destruct (n <? 10)%N.
  - now constructor.
  - apply IH. now constructor.
Qed.

Lemma decimal_digits : forall n,
  decimal n <> [] /\ Forall (fun c => isDigit c = true) (decimal n).
Proof.
  intro n. split.
  - unfold decimal. cbn [digits_fuel]. destruct (n <? 10)%N; [discriminate|].
    rewrite digits_fuel_app. intro H. apply app_eq_nil in H. destruct H; discriminate.
  - apply digits_fuel_digits. constructor.
Qed.

Lemma digit_not_space : forall c, isDigit c = true -> isSpace c = false.
Proof.
  intros c H. unfold isDigit in H. apply andb_prop in H. destruct H as [H1 H2].
  apply N.leb_le in H1, H2.
  unfold isSpace, isWhiteSpace, isLineTerminator.
  repeat match goal with
         | |- context [(c =? ?k)%N] =>
             replace (c =? k)%N with false by (symmetry; apply N.eqb_neq; lia)
         end.
  replace (8192 <=? c)%N with false by (symmetry; apply N.leb_gt; lia).
  reflexivity.
Qed.

Lemma digitsPrefix_stop : forall rest n,
  endsNumber rest -> digitsPrefix 10 rest (Some n) = Some n.
Proof.
  intros [|c rest] n H; [reflexivity|]. destruct H as [Hd _].
  cbn [digitsPrefix]. unfold digitValue. rewrite Hd.
  destruct (isLowerAscii c) eqn:El.
  - unfold isLowerAscii in El. apply andb_prop in El. destruct El as [E1 E2].
    apply N.leb_le in E1, E2.
    now replace (c - 87 <? 10)%N with false by (symmetry; apply N.ltb_ge; lia).
  - destruct (isUpperAscii c) eqn:Eu; [|reflexivity].
    unfold isUpperAscii in Eu. apply andb_prop in Eu. destruct Eu as [E1 E2].
    apply N.leb_le in E1, E2.
    now replace (c - 55 <? 10)%N with false by (symmetry; apply N.ltb_ge; lia).
Qed.

(** [parseInt] reads back the decimal text of a number, whatever follows
    the digits. *)
Lemma parseIntString_decimal : forall n rest,
  endsNumber rest -> parseIntString (decimal n ++ rest) = Some (Z.of_N n).
Proof.
  intros n rest Hrest.
  destruct (decimal_digits n) as [Hne Hd].
  assert (Hv : digitsPrefix 10 (decimal n ++ rest) None = Some n).
  { unfold decimal. rewrite <- digits_fuel_app.
    rewrite digitsPrefix_digits.
    - now apply digitsPrefix_stop.
    - rewrite Nat2N.inj_succ, N2Nat.id.
      destruct n as [|p]; [reflexivity|]. apply N.log2_spec. lia. }
  destruct (decimal n) as [|d ds] eqn:Ed; [contradiction|].
  inversion Hd as [|? ? Hd0 Hds]; subst.
  unfold parseIntString. cbn [app trimStart]. rewrite (digit_not_space d Hd0).
  assert (Hrange : (48 <= d <= 57)%N).
  { unfold isDigit in Hd0. apply andb_prop in Hd0. destruct Hd0 as [H1 H2].
    apply N.leb_le in H1, H2. lia. }
  replace (d =? ch "-")%N with false by (symmetry; apply N.eqb_neq; cbn; lia).
  replace (d =? ch "+")%N with false by (symmetry; apply N.eqb_neq; cbn; lia).
  assert (Hx : forall x r, ds ++ rest = x :: r ->
                           ((x =? ch "x") || (x =? ch "X"))%N = false).
  { intros x r E. destruct ds as [|d1 ds1].
    - cbn in E. subst rest. destruct Hrest as [_ [H1 H2]].
      apply N.eqb_neq in H1, H2. now rewrite H1, H2.
    - cbn in E. injection E as <- _. inversion Hds as [|? ? Hd1 _]; subst.
      unfold isDigit in Hd1. apply andb_prop in Hd1. destruct Hd1 as [H1 H2].
      apply N.leb_le in H1, H2.
      replace (d1 =? ch "x")%N with false by (symmetry; apply N.eqb_neq; cbn; lia).
      now replace (d1 =? ch "X")%N with false by (symmetry; apply N.eqb_neq; cbn; lia). }
  destruct (ds ++ rest) as [|x r] eqn:Er.
  - cbn [app] in Hv. rewrite Er in Hv. now rewrite Hv.
  - rewrite (Hx x r eq_refl). rewrite andb_false_r.
    cbn [app] in Hv. rewrite Er in Hv. now rewrite Hv.
Qed.

(** X14.  Scores given as text.  When the score of an item is a string
    that begins with the decimal digits of a number and goes on with
    anything that is not a digit, such as [85%], [85/100] or [85.5], the
    item gets that number cut to 100, and is covered from 50 on. *)
Theorem normalizeItem_text_scores : forall fields n rest,
  endsNumber rest ->
  member "coverageScore" fields = JStr (decimal n ++ rest) ->
  exists item,
    normalizeItem (JObj fields) = Ok item
    /\ coverageScore item = Z.min (Z.of_N n) 100
    /\ covered item = (50 <=? Z.of_N n)%Z.
Proof.
  intros fields n rest Hrest Hm. eexists. split.
  - apply normalizeItem_object. rewrite Hm.
    unfold parseIntOrZero, parseInt. cbn [ToString bind].
    rewrite (parseIntString_decimal n rest Hrest). reflexivity.
  - cbn [coverageScore covered]. split; [lia|reflexivity].
Qed.

Lemma normalizeItem_text_scores_witness :
  exists item,
    normalizeItem (JObj [(lit "subtopic", JStr (lit "a"));
                         (lit "coverageScore", JStr (lit "85%"))])
    = Ok item
    /\ coverageScore item = Z.min (Z.of_N 85) 100
    /\ covered item = (50 <=? Z.of_N 85)%Z.
Proof.
  apply (normalizeItem_text_scores
           [(lit "subtopic", JStr (lit "a")); (lit "coverageScore", JStr (lit "85%"))]
           85%N (lit "%")).
  - repeat split; discriminate.
  - reflexivity.
Defined.

(** *** The transcript in the prompt *)

(** X15.  Only the first 10000 units of the transcript reach the LLM.
    Two transcripts longer than that which agree on their first 10000
    units give the same result; the text put into the prompt never
    exceeds 10015 units; a transcript of exactly 10000 units or fewer is
    used whole. *)
Theorem analyzeCoverage_reads_first_10000 :
  (forall env w t1 t2 subtopics provider,
      (10000 < str_length t1)%N ->
      (10000 < str_length t2)%N ->
      substring0 10000 t1 = substring0 10000 t2 ->
      analyzeCoverage env w t1 subtopics provider
      = analyzeCoverage env w t2 subtopics provider)
  /\ (forall transcript, (str_length (truncateTranscript transcript) <= 10015)%N)
  /\ (forall transcript,
        (str_length transcript <= 10000)%N -> truncateTranscript transcript = transcript).
Proof.
  split; [|split].
  - intros env w t1 t2 subtopics provider H1 H2 H.
    assert (E : truncateTranscript t1 = truncateTranscript t2).
    { unfold truncateTranscript, truncationLimit.
      apply N.ltb_lt in H1, H2. now rewrite H1, H2, H. }
    unfold analyzeCoverage, analysis, buildMessages, buildPrompt. now rewrite E.
  - intro transcript. unfold truncateTranscript, truncationLimit.
    destruct (10000 <? str_length transcript)%N eqn:E.
    + unfold str_length, substring0. rewrite length_app.
      pose proof (firstn_le_length (N.to_nat 10000) transcript) as L.
      change (List.length (lit "... [truncated]")) with 15. lia.
    + apply N.ltb_ge in E. lia.
  - intros transcript H. unfold truncateTranscript, truncationLimit.
    apply N.ltb_ge in H. now rewrite H.
Qed.

Lemma analyzeCoverage_reads_first_10000_witness :
  analyzeCoverage quietEnv deadWorld (repeat (ch "a") (N.to_nat 10001)) twoSubtopics
    (lit "groq")
  = analyzeCoverage quietEnv deadWorld (repeat (ch "a") (N.to_nat 10000) ++ lit "bc")
      twoSubtopics (lit "groq").
Proof.
  apply (proj1 analyzeCoverage_reads_first_10000).
  - vm_compute. reflexivity.
  - vm_compute. reflexivity.
  - vm_compute. reflexivity.
Defined.

(* ================================================================== *)
(** ** The length of an array as a Number *)
(* ================================================================== *)

Lemma digits2_size : forall p, digits2_pos p = Pos.size p.
Proof. induction p; cbn; now rewrite ?IHp. Qed.

Lemma digits2_shift : forall k p,
  digits2_pos (Pos.iter xO p k) = (digits2_pos p + k)%positive.
Proof.
  intros k p. induction k as [|k IH] using Pos.peano_ind.
  - cbn. lia.
  - rewrite Pos.iter_succ. cbn [digits2_pos]. rewrite IH. lia.
Qed.

Lemma digits2_bound : forall p, (Npos p < 2 ^ 53)%N -> (Zpos (digits2_pos p) <= 53)%Z.
Proof.
  intros p H. rewrite digits2_size.
  pose proof (Pos.size_le p) as L.
  destruct (Z.le_gt_cases (Zpos (Pos.size p)) 53) as [Hle|Hgt]; [exact Hle|exfalso].
  assert (Hp : (2 ^ 54 <= 2 ^ Zpos (Pos.size p))%Z) by (apply Z.pow_le_mono_r; lia).
  apply Pos2Z.pos_le_pos in L. rewrite Pos2Z.inj_pow in L.
  change (2 ^ 53)%N with 9007199254740992%N in H.
  change (2 ^ 54)%Z with 18014398509481984%Z in Hp.
  lia.
Qed.

Lemma ofN_finite : forall p,
  (Npos p < 2 ^ 53)%N -> exists m e, ofN (Npos p) = S754_finite false m e.
Proof.
  intros p H. apply digits2_bound in H.
  unfold ofN, ofZ. cbn [Z.of_N binary_normalize]. unfold binary_round.
  set (d := digits2_pos p) in *.
  assert (Hf : fexp prec emax (Zpos d + 0) = (Zpos d - 53)%Z).
  { unfold fexp, SpecFloat.emin, prec, emax. lia. }
  rewrite Hf. unfold shl_align.
  assert (Aux : forall mz ez,
             Zpos (digits2_pos mz) = 53%Z -> (-1074 <= ez <= 971)%Z ->
             binary_round_aux prec emax false (Zpos mz) ez loc_Exact
             = S754_finite false mz ez).
  { intros mz ez Hd He. unfold binary_round_aux, shr_fexp.
    cbn [Zdigits2 shr_record_of_loc]. rewrite Hd.
    assert (Hz : (fexp prec emax (53 + ez) - ez = 0)%Z).
    { unfold fexp, SpecFloat.emin, prec, emax. lia. }
    rewrite Hz. cbn [shr shr_m loc_of_shr_record round_nearest_even Zdigits2 shr_record_of_loc].
    rewrite Hd, Hz. cbn [shr shr_m].
    unfold emax, prec. replace (ez <=? 1024 - 53)%Z with true by (symmetry; apply Z.leb_le; lia).
    reflexivity. }
  destruct (Zpos d - 53 - 0)%Z as [|q|q] eqn:E.
  - exists p, 0%Z. apply Aux; [fold d; lia|lia].
  - exfalso. lia.
  - exists (Pos.iter xO p q), (Zpos d - 53)%Z. apply Aux; [|lia].
    rewrite digits2_shift. fold d. lia.
Qed.

Lemma length_truthy : forall n : N,
  (0 < n < 2 ^ 53)%N -> JsValue.truthy (JNum (ofN n)) = true /\ isZeroNumber (JNum (ofN n)) = false.
Proof.
  intros [|p] [H0 H]; [lia|].
  destruct (ofN_finite p H) as [m [e E]]. cbn [JsValue.truthy isZeroNumber]. rewrite E. split; reflexivity.
Qed.

(* ================================================================== *)
(** ** The route POST /api/analyze *)
(* ================================================================== *)

Lemma respond_object : forall env w w' beyond fields,
  Routes.respond env w w' beyond (JObj fields)
  = if negb (truthy (member "youtubeUrl" fields)) || negb (truthy (member "topic" fields))
       || negb (truthy (get_opt (member "customSubtopics" fields) (lit "length")))
    then Ok (Routes.mkResponse 400 (Routes.Failure Routes.required None None))
    else
      bind (Routes.extractVideoIdOf (member "youtubeUrl" fields)) (fun found =>
      match found with
      | None => Ok (Routes.mkResponse 400 (Routes.Failure Routes.invalidUrl None None))
      | Some videoId =>
          bind (getYouTubeVideoData env w videoId) (fun videoData =>
          bind (getTranscript env w' videoId) (fun transcript =>
          bind (Routes.analyzeCoverageOf env w' beyond transcript
                  (member "customSubtopics" fields) (providerOf fields))
            (fun analysis =>
          bind (Routes.preview transcript) (fun shown =>
          Ok (Routes.mkResponse 200
                (Routes.Success (providerOf fields)
                   (Routes.mkVideoInfo videoId (title videoData) (channelTitle videoData)
                      (publishedAt videoData) (thumbnail videoData)
                      (Routes.watchUrl videoId))
                   shown (member "customSubtopics" fields) analysis))))))
      end).
Proof.
  intros env w w' beyond fields.
  unfold Routes.respond, providerOf, member. cbn [get bind]. reflexivity.
Qed.

Lemma respond_complete : forall env w w' beyond fields videoId,
  complete fields ->
  Routes.extractVideoIdOf (member "youtubeUrl" fields) = Ok (Some videoId) ->
  Routes.respond env w w' beyond (JObj fields)
  = bind (getYouTubeVideoData env w videoId) (fun videoData =>
    bind (getTranscript env w' videoId) (fun transcript =>
    bind (Routes.analyzeCoverageOf env w' beyond transcript
            (member "customSubtopics" fields) (providerOf fields))
      (fun analysis =>
    bind (Routes.preview transcript) (fun shown =>
    Ok (Routes.mkResponse 200
          (Routes.Success (providerOf fields)
             (Routes.mkVideoInfo videoId (title videoData) (channelTitle videoData)
                (publishedAt videoData) (thumbnail videoData)
                (Routes.watchUrl videoId))
             shown (member "customSubtopics" fields) analysis)))))).
Proof.
  intros env w w' beyond fields videoId [H1 [H2 H3]] Hid.
  rewrite respond_object, H1, H2, H3, Hid. reflexivity.
Qed.

Lemma strings_map : forall l, Routes.strings (map JStr l) = Some l.
Proof.
  induction l as [|s l IH]; [reflexivity|]. cbn. now rewrite IH.
Qed.

Lemma formBody_complete : forall fields url subtopics provider,
  formBody fields url subtopics provider -> complete fields.
Proof.
  intros fields url subtopics provider [Hu [Hne [Ht [Hs [Hsub [Hlen _]]]]]].
  unfold complete. rewrite Hu, Hs. split; [|split; [exact Ht|]].
  - destruct url; [contradiction|reflexivity].
  - unfold get_opt. cbn [get]. rewrite str_eqb_refl. rewrite length_map.
    apply length_truthy. split.
    + destruct subtopics; [contradiction|cbn; lia].
    + eapply N.lt_trans; [exact Hlen|reflexivity].
Qed.

(** X18.  The route and analyzeCoverage compose.  For a body as the form
    sends it, once the identifier has been extracted, the video data
    fetched and a transcript text obtained, the answer is always 200 with
    [success: true]: it carries the report of analyzeCoverage unchanged,
    the subtopics and the provider of the request, the link to the video
    and the first 500 units of the transcript.  In particular a failure
    of the LLM call is answered with 200 and the zero-score report, not
    with an error. *)
Theorem analyze_form_request :
  forall env NODE_ENV w w' beyond fields url subtopics provider videoId videoData transcript,
    formBody fields url subtopics provider ->
    extractVideoId url = Some videoId ->
    getYouTubeVideoData env w videoId = Ok videoData ->
    getTranscript env w' videoId = Ok (JStr transcript) ->
    exists report,
      analyzeCoverage env w' transcript subtopics provider = Ok report
      /\ Routes.analyze env NODE_ENV w w' beyond (JObj fields)
         = Routes.mkResponse 200
             (Routes.Success (JStr provider)
                (Routes.mkVideoInfo videoId (title videoData) (channelTitle videoData)
                   (publishedAt videoData) (thumbnail videoData)
                   (lit "https://www.youtube.com/watch?v=" ++ videoId))
                (substring0 500 transcript
                 ++ (if (500 <? str_length transcript)%N then lit "..." else []))
                (JArr (map JStr subtopics))
                report)
      /\ (forall e,
            callLLM env w' provider (buildMessages transcript subtopics) 2000 = Throw e ->
            report = failureReport subtopics provider).
Proof.
  intros env NODE_ENV w w' beyond fields url subtopics provider videoId videoData
    transcript Hbody Hid Hdata Htr.
  destruct (analyzeCoverage_returns env w' transcript subtopics provider) as [report Hr].
  exists report. split; [exact Hr|]. split.
  - unfold Routes.analyze.
    rewrite (respond_complete env w w' beyond fields videoId
               (formBody_complete _ _ _ _ Hbody)).
    + destruct Hbody as [Hu [_ [_ [Hs [_ [_ Hp]]]]]].
      rewrite Hdata, Htr, Hs, Hp. cbn [bind Routes.analyzeCoverageOf].
      rewrite strings_map, Hr. reflexivity.
    + destruct Hbody as [Hu _]. rewrite Hu. cbn [Routes.extractVideoIdOf]. now rewrite Hid.
  - intros e He.
    pose proof (analyzeCoverage_caught env w' transcript subtopics provider e
                  (analysis_callLLM_throws _ _ _ _ _ _ He)) as Hc.
    rewrite Hr in Hc. now injection Hc.
Qed.

Lemma analyze_form_request_witness :
  exists report,
    analyzeCoverage quietEnv (transcriptWorld (JStr photosynthesis)) photosynthesis
      twoSubtopics (lit "groq") = Ok report
    /\ Routes.analyze quietEnv None (transcriptWorld (JStr photosynthesis))
         (transcriptWorld (JStr photosynthesis)) noBeyond (JObj sampleBody)
       = Routes.mkResponse 200
           (Routes.Success (JStr (lit "groq"))
              (Routes.mkVideoInfo (lit "dQw4w9WgXcQ") (title sampleVideo)
                 (channelTitle sampleVideo) (publishedAt sampleVideo) (thumbnail sampleVideo)
                 (lit "https://www.youtube.com/watch?v=" ++ lit "dQw4w9WgXcQ"))
              (substring0 500 photosynthesis
               ++ (if (500 <? str_length photosynthesis)%N then lit "..." else []))
              (JArr (map JStr twoSubtopics))
              report)
    /\ (forall e,
          callLLM quietEnv (transcriptWorld (JStr photosynthesis)) (lit "groq")
            (buildMessages photosynthesis twoSubtopics) 2000 = Throw e ->
          report = failureReport twoSubtopics (lit "groq")).
Proof.
  apply (analyze_form_request quietEnv None (transcriptWorld (JStr photosynthesis))
           (transcriptWorld (JStr photosynthesis)) noBeyond sampleBody
           (lit "https://youtu.be/dQw4w9WgXcQ") twoSubtopics (lit "groq")
           (lit "dQw4w9WgXcQ") sampleVideo photosynthesis).
  - unfold formBody. repeat split; try reflexivity; discriminate.
  - vm_compute. reflexivity.
  - vm_compute. reflexivity.
  - vm_compute. reflexivity.
Defined.

(** *** Answers that need no service *)

Lemma respond_status : forall env w w' beyond body response,
  Routes.respond env w w' beyond body = Ok response ->
  Routes.status response = 400%N ->
  (Routes.json response = Routes.Failure Routes.required None None
   \/ Routes.json response = Routes.Failure Routes.invalidUrl None None)
  /\ forall env2 w2 w2' beyond2,
       Routes.respond env2 w2 w2' beyond2 body = Ok response.
Proof.
  intros env w w' beyond body response H Hs.
  unfold Routes.respond in *.
  destruct (get body (lit "youtubeUrl")) as [youtubeUrl|]; [|discriminate].
  destruct (get body (lit "topic")) as [topic|]; [|discriminate].
  destruct (get body (lit "customSubtopics")) as [customSubtopics|]; [|discriminate].
  destruct (get body (lit "provider")) as [given|]; [|discriminate].
  cbn [bind] in *. cbv zeta in *.
  destruct (negb (truthy youtubeUrl) || negb (truthy topic)
            || negb (truthy (get_opt customSubtopics (lit "length")))).
  - injection H as <-. split; [left; reflexivity|reflexivity].
  - destruct (Routes.extractVideoIdOf youtubeUrl) as [[videoId|]|]; [| |discriminate].
    + exfalso. cbn [bind] in H.
      destruct (getYouTubeVideoData env w videoId); [|discriminate].
      cbn [bind] in H. destruct (getTranscript env w' videoId) as [t|]; [|discriminate].
      cbn [bind] in H.
      destruct (Routes.analyzeCoverageOf env w' beyond t customSubtopics _);
        [|discriminate].
      cbn [bind] in H. destruct (Routes.preview t); [|discriminate].
      cbn [bind] in H. injection H as <-. discriminate.
    + cbn [bind] in *. injection H as <-. split; [right; reflexivity|reflexivity].
Qed.

(** X16.  When the handler answers with status 400, the body it was
    handed decides the answer alone: it is one of the two fixed error
    objects, and the handler gives the same answer whatever the keys, the
    mode and the services are, so that no service needs to be asked for
    it.  (The answers that express.json() gives by itself, to a request
    whose body it does not accept, are not the handler's.) *)
Theorem analyze_rejections_need_no_service :
  forall env NODE_ENV w w' beyond body,
    Routes.status (Routes.analyze env NODE_ENV w w' beyond body) = 400%N ->
    (Routes.json (Routes.analyze env NODE_ENV w w' beyond body)
     = Routes.Failure (lit "YouTube URL, topic, and at least one subtopic are required.")
         None None
     \/ Routes.json (Routes.analyze env NODE_ENV w w' beyond body)
        = Routes.Failure (lit "Invalid YouTube URL.") None None)
    /\ forall env2 NODE_ENV2 w2 w2' beyond2,
         Routes.analyze env2 NODE_ENV2 w2 w2' beyond2 body
         = Routes.analyze env NODE_ENV w w' beyond body.
Proof.
  intros env NODE_ENV w w' beyond body H. unfold Routes.analyze in *.
  destruct (Routes.respond env w w' beyond body) as [response|e] eqn:E;
    [|discriminate].
  destruct (respond_status _ _ _ _ _ _ E H) as [Hj Hall].
  split; [exact Hj|]. intros env2 NODE_ENV2 w2 w2' beyond2. now rewrite Hall.
Qed.

Lemma analyze_rejections_witness :
  (Routes.json (Routes.analyze quietEnv None deadWorld deadWorld noBeyond
                  (JObj [(lit "youtubeUrl", JStr (lit "https://youtu.be/vAbCdEfGhIj"));
                         (lit "topic", JStr (lit "Biology"));
                         (lit "customSubtopics", JArr [JStr (lit "light")])]))
   = Routes.Failure (lit "YouTube URL, topic, and at least one subtopic are required.")
       None None
   \/ Routes.json (Routes.analyze quietEnv None deadWorld deadWorld noBeyond
                     (JObj [(lit "youtubeUrl", JStr (lit "https://youtu.be/vAbCdEfGhIj"));
                            (lit "topic", JStr (lit "Biology"));
                            (lit "customSubtopics", JArr [JStr (lit "light")])]))
      = Routes.Failure (lit "Invalid YouTube URL.") None None)
  /\ forall env2 NODE_ENV2 w2 w2' beyond2,
       Routes.analyze env2 NODE_ENV2 w2 w2' beyond2
         (JObj [(lit "youtubeUrl", JStr (lit "https://youtu.be/vAbCdEfGhIj"));
                (lit "topic", JStr (lit "Biology"));
                (lit "customSubtopics", JArr [JStr (lit "light")])])
       = Routes.analyze quietEnv None deadWorld deadWorld noBeyond
           (JObj [(lit "youtubeUrl", JStr (lit "https://youtu.be/vAbCdEfGhIj"));
                  (lit "topic", JStr (lit "Biology"));
                  (lit "customSubtopics", JArr [JStr (lit "light")])]).
Proof.
  apply analyze_rejections_need_no_service.
  vm_compute. reflexivity.
Defined.

(** X17.  The topic is required and then ignored.  Two bodies that
    differ in nothing but their topic, both topics being truthy, get the
    same answer: the topic reaches neither the services nor the answer. *)
Theorem analyze_ignores_topic :
  forall env NODE_ENV w w' beyond fields1 fields2,
    (forall key, key <> lit "topic" -> lookup key fields1 = lookup key fields2) ->
    truthy (member "topic" fields1) = true ->
    truthy (member "topic" fields2) = true ->
    Routes.analyze env NODE_ENV w w' beyond (JObj fields1)
    = Routes.analyze env NODE_ENV w w' beyond (JObj fields2).
Proof.
  intros env NODE_ENV w w' beyond fields1 fields2 Hsame H1 H2.
  assert (Hm : forall key : string,
             lit key <> lit "topic" -> member key fields1 = member key fields2).
  { intros key Hk. unfold member. now rewrite (Hsame (lit key) Hk). }
  unfold Routes.analyze. rewrite !respond_object. unfold providerOf.
  rewrite H1, H2.
  rewrite (Hm "youtubeUrl"%string), (Hm "customSubtopics"%string),
    (Hm "provider"%string) by discriminate.
  reflexivity.
Qed.

Lemma analyze_ignores_topic_witness :
  Routes.analyze quietEnv None deadWorld deadWorld noBeyond
    (JObj [(lit "topic", JStr (lit "Biology"));
           (lit "youtubeUrl", JStr (lit "https://youtu.be/dQw4w9WgXcQ"));
           (lit "customSubtopics", JArr [JStr (lit "light")])])
  = Routes.analyze quietEnv None deadWorld deadWorld noBeyond
      (JObj [(lit "topic", JStr (lit "Cooking"));
             (lit "youtubeUrl", JStr (lit "https://youtu.be/dQw4w9WgXcQ"));
             (lit "customSubtopics", JArr [JStr (lit "light")])]).
Proof.
  apply analyze_ignores_topic.
  - intros key Hk. cbn [lookup].
    destruct (str_eqb (lit "topic") key) eqn:E; [|reflexivity].
    apply str_eqb_eq in E. now subst key.
  - reflexivity.
  - reflexivity.
Defined.

(** *** Answers with status 500 *)

(** X19.  A youtubeUrl of the wrong type is answered with 500, not 400.
    When the body is an object whose three required members are truthy
    but whose [youtubeUrl] is not a string (a number, [true], an array or
    an object), extractVideoId throws a TypeError: the answer is 500 with
    the message of that error, the fixed details and, in development mode
    only, the error itself, and it is the same whatever the keys and the
    services are. *)
Theorem analyze_wrong_types :
  forall env NODE_ENV w w' beyond fields,
    complete fields ->
    (forall url, member "youtubeUrl" fields <> JStr url) ->
    Routes.status (Routes.analyze env NODE_ENV w w' beyond (JObj fields)) = 500%N
    /\ (exists e,
          err_kind e = TypeError
          /\ Routes.json (Routes.analyze env NODE_ENV w w' beyond (JObj fields))
             = Routes.Failure (err_message e)
                 (Some (lit "Please check API keys and try again."))
                 (if Routes.isDevelopment NODE_ENV then Some e else None))
    /\ forall env2 w2 w2' beyond2,
         Routes.analyze env2 NODE_ENV w2 w2' beyond2 (JObj fields)
         = Routes.analyze env NODE_ENV w w' beyond (JObj fields).
Proof.
  intros env NODE_ENV w w' beyond fields [H1 [H2 H3]] Hurl.
  assert (He : exists e, err_kind e = TypeError
                         /\ Routes.extractVideoIdOf (member "youtubeUrl" fields) = Throw e).
  { destruct (member "youtubeUrl" fields) as [| | | |url| |] eqn:E;
      try (eexists; split; [|reflexivity]; reflexivity).
    exfalso. now apply (Hurl url). }
  destruct He as [e [Hk He]].
  assert (Hall : forall env2 w2 w2' beyond2,
             Routes.analyze env2 NODE_ENV w2 w2' beyond2 (JObj fields)
             = Routes.mkResponse 500
                 (Routes.Failure (err_message e) (Some Routes.checkKeys)
                    (if Routes.isDevelopment NODE_ENV then Some e else None))).
  { intros env2 w2 w2' beyond2. unfold Routes.analyze.
    rewrite respond_object, H1, H2, H3, He. reflexivity. }
  rewrite Hall. split; [reflexivity|]. split.
  - exists e. split; [exact Hk|reflexivity].
  - intros env2 w2 w2' beyond2. now rewrite Hall.
Qed.

Lemma analyze_wrong_types_witness :
  Routes.status
    (Routes.analyze quietEnv None deadWorld deadWorld noBeyond
       (JObj [(lit "youtubeUrl", JNum (ofN 42));
              (lit "topic", JStr (lit "Biology"));
              (lit "customSubtopics", JArr [JStr (lit "light")])]))
  = 500%N.
Proof.
  apply (analyze_wrong_types quietEnv None deadWorld deadWorld noBeyond).
  - unfold complete. repeat split; vm_compute; reflexivity.
  - intros url. discriminate.
Defined.

(** X20.  A failing service is answered with 500 and the message of its
    exception.  When getYouTubeVideoData throws, the answer carries that
    message, the fixed details and, in development mode only, the stack;
    neither the transcript nor the LLM is consulted.  When the video data
    arrive and getTranscript throws, the same holds for its exception. *)
Theorem analyze_service_failures :
  forall env NODE_ENV w w' beyond fields videoId e,
    complete fields ->
    Routes.extractVideoIdOf (member "youtubeUrl" fields) = Ok (Some videoId) ->
    (getYouTubeVideoData env w videoId = Throw e
     \/ (exists videoData, getYouTubeVideoData env w videoId = Ok videoData)
        /\ getTranscript env w' videoId = Throw e) ->
    Routes.analyze env NODE_ENV w w' beyond (JObj fields)
    = Routes.mkResponse 500
        (Routes.Failure (err_message e)
           (Some (lit "Please check API keys and try again."))
           (if Routes.isDevelopment NODE_ENV then Some e else None))
    /\ (getYouTubeVideoData env w videoId = Throw e ->
        forall w2' beyond2,
          Routes.analyze env NODE_ENV w w2' beyond2 (JObj fields)
          = Routes.analyze env NODE_ENV w w' beyond (JObj fields)).
Proof.
  intros env NODE_ENV w w' beyond fields videoId e Hc Hid H.
  split.
  - unfold Routes.analyze. rewrite (respond_complete _ _ _ _ _ videoId Hc Hid).
    destruct H as [H|[[videoData Hv] H]].
    + now rewrite H.
    + rewrite Hv. cbn [bind]. now rewrite H.
  - intros Hd w2' beyond2. unfold Routes.analyze.
    rewrite !(respond_complete _ _ _ _ _ videoId Hc Hid). now rewrite Hd.
Qed.

Lemma analyze_service_failures_witness :
  Routes.analyze quietEnv (Some (lit "production")) deadWorld deadWorld noBeyond
    (JObj sampleBody)
  = Routes.mkResponse 500
      (Routes.Failure (lit "connect ECONNREFUSED")
         (Some (lit "Please check API keys and try again.")) None).
Proof.
  refine (proj1 (analyze_service_failures quietEnv (Some (lit "production")) deadWorld
                   deadWorld noBeyond sampleBody (lit "dQw4w9WgXcQ") refused _ _ _)).
  - unfold complete. repeat split; vm_compute; reflexivity.
  - vm_compute. reflexivity.
  - left. reflexivity.
Defined.

(** X22.  A transcript that is not a string ends in 500.  When the
    transcript service answers with a truthy [transcript] member that is
    not a string, an array of segments for instance, the route answers
    500 whatever analyzeCoverage makes of it: the preview calls
    [substring] on it, which only a string has. *)
Theorem analyze_transcript_not_a_string :
  forall env NODE_ENV w w' beyond fields videoId videoData transcript,
    complete fields ->
    Routes.extractVideoIdOf (member "youtubeUrl" fields) = Ok (Some videoId) ->
    getYouTubeVideoData env w videoId = Ok videoData ->
    getTranscript env w' videoId = Ok transcript ->
    (forall text, transcript <> JStr text) ->
    Routes.status (Routes.analyze env NODE_ENV w w' beyond (JObj fields)) = 500%N.
Proof.
  intros env NODE_ENV w w' beyond fields videoId videoData transcript Hc Hid Hv Ht Hn.
  unfold Routes.analyze. rewrite (respond_complete _ _ _ _ _ videoId Hc Hid).
  rewrite Hv, Ht. cbn [bind].
  destruct (Routes.analyzeCoverageOf env w' beyond transcript _ _) as [report|e];
    [|reflexivity].
  cbn [bind].
  destruct transcript as [| | | |text| |]; try reflexivity. exfalso. now apply (Hn text).
Qed.

Lemma analyze_transcript_not_a_string_witness :
  Routes.status
    (Routes.analyze quietEnv None
       (transcriptWorld (JArr [JObj [(lit "text", JStr photosynthesis)]]))
       (transcriptWorld (JArr [JObj [(lit "text", JStr photosynthesis)]]))
       (fun _ _ _ => Ok (failureReport twoSubtopics (lit "groq")))
       (JObj sampleBody))
  = 500%N.
Proof.
  apply (analyze_transcript_not_a_string quietEnv None
           (transcriptWorld (JArr [JObj [(lit "text", JStr photosynthesis)]]))
           (transcriptWorld (JArr [JObj [(lit "text", JStr photosynthesis)]]))
           (fun _ _ _ => Ok (failureReport twoSubtopics (lit "groq")))
           sampleBody (lit "dQw4w9WgXcQ") sampleVideo
           (JArr [JObj [(lit "text", JStr photosynthesis)]])).
  - unfold complete. repeat split; vm_compute; reflexivity.
  - vm_compute. reflexivity.
  - vm_compute. reflexivity.
  - vm_compute. reflexivity.
  - intros text. discriminate.
Defined.

(** *** What a successful answer holds *)

Lemma preview_length : forall transcript shown,
  Routes.preview transcript = Ok shown -> (str_length shown <= 503)%N.
Proof.
  intros transcript shown H. destruct transcript as [| | | |s| |]; try discriminate.
  cbn [Routes.preview] in H. injection H as <-.
  unfold str_length, substring0. rewrite length_app.
  pose proof (firstn_le_length (N.to_nat 500) s) as L.
  destruct (500 <? N.of_nat (List.length s))%N; cbn [List.length lit]; [|lia].
  change (List.length (lit "...")) with 3. lia.
Qed.

(** X21.  What every successful answer holds, whatever the body and the
    services were: its status is 200; the identifier in [videoInfo] is
    the one extractVideoId reads from the [youtubeUrl] of the body, which
    is a string; the link in [videoInfo] is the watch URL of that
    identifier, from which extractVideoId reads the same identifier
    again; the transcript shown has at most 503 units; the subtopics are
    those of the body. *)
Theorem analyze_success_holds :
  forall env NODE_ENV w w' beyond body st provider videoId title channelTitle
         publishedAt thumbnail youtubeUrl shown subtopics report,
    Routes.analyze env NODE_ENV w w' beyond body
    = Routes.mkResponse st
        (Routes.Success provider
           (Routes.mkVideoInfo videoId title channelTitle publishedAt thumbnail youtubeUrl)
           shown subtopics report) ->
    st = 200%N
    /\ (exists url,
          get body (lit "youtubeUrl") = Ok (JStr url)
          /\ extractVideoId url = Some videoId)
    /\ youtubeUrl = lit "https://www.youtube.com/watch?v=" ++ videoId
    /\ extractVideoId youtubeUrl = Some videoId
    /\ (str_length shown <= 503)%N
    /\ get body (lit "customSubtopics") = Ok subtopics.
Proof.
  intros env NODE_ENV w w' beyond body st provider videoId title channelTitle
    publishedAt thumbnail youtubeUrl shown subtopics report H.
  unfold Routes.analyze in H.
  destruct (Routes.respond env w w' beyond body) as [response|e] eqn:E;
    [subst response|discriminate].
  unfold Routes.respond in E.
  destruct (get body (lit "youtubeUrl")) as [u|]; [|discriminate].
  destruct (get body (lit "topic")) as [topic|]; [|discriminate].
  destruct (get body (lit "customSubtopics")) as [customSubtopics|]; [|discriminate].
  destruct (get body (lit "provider")) as [given|]; [|discriminate].
  cbn [bind] in E. cbv zeta in E.
  destruct (negb (truthy u) || negb (truthy topic)
            || negb (truthy (get_opt customSubtopics (lit "length")))); [discriminate|].
  destruct (Routes.extractVideoIdOf u) as [[found|]|] eqn:Eid; [|discriminate|discriminate].
  cbn [bind] in E.
  destruct (getYouTubeVideoData env w found) as [videoData|]; [|discriminate].
  cbn [bind] in E. destruct (getTranscript env w' found) as [t|]; [|discriminate].
  cbn [bind] in E.
  destruct (Routes.analyzeCoverageOf env w' beyond t customSubtopics _); [|discriminate].
  cbn [bind] in E. destruct (Routes.preview t) as [shown'|] eqn:Ep; [|discriminate].
  cbn [bind] in E. injection E as <- <- <- <- <- <- <- <- <- <-.
  destruct u as [| | | |s| |]; try discriminate. cbn [Routes.extractVideoIdOf] in Eid.
  injection Eid as Eid.
  split; [reflexivity|]. split; [exists s; split; [reflexivity|exact Eid]|].
  split; [reflexivity|]. split; [exact (watchUrl_again s found Eid)|].
  split; [exact (preview_length t shown' Ep)|reflexivity].
Qed.

Lemma analyze_success_holds_witness :
  200%N = 200%N
  /\ (exists url,
        get (JObj sampleBody) (lit "youtubeUrl") = Ok (JStr url)
        /\ extractVideoId url = Some (lit "dQw4w9WgXcQ"))
  /\ lit "https://www.youtube.com/watch?v=dQw4w9WgXcQ"
     = lit "https://www.youtube.com/watch?v=" ++ lit "dQw4w9WgXcQ"
  /\ extractVideoId (lit "https://www.youtube.com/watch?v=dQw4w9WgXcQ")
     = Some (lit "dQw4w9WgXcQ")
  /\ (str_length photosynthesis <= 503)%N
  /\ get (JObj sampleBody) (lit "customSubtopics") = Ok (JArr (map JStr twoSubtopics)).
Proof.
  apply (analyze_success_holds quietEnv None (transcriptWorld (JStr photosynthesis))
           (transcriptWorld (JStr photosynthesis)) noBeyond (JObj sampleBody) 200
           (JStr (lit "groq")) (lit "dQw4w9WgXcQ") (title sampleVideo)
           (channelTitle sampleVideo) (publishedAt sampleVideo) (thumbnail sampleVideo)
           (lit "https://www.youtube.com/watch?v=dQw4w9WgXcQ") photosynthesis
           (JArr (map JStr twoSubtopics)) (failureReport twoSubtopics (lit "groq"))).
  vm_compute. reflexivity.
Defined.

(* ================================================================== *)
(** ** The form of the frontend *)
(* ================================================================== *)

(** *** The subtopics typed into the form *)

Lemma segments_units : forall sep s,
  Forall (fun line => Forall (fun c => In c s /\ c <> sep) line)
    (fst (App.segments sep s) :: snd (App.segments sep s)).
Proof.
  intros sep. induction s as [|c s IH]; cbn [App.segments].
  - repeat constructor.
  - destruct (App.segments sep s) as [line lines]. cbn [fst snd] in *.
    assert (W : forall l : jsstring,
               Forall (fun x => In x s /\ x <> sep) l ->
               Forall (fun x => In x (c :: s) /\ x <> sep) l).
    { intros l H. eapply Forall_impl; [|exact H]. cbv beta. intros a [Ha Hs].
      split; [now right|exact Hs]. }
    assert (IH' : Forall (fun l => Forall (fun x => In x (c :: s) /\ x <> sep) l)
                    (line :: lines)).
    { eapply Forall_impl; [|exact IH]. exact W. }
    destruct (c =? sep)%N eqn:E; cbn [fst snd].
    + constructor; [constructor|exact IH'].
    + inversion IH' as [|? ? Hl Hls]; subst.
      constructor; [|exact Hls].
      constructor; [|exact Hl]. split; [now left|now apply N.eqb_neq].
Qed.

Lemma trimStart_In : forall c s, In c (trimStart s) -> In c s.
Proof.
  induction s as [|x s IH]; cbn; [tauto|].
  destruct (isSpace x); [intro H; right; now apply IH|tauto].
Qed.

Lemma trim_In : forall c s, In c (trim s) -> In c s.
Proof.
  intros c s H. unfold trim, trimEnd in H.
  apply in_rev in H. apply trimStart_In in H. apply in_rev in H.
  now apply trimStart_In in H.
Qed.

(** X23.  The subtopics that the form sends.  Each of them is a line of
    the text area with the white space at its ends removed: it is not
    empty, has no white space at either end, holds no line feed, and all
    its units come from the text typed. *)
Theorem subtopicsArray_lines : forall customSubtopics,
  Forall (fun line =>
            line <> []
            /\ trimmed line
            /\ trim line = line
            /\ Forall (fun c => In c customSubtopics /\ c <> 10%N) line)
    (App.subtopicsArray customSubtopics).
Proof.
  intro s. unfold App.subtopicsArray, App.split_lines.
  pose proof (segments_units 10 s) as U.
  destruct (App.segments 10 s) as [line lines]. cbn [fst snd] in U.
  apply Forall_forall. intros x Hx. apply filter_In in Hx. destruct Hx as [Hin Hlen].
  apply in_map_iff in Hin. destruct Hin as [y [<- Hy]].
  rewrite Forall_forall in U. specialize (U y Hy).
  split; [|split; [|split]].
  - intro E. rewrite E in Hlen. discriminate.
  - apply trim_fixed. apply trim_idempotent.
  - apply trim_idempotent.
  - apply Forall_forall. intros c Hc. apply trim_In in Hc.
    rewrite Forall_forall in U. now apply U.
Qed.

Lemma trimStart_nil : forall s,
  trimStart s = [] <-> Forall (fun c => isSpace c = true) s.
Proof.
  induction s as [|c s IH]; cbn.
  - split; [constructor|reflexivity].
  - destruct (isSpace c) eqn:E.
    + rewrite IH. split; [now constructor|now inversion 1].
    + split; [discriminate|]. inversion 1; subst. congruence.
Qed.

Lemma trim_nil : forall s, trim s = [] <-> Forall (fun c => isSpace c = true) s.
Proof.
  intro s. unfold trim, trimEnd. split.
  - intro H. apply (f_equal (@rev N)) in H. rewrite rev_involutive in H. cbn in H.
    apply trimStart_nil in H. apply Forall_rev in H. rewrite rev_involutive in H.
    (* the units dropped at the front are white space *)
    clear - H. induction s as [|c s IH]; [constructor|].
    cbn [trimStart] in H. destruct (isSpace c) eqn:E.
    + constructor; [exact E|now apply IH].
    + inversion H; subst. congruence.
  - intro H. apply trimStart_nil in H. now rewrite H.
Qed.

Lemma segments_whole : forall (P : N -> Prop) sep,
  P sep ->
  forall s,
    Forall (Forall P) (fst (App.segments sep s) :: snd (App.segments sep s)) ->
    Forall P s.
Proof.
  intros P sep Hsep. induction s as [|c s IH]; [constructor|].
  cbn [App.segments]. destruct (App.segments sep s) as [line lines].
  cbn [fst snd] in *. destruct (c =? sep)%N eqn:E; cbn [fst snd]; intro H.
  - apply N.eqb_eq in E. subst c. inversion H; subst. constructor; [exact Hsep|auto].
  - inversion H as [|? ? Hl Hls]; subst. inversion Hl; subst.
    constructor; [assumption|]. apply IH. now constructor.
Qed.

Lemma filter_nil : forall (A : Type) (f : A -> bool) l,
  filter f l = [] <-> Forall (fun x => f x = false) l.
Proof.
  intros A f. induction l as [|x l IH]; cbn.
  - split; [constructor|reflexivity].
  - destruct (f x) eqn:E.
    + split; [discriminate|]. inversion 1; subst. congruence.
    + rewrite IH. split; [now constructor|now inversion 1].
Qed.

(** X24.  The form sends no subtopic exactly when the text area holds
    nothing but white space and line breaks.  handleAnalyze then stops
    with the message [Please enter at least one subtopic.], whatever the
    server would have answered. *)
Theorem subtopicsArray_empty : forall customSubtopics,
  (App.subtopicsArray customSubtopics = []
   <-> Forall (fun c => isSpace c = true) customSubtopics)
  /\ (forall fetch s,
        App.customSubtopics s = customSubtopics ->
        Forall (fun c => isSpace c = true) customSubtopics ->
        App.error (App.handleAnalyze fetch s) = lit "Please enter at least one subtopic."
        /\ App.results (App.handleAnalyze fetch s) = JNull).
Proof.
  intro s.
  assert (Hiff : App.subtopicsArray s = [] <-> Forall (fun c => isSpace c = true) s).
  { unfold App.subtopicsArray, App.split_lines.
    pose proof (segments_units 10 s) as U.
    pose proof (segments_whole (fun c => isSpace c = true) 10 eq_refl s) as W.
    destruct (App.segments 10 s) as [line lines]. cbn [fst snd] in U, W.
    rewrite filter_nil. split.
    - intro H. apply W. apply Forall_forall. intros x Hx.
      rewrite Forall_forall in H. specialize (H (trim x) (in_map trim _ x Hx)).
      cbv beta in H. apply trim_nil.
      destruct (trim x); [reflexivity|discriminate].
    - intro H. apply Forall_forall. intros y Hy.
      apply in_map_iff in Hy. destruct Hy as [x [<- Hx]].
      assert (Hb : Forall (fun c => isSpace c = true) x).
      { rewrite Forall_forall in U. specialize (U x Hx).
        apply Forall_forall. intros c Hc. rewrite Forall_forall in U.
        destruct (U c Hc) as [Hin _]. rewrite Forall_forall in H. now apply H. }
      apply trim_nil in Hb. now rewrite Hb. }
  split; [exact Hiff|].
  intros fetch st Hs Hblank. apply Hiff in Hblank.
  unfold App.handleAnalyze, App.submit. rewrite Hs, Hblank. split; reflexivity.
Qed.

Lemma subtopicsArray_empty_witness :
  App.error (App.handleAnalyze (fun _ _ => Throw refused)
               (App.mkForm (lit "https://youtu.be/dQw4w9WgXcQ") (lit "Biology")
                  (lit "  " ++ nl ++ lit " ") (lit "groq") JNull false []))
  = lit "Please enter at least one subtopic."
  /\ App.results (App.handleAnalyze (fun _ _ => Throw refused)
                    (App.mkForm (lit "https://youtu.be/dQw4w9WgXcQ") (lit "Biology")
                       (lit "  " ++ nl ++ lit " ") (lit "groq") JNull false []))
     = JNull.
Proof.
  apply (proj2 (subtopicsArray_empty (lit "  " ++ nl ++ lit " "))).
  - reflexivity.
  - repeat constructor.
Defined.

(** *** Lines put together and taken apart *)

Lemma segments_plain : forall sep x,
  ~ In sep x -> App.segments sep x = (x, []).
Proof.
  intros sep. induction x as [|c x IH]; intro H; [reflexivity|].
  cbn [App.segments]. rewrite IH by (intro Hin; apply H; now right).
  replace (c =? sep)%N with false; [reflexivity|].
  symmetry. apply N.eqb_neq. intro E. apply H. now left.
Qed.

Lemma segments_joined : forall sep x s,
  ~ In sep x ->
  App.segments sep (x ++ sep :: s)
  = (x, fst (App.segments sep s) :: snd (App.segments sep s)).
Proof.
  intros sep. induction x as [|c x IH]; intros s H.
  - cbn [app App.segments]. rewrite N.eqb_refl.
    now destruct (App.segments sep s).
  - cbn [app App.segments]. rewrite IH by (intro Hin; apply H; now right).
    replace (c =? sep)%N with false; [reflexivity|].
    symmetry. apply N.eqb_neq. intro E. apply H. now left.
Qed.

Lemma segments_joinWith : forall sep x lines,
  Forall (fun line => ~ In sep line) (x :: lines) ->
  App.segments sep (joinWith [sep] (x :: lines)) = (x, lines).
Proof.
  intros sep x lines. revert x. induction lines as [|y lines IH]; intros x H.
  - cbn [joinWith]. apply segments_plain. now inversion H.
  - inversion H as [|? ? Hx Hrest]; subst.
    change (joinWith [sep] (x :: y :: lines))
      with (x ++ sep :: joinWith [sep] (y :: lines)).
    rewrite (segments_joined sep x _ Hx). now rewrite (IH y Hrest).
Qed.

Lemma filter_trimmed : forall lines : list jsstring,
  Forall (fun line => line <> [] /\ trim line = line /\ ~ In 10%N line) lines ->
  filter (fun line => (0 <? str_length line)%N) (map trim lines) = lines.
Proof.
  induction 1 as [|y l [Hne [Ht _]] Hl IH]; [reflexivity|].
  cbn [map filter]. rewrite Ht.
  destruct y as [|c y]; [contradiction|]. cbn [str_length List.length].
  replace (0 <? N.of_nat (S (List.length y)))%N with true
    by (symmetry; apply N.ltb_lt; lia).
  now rewrite IH.
Qed.

(** X25.  Round trip through the text area.  Subtopics that are not
    empty, have no white space at their ends and hold no line feed, typed
    one per line, are the subtopics that the form sends, in the same
    order. *)
Theorem subtopicsArray_round_trip : forall lines,
  Forall (fun line => line <> [] /\ trim line = line /\ ~ In 10%N line) lines ->
  App.subtopicsArray (joinWith nl lines) = lines.
Proof.
  intros lines H. unfold App.subtopicsArray, App.split_lines.
  destruct lines as [|x lines]; [reflexivity|].
  unfold nl. rewrite segments_joinWith.
  - now apply filter_trimmed.
  - eapply Forall_impl; [|exact H]. cbv beta. tauto.
Qed.

Lemma subtopicsArray_round_trip_witness :
  App.subtopicsArray (joinWith nl twoSubtopics) = twoSubtopics.
Proof.
  apply subtopicsArray_round_trip.
  repeat constructor; try discriminate;
    cbn; intuition discriminate.
Defined.

(** *** The mark beside a score *)

Lemma report_item_flag : forall env w transcript subtopics provider report item,
  analyzeCoverage env w transcript subtopics provider = Ok report ->
  In item (subtopicAnalysis report) ->
  (0 <= coverageScore item <= 100)%Z
  /\ (covered item = true <-> (50 <= coverageScore item)%Z).
Proof.
  intros env w transcript subtopics provider report item H Hin.
  unfold analyzeCoverage, try_catch in H.
  destruct (analysis env w transcript subtopics provider) as [r|e] eqn:Ha.
  - injection H as <-.
    apply analysis_inv in Ha as [text [raws [_ [_ Hmap]]]].
    apply mapItems_Forall2 in Hmap.
    destruct (Forall2_In_r _ _ _ _ _ _ Hmap Hin) as [raw [_ Hnorm]].
    apply normalizeItem_spec in Hnorm as [sub [score [n [ev [_ [_ [_ [_ ->]]]]]]]].
    cbn [coverageScore covered]. split; [apply clamp_bounds|apply clamp_covered].
  - injection H as <-. cbn [failureReport subtopicAnalysis] in Hin.
    apply in_map_iff in Hin as [sub [<- _]]. cbn [failedItem coverageScore covered].
    split; [lia|]. split; [discriminate|lia].
Qed.

(** X26.  The mark that the frontend shows never contradicts the flag
    that the server set.  For every item of a report of analyzeCoverage:
    when the frontend shows it as covered (score 70 or more) the flag
    [covered] is true; when it shows it as not covered (score below 40)
    the flag is false; in between it shows it as partial, and the flag is
    true from 50 on. *)
Theorem scoreClass_agrees_with_covered :
  forall env w transcript subtopics provider report item,
    analyzeCoverage env w transcript subtopics provider = Ok report ->
    In item (subtopicAnalysis report) ->
    match App.scoreClass (coverageScore item) with
    | App.Covered => covered item = true /\ (70 <= coverageScore item <= 100)%Z
    | App.NotCovered => covered item = false /\ (0 <= coverageScore item < 40)%Z
    | App.Partial =>
        (40 <= coverageScore item < 70)%Z
        /\ covered item = (50 <=? coverageScore item)%Z
    end.
Proof.
  intros env w transcript subtopics provider report item H Hin.
  destruct (report_item_flag _ _ _ _ _ _ _ H Hin) as [Hb Hc].
  unfold App.scoreClass.
  destruct (70 <=? coverageScore item)%Z eqn:E70.
  - apply Z.leb_le in E70. split; [apply Hc; lia|lia].
  - apply Z.leb_gt in E70. destruct (40 <=? coverageScore item)%Z eqn:E40.
    + apply Z.leb_le in E40. split; [lia|].
      destruct (50 <=? coverageScore item)%Z eqn:E50.
      * apply Z.leb_le in E50. now apply Hc.
      * apply Z.leb_gt in E50. destruct (covered item); [|reflexivity].
        assert (50 <= coverageScore item)%Z by now apply Hc. lia.
    + apply Z.leb_gt in E40. split; [|lia].
      destruct (covered item); [|reflexivity].
      assert (50 <= coverageScore item)%Z by now apply Hc. lia.
Qed.

Lemma scoreClass_agrees_witness :
  match App.scoreClass 60 with
  | App.Covered => true = true /\ (70 <= 60 <= 100)%Z
  | App.NotCovered => true = false /\ (0 <= 60 < 40)%Z
  | App.Partial => (40 <= 60 < 70)%Z /\ true = (50 <=? 60)%Z
  end.
Proof.
  apply (scoreClass_agrees_with_covered quietEnv (replyWorld goodReply) photosynthesis
           twoSubtopics (lit "groq")
           (mkReport (RoundedInt 70)
              [mkItem (JStr (lit "light reactions")) 80 true (JStr (lit "..."));
               mkItem (JStr (lit "energy conversion")) 60 true (JStr (lit "..."))]
              (lit "Overall coverage based on 2 subtopics using groq."))
           (mkItem (JStr (lit "energy conversion")) 60 true (JStr (lit "...")))).
  - vm_compute. reflexivity.
  - right. left. reflexivity.
Defined.

(** *** handleAnalyze *)

(** X27.  The state that handleAnalyze leaves.  Whatever the server does,
    [loading] is off at the end and the four fields of the form are
    untouched.  Results and an error message are never both there.  When
    results are there, they are the body of an answer that the server
    gave with an ok status to the request built from the form.  An answer
    that is not ok and carries an [error] text leaves that text as the
    message, and [Analysis failed] when it carries none. *)
Theorem handleAnalyze_outcome : forall fetch s,
  App.loading (App.handleAnalyze fetch s) = false
  /\ App.youtubeUrl (App.handleAnalyze fetch s) = App.youtubeUrl s
  /\ App.topic (App.handleAnalyze fetch s) = App.topic s
  /\ App.customSubtopics (App.handleAnalyze fetch s) = App.customSubtopics s
  /\ App.provider (App.handleAnalyze fetch s) = App.provider s
  /\ (App.showsResults (App.handleAnalyze fetch s) = true ->
      App.showsError (App.handleAnalyze fetch s) = false)
  /\ (App.results (App.handleAnalyze fetch s) <> JNull ->
      exists response,
        fetch App.analyzeEndpoint
          (App.requestBody s (App.subtopicsArray (App.customSubtopics s))) = Ok response
        /\ App.ok response = true
        /\ App.body response = Ok (App.results (App.handleAnalyze fetch s)))
  /\ (forall response data,
        App.subtopicsArray (App.customSubtopics s) <> [] ->
        fetch App.analyzeEndpoint
          (App.requestBody s (App.subtopicsArray (App.customSubtopics s))) = Ok response ->
        App.ok response = false ->
        App.body response = Ok (JObj data) ->
        App.results (App.handleAnalyze fetch s) = JNull
        /\ (lookup (lit "error") data = None ->
            App.error (App.handleAnalyze fetch s) = lit "Analysis failed")
        /\ (forall message,
              lookup (lit "error") data = Some (JStr message) ->
              message <> [] ->
              App.error (App.handleAnalyze fetch s) = message)).
Proof.
  intros fetch s. unfold App.handleAnalyze.
  destruct (App.submit fetch s) as [data|err] eqn:E; cbn [App.loading App.youtubeUrl
    App.topic App.customSubtopics App.provider App.results App.error App.showsResults
    App.showsError].
  - do 5 (split; [reflexivity|]). split; [intros _; reflexivity|]. split.
    + intros _. unfold App.submit in E.
      destruct (App.subtopicsArray (App.customSubtopics s)) as [|x l]; [discriminate|].
      destruct (fetch _ _) as [response|]; [|discriminate]. cbn [bind] in E.
      destruct (App.body response) as [d|] eqn:Eb; [|discriminate]. cbn [bind] in E.
      destruct (App.ok response) eqn:Eo; cbn [negb] in E.
      * injection E as <-. exists response. auto.
      * destruct (get d (lit "error")); [|discriminate]. cbn [bind] in E.
        destruct (ToString _); discriminate.
    + intros response d Hne Hf Hok Hb. exfalso. unfold App.submit in E.
      destruct (App.subtopicsArray (App.customSubtopics s)) as [|x l]; [contradiction|].
      rewrite Hf in E. cbn [bind] in E. rewrite Hb, Hok in E. cbn [bind negb get] in E.
      destruct (ToString _); discriminate.
  - do 5 (split; [reflexivity|]). split; [discriminate|]. split; [contradiction|].
    intros response d Hne Hf Hok Hb. split; [reflexivity|].
    unfold App.submit in E.
    destruct (App.subtopicsArray (App.customSubtopics s)) as [|x l]; [contradiction|].
    rewrite Hf in E. cbn [bind] in E. rewrite Hb, Hok in E. cbn [bind negb get] in E.
    split.
    + intro Hnone. rewrite Hnone in E. cbn in E. injection E as <-. reflexivity.
    + intros message Hsome Hm. rewrite Hsome in E.
      destruct message as [|c m]; [contradiction|]. cbn in E. injection E as <-.
      reflexivity.
Qed.

(** *** The form and the route together *)

Lemma requestBody_formBody : forall s subtopics,
  App.youtubeUrl s <> [] ->
  App.topic s <> [] ->
  subtopics <> [] ->
  (N.of_nat (List.length subtopics) < 2 ^ 32)%N ->
  exists fields,
    App.requestBody s subtopics = JObj fields
    /\ formBody fields (App.youtubeUrl s) subtopics (App.provider s).
Proof.
  intros s subtopics Hu Ht Hs Hl. eexists. split; [reflexivity|].
  unfold formBody. split; [reflexivity|]. split; [exact Hu|].
  split; [|split; [reflexivity|split; [exact Hs|split; [exact Hl|reflexivity]]]].
  cbn. destruct (App.topic s); [contradiction|reflexivity].
Qed.

(** X28.  The request that the form builds passes the validation of the
    route.  With a URL and a topic that are not empty and at least one
    subtopic, the route never answers that a field is required: it
    answers 400 only for a URL from which no identifier can be read, and
    otherwise goes on to the services. *)
Theorem form_request_passes_validation :
  forall env NODE_ENV w w' beyond s,
    App.youtubeUrl s <> [] ->
    App.topic s <> [] ->
    App.subtopicsArray (App.customSubtopics s) <> [] ->
    (N.of_nat (List.length (App.subtopicsArray (App.customSubtopics s))) < 2 ^ 32)%N ->
    Routes.json (Routes.analyze env NODE_ENV w w' beyond
                   (App.requestBody s (App.subtopicsArray (App.customSubtopics s))))
    <> Routes.Failure (lit "YouTube URL, topic, and at least one subtopic are required.")
         None None
    /\ (Routes.status (Routes.analyze env NODE_ENV w w' beyond
                         (App.requestBody s (App.subtopicsArray (App.customSubtopics s))))
        = 400%N
        <-> extractVideoId (App.youtubeUrl s) = None).
Proof.
  intros env NODE_ENV w w' beyond s Hu Ht Hs Hl.
  destruct (requestBody_formBody s _ Hu Ht Hs Hl) as [fields [Hb Hform]].
  rewrite Hb. pose proof (formBody_complete _ _ _ _ Hform) as [H1 [H2 H3]].
  destruct Hform as [Hurl _].
  unfold Routes.analyze. rewrite respond_object, H1, H2, H3, Hurl.
  cbn [negb orb Routes.extractVideoIdOf bind].
  destruct (extractVideoId (App.youtubeUrl s)) as [videoId|].
  - assert (Hn : forall r : Result Routes.Response,
               (forall x, r = Ok x -> Routes.status x = 200%N
                                      /\ exists p i t u a, Routes.json x = Routes.Success p i t u a) ->
               Routes.json (match r with
                            | Ok response => response
                            | Throw err =>
                                Routes.mkResponse 500
                                  (Routes.Failure (err_message err) (Some Routes.checkKeys)
                                     (if Routes.isDevelopment NODE_ENV then Some err else None))
                            end)
               <> Routes.Failure Routes.required None None
               /\ Routes.status (match r with
                                 | Ok response => response
                                 | Throw err =>
                                     Routes.mkResponse 500
                                       (Routes.Failure (err_message err)
                                          (Some Routes.checkKeys)
                                          (if Routes.isDevelopment NODE_ENV
                                           then Some err else None))
                                 end) <> 400%N).
    { intros [x|e] Hx.
      - destruct (Hx x eq_refl) as [Hst [p [i [t [u [a Hj]]]]]].
        rewrite Hj, Hst. split; discriminate.
      - cbn. split; discriminate. }
    match goal with
    | |- context [match ?r with Ok _ => _ | Throw _ => _ end] =>
        destruct (Hn r) as [Hj Hst]
    end.
    + intros x Hx.
      destruct (getYouTubeVideoData env w videoId); [|discriminate]. cbn [bind] in Hx.
      destruct (getTranscript env w' videoId) as [t|]; [|discriminate]. cbn [bind] in Hx.
      destruct (Routes.analyzeCoverageOf env w' beyond t _ _); [|discriminate].
      cbn [bind] in Hx. destruct (Routes.preview t); [|discriminate].
      cbn [bind] in Hx. injection Hx as <-. split; [reflexivity|].
      cbn [Routes.json]. eauto 10.
    + split; [exact Hj|]. split; [intro H; contradiction|discriminate].
  - cbn. split; [discriminate|]. split; reflexivity.
Qed.

Lemma form_request_passes_validation_witness :
  Routes.json
    (Routes.analyze quietEnv None deadWorld deadWorld noBeyond
       (App.requestBody
          (App.mkForm (lit "https://youtu.be/dQw4w9WgXcQ") (lit "Biology")
             (lit "light reactions" ++ nl ++ lit "energy conversion") (lit "groq")
             JNull false [])
          (App.subtopicsArray (lit "light reactions" ++ nl ++ lit "energy conversion"))))
  <> Routes.Failure (lit "YouTube URL, topic, and at least one subtopic are required.")
       None None.
Proof.
  refine (proj1 (form_request_passes_validation quietEnv None deadWorld deadWorld noBeyond
                   (App.mkForm (lit "https://youtu.be/dQw4w9WgXcQ") (lit "Biology")
                      (lit "light reactions" ++ nl ++ lit "energy conversion") (lit "groq")
                      JNull false []) _ _ _ _)).
  - discriminate.
  - discriminate.
  - vm_compute. discriminate.
  - vm_compute. reflexivity.
Defined.

(* ================================================================== *)
(** ** The subtopics in the prompt *)
(* ================================================================== *)

Lemma digitValue_hexDigit : forall n, (n < 16)%N -> digitValue 16 (hexDigit n) = Some n.
Proof.
  intros n Hn. unfold hexDigit, digitValue.
  destruct (n <? 10)%N eqn:E.
  - apply N.ltb_lt in E. rewrite (digit_isDigit n E).
    replace (48 + n - 48)%N with n by lia.
    now replace (n <? 16)%N with true by (symmetry; apply N.ltb_lt; lia).
  - apply N.ltb_ge in E. unfold isDigit, isLowerAscii.
    replace (87 + n <=? 57)%N with false by (symmetry; apply N.leb_gt; lia).
    rewrite andb_false_r.
    replace (97 <=? 87 + n)%N with true by (symmetry; apply N.leb_le; lia).
    replace (87 + n <=? 122)%N with true by (symmetry; apply N.leb_le; lia).
    cbn [andb]. replace (87 + n - 87)%N with n by lia.
    now replace (n <? 16)%N with true by (symmetry; apply N.ltb_lt; lia).
Qed.

Lemma hex4_unicodeEscape : forall c,
  (c < 65536)%N ->
  hex4 (hexDigit (c / 4096 mod 16)) (hexDigit (c / 256 mod 16))
       (hexDigit (c / 16 mod 16)) (hexDigit (c mod 16)) = Some c.
Proof.
  intros c Hc. unfold hex4.
  rewrite !digitValue_hexDigit by (apply N.mod_lt; lia).
  f_equal.
  assert (H3 : (c / 4096 < 16)%N) by (apply N.Div0.div_lt_upper_bound; lia).
  rewrite (N.mod_small (c / 4096) 16 H3).
  pose proof (N.div_mod c 16 ltac:(lia)) as E0.
  pose proof (N.div_mod (c / 16) 16 ltac:(lia)) as E1.
  pose proof (N.div_mod (c / 256) 16 ltac:(lia)) as E2.
  rewrite N.Div0.div_div in E1. rewrite N.Div0.div_div in E2.
  change (16 * 16)%N with 256%N in E1. change (256 * 16)%N with 4096%N in E2.
  generalize dependent (c mod 16)%N. generalize dependent ((c / 16) mod 16)%N.
  generalize dependent ((c / 256) mod 16)%N.
  generalize dependent (c / 4096)%N. generalize dependent (c / 256)%N.
  generalize dependent (c / 16)%N. intros. lia.
Qed.

Lemma parseChars_escaped : forall c tail acc,
  (c < 65536)%N ->
  parseChars (unicodeEscape c ++ tail) acc = parseChars tail (c :: acc).
Proof.
  intros c tail acc Hc. unfold unicodeEscape. cbn [app parseChars].
  change (ch "\" =? dquote)%N with false. change (ch "\" =? ch "\")%N with true.
  change (ch "u" =? ch "u")%N with true. cbv iota.
  now rewrite (hex4_unicodeEscape c Hc).
Qed.

Lemma parseChars_raw : forall c tail acc,
  (c =? dquote)%N = false ->
  (c =? ch "\")%N = false ->
  (c <? 32)%N = false ->
  parseChars (c :: tail) acc = parseChars tail (c :: acc).
Proof.
  intros c tail acc H1 H2 H3. cbn [parseChars]. now rewrite H1, H2, H3.
Qed.

Lemma parseChars_surrogate : forall c tail acc,
  (0xD800 <= c)%N -> parseChars (c :: tail) acc = parseChars tail (c :: acc).
Proof.
  intros c tail acc H. apply parseChars_raw.
  - apply N.eqb_neq. unfold dquote. lia.
  - apply N.eqb_neq. cbn. lia.
  - apply N.ltb_ge. lia.
Qed.

Lemma parseChars_quoteUnit : forall c tail acc,
  (c < 65536)%N ->
  parseChars (quoteUnit c ++ tail) acc = parseChars tail (c :: acc).
Proof.
  intros c tail acc Hc. unfold quoteUnit.
  destruct (c =? 8)%N eqn:E8; [apply N.eqb_eq in E8; subst c; reflexivity|].
  destruct (c =? 9)%N eqn:E9; [apply N.eqb_eq in E9; subst c; reflexivity|].
  destruct (c =? 10)%N eqn:E10; [apply N.eqb_eq in E10; subst c; reflexivity|].
  destruct (c =? 12)%N eqn:E12; [apply N.eqb_eq in E12; subst c; reflexivity|].
  destruct (c =? 13)%N eqn:E13; [apply N.eqb_eq in E13; subst c; reflexivity|].
  destruct (c =? dquote)%N eqn:Eq; [apply N.eqb_eq in Eq; subst c; reflexivity|].
  destruct (c =? ch "\")%N eqn:Eb; [apply N.eqb_eq in Eb; subst c; reflexivity|].
  destruct (c <? 32)%N eqn:El.
  - now apply parseChars_escaped.
  - cbn [app]. now apply parseChars_raw.
Qed.

Lemma parseChars_quoteUnits : forall n s,
  List.length s <= n ->
  codeUnits s ->
  forall acc tail,
    parseChars (quoteUnits s ++ dquote :: tail) acc = Some (rev acc ++ s, tail).
Proof.
  induction n as [|n IH]; intros s Hlen Hs acc tail.
  - destruct s; [|cbn in Hlen; lia]. cbn [quoteUnits app parseChars].
    rewrite N.eqb_refl. now rewrite app_nil_r.
  - destruct s as [|c r].
    + cbn [quoteUnits app parseChars]. rewrite N.eqb_refl. now rewrite app_nil_r.
    + inversion Hs as [|? ? Hc Hr]; subst. cbn [List.length] in Hlen.
      assert (Step : forall acc',
                 parseChars (quoteUnits r ++ dquote :: tail) (c :: acc')
                 = Some (rev acc' ++ c :: r, tail)).
      { intro acc'. rewrite (IH r ltac:(lia) Hr). cbn [rev].
        now rewrite <- app_assoc. }
      cbn [quoteUnits]. destruct (isLeadSurrogate c) eqn:Elead.
      * assert (Hhigh : (0xD800 <= c)%N).
        { unfold isLeadSurrogate in Elead. apply andb_prop in Elead.
          destruct Elead as [E1 _]. now apply N.leb_le in E1. }
        destruct r as [|d r'].
        -- rewrite parseChars_escaped by exact Hc. apply Step.
        -- destruct (isTrailSurrogate d) eqn:Etrail.
           ++ assert (Hd : (0xD800 <= d)%N).
              { unfold isTrailSurrogate in Etrail. apply andb_prop in Etrail.
                destruct Etrail as [E1 _]. apply N.leb_le in E1. lia. }
              cbn [app]. rewrite (parseChars_surrogate c _ _ Hhigh).
              rewrite (parseChars_surrogate d _ _ Hd).
              inversion Hr; subst. cbn [List.length] in Hlen.
              rewrite (IH r' ltac:(lia)) by assumption.
              cbn [rev]. now rewrite <- !app_assoc.
           ++ rewrite <- app_assoc. rewrite parseChars_escaped by exact Hc. apply Step.
      * destruct (isTrailSurrogate c) eqn:Etrail.
        -- rewrite <- app_assoc. rewrite parseChars_escaped by exact Hc. apply Step.
        -- rewrite <- app_assoc. rewrite parseChars_quoteUnit by exact Hc. apply Step.
Qed.

Lemma parseValue_quote : forall f s tail,
  codeUnits s ->
  parseValue (S f) (quote s ++ tail) = Some (JStr s, tail).
Proof.
  intros f s tail Hs. unfold quote. cbn [app parseValue skipWs].
  change (isJsonWs dquote) with false. cbv iota.
  change (dquote =? ch "[")%N with false. change (dquote =? ch "{")%N with false.
  rewrite N.eqb_refl. cbv iota.
  rewrite <- app_assoc. cbn [app].
  now rewrite (parseChars_quoteUnits (List.length s) s (le_n _) Hs [] tail).
Qed.

Lemma parseElements_strings : forall l x tail,
  Forall codeUnits (x :: l) ->
  parseElements (S (S (List.length l)))
    (joinWith [ch ","] (map quote (x :: l)) ++ ch "]" :: tail)
  = Some (map JStr (x :: l), tail).
Proof.
  induction l as [|y l IH]; intros x tail H; inversion H as [|? ? Hx Hl]; subst.
  - cbn [map joinWith List.length]. cbn [parseElements].
    rewrite (parseValue_quote 0 x _ Hx). reflexivity.
  - change (joinWith [ch ","] (map quote (x :: y :: l)))
      with (quote x ++ [ch ","] ++ joinWith [ch ","] (map quote (y :: l))).
    rewrite <- !app_assoc. cbn [List.length].
    remember (S (S (List.length l))) as g eqn:Eg.
    cbn [parseElements]. rewrite Eg at 1. rewrite (parseValue_quote _ x _ Hx).
    cbn [app skipWs]. change (isJsonWs (ch ",")) with false. cbv iota.
    change (ch "," =? ch "]")%N with false. change (ch "," =? ch ",")%N with true.
    cbv iota. subst g. rewrite (IH y tail Hl). reflexivity.
Qed.

(** X30.  The subtopics can be read back from the prompt.  The prompt
    ends with [Subtopics: ] followed by the JSON text of the list, and
    JSON.parse applied to that text gives the list of the same strings
    in the same order, whatever quotes, backslashes, line breaks or
    unpaired surrogates the subtopics hold. *)
Theorem prompt_subtopics_round_trip : forall transcript subtopics,
  Forall codeUnits subtopics ->
  (exists before,
      buildPrompt transcript subtopics
      = before ++ lit "Subtopics: " ++ JSON_stringify_strings subtopics)
  /\ JSON_parse (JSON_stringify_strings subtopics) = Ok (JArr (map JStr subtopics)).
Proof.
  intros transcript subtopics H. split.
  - unfold buildPrompt. eexists. rewrite !app_assoc. reflexivity.
  - apply JSON_parse_any_fuel. unfold JSON_stringify_strings.
    destruct subtopics as [|x l].
    + exists 1, []. split; reflexivity.
    + exists (S (S (S (List.length l)))), []. split; [|reflexivity].
      remember (S (S (List.length l))) as g eqn:Eg.
      cbn [parseValue skipWs]. change (isJsonWs (ch "[")) with false. cbv iota.
      rewrite N.eqb_refl. cbv iota.
      assert (Hq : exists r, joinWith [ch ","] (map quote (x :: l)) ++ [ch "]"]
                             = dquote :: r).
      { destruct l; cbn [map joinWith quote app]; eexists; reflexivity. }
      destruct Hq as [r Hq]. rewrite Hq. cbn [skipWs].
      change (isJsonWs dquote) with false. cbv iota.
      change (dquote =? ch "]")%N with false. cbv iota.
      rewrite <- Hq. subst g. now rewrite (parseElements_strings l x [] H).
Qed.

Lemma prompt_subtopics_round_trip_witness :
  JSON_parse (JSON_stringify_strings [dq "light 'reactions'"; lit "a\b" ++ nl])
  = Ok (JArr (map JStr [dq "light 'reactions'"; lit "a\b" ++ nl])).
Proof.
  apply (prompt_subtopics_round_trip photosynthesis [dq "light 'reactions'"; lit "a\b" ++ nl]).
  repeat constructor.
Defined.
